(** * Booze: the data pipeline of the alcohol-availability explorer

    A shallow embedding of the pure transformation code of the repository
    (src/lib/csv.ts and the five view modules under src/views) together
    with the properties its specification states about it.

    Conventions of the embedding.

    - A JavaScript [number] is an exact rational ([Q]).  The modelled code
      guards every division, so it produces neither NaN nor an infinity
      from finite inputs; the rounding error of IEEE doubles is not
      modelled.  [null] is [None].
    - A [Date] is its time value, a whole number of milliseconds ([Z]);
      [new Date(t)] clips a fractional [t] toward zero, as the Date
      constructor does.  An Invalid Date has no time value and is not
      modelled: statements about the order of dates are made for valid
      dates.
    - A string is a [string] of 8-bit code units.
    - A [Map] and a plain object used as a record of numbers are
      association lists in insertion order.
    - [Array.prototype.sort] is a stable insertion sort by the comparator. *)

From Stdlib Require Import ZArith QArith Qround Qabs Qminmax List Bool Ascii String DecimalString.
From Stdlib Require Import Sorted Permutation Lia Lra Psatz.
Import ListNotations.

Open Scope string_scope.

(** ** JavaScript primitives used by the code *)

Module Js.

(** [String.prototype.toLowerCase] on one code unit. *)
Definition isUpper (c : ascii) : bool :=
  let n := nat_of_ascii c in (65 <=? n)%nat && (n <=? 90)%nat.

Definition toLowerChar (c : ascii) : ascii :=
  if isUpper c then ascii_of_nat (nat_of_ascii c + 32) else c.

Fixpoint toLowerCase (s : string) : string :=
  match s with
  | EmptyString => EmptyString
  | String c r => String (toLowerChar c) (toLowerCase r)
  end.

(** The character class [[a-z0-9]]. *)
Definition isLowerAlnum (c : ascii) : bool :=
  let n := nat_of_ascii c in
  ((97 <=? n)%nat && (n <=? 122)%nat) || ((48 <=? n)%nat && (n <=? 57)%nat).

Definition hyphen : ascii := "-"%char.

Definition isHyphen (c : ascii) : bool := Ascii.eqb c hyphen.

(** [s.replace(/[^a-z0-9]+/g, '-')]: a left-to-right scan; [inRun] tells
    that the previous code unit already belonged to the run being
    replaced. *)
Fixpoint replaceNonAlnumRuns (inRun : bool) (s : string) : string :=
  match s with
  | EmptyString => EmptyString
  | String c r =>
      if isLowerAlnum c then String c (replaceNonAlnumRuns false r)
      else if inRun then replaceNonAlnumRuns true r
      else String hyphen (replaceNonAlnumRuns true r)
  end.

(** [s.replace(/^-+|-+$/g, '')]: the first alternative removes the
    leading run of hyphens, the second the run that reaches the end. *)
Fixpoint dropLeadingHyphens (s : string) : string :=
  match s with
  | EmptyString => EmptyString
  | String c r => if isHyphen c then dropLeadingHyphens r else s
  end.

Fixpoint dropTrailingHyphens (s : string) : string :=
  match s with
  | EmptyString => EmptyString
  | String c r =>
      match dropTrailingHyphens r with
      | EmptyString => if isHyphen c then EmptyString else String c EmptyString
      | r' => String c r'
      end
  end.

Definition stripHyphens (s : string) : string :=
  dropTrailingHyphens (dropLeadingHyphens s).

(** [s.replace(/-{2,}/g, '-')]. *)
Fixpoint collapseHyphens (afterHyphen : bool) (s : string) : string :=
  match s with
  | EmptyString => EmptyString
  | String c r =>
      if isHyphen c then
        if afterHyphen then collapseHyphens true r
        else String c (collapseHyphens true r)
      else String c (collapseHyphens false r)
  end.

(** *** Numbers and dates *)

Definition Date : Type := Z.

Definition getTime (d : Date) : Q := inject_Z d.

(** Truncation toward zero ([ToIntegerOrInfinity]). *)
Definition Qtrunc (q : Q) : Z := Z.quot (Qnum q) (Z.pos (Qden q)).

(** [new Date(t)]: the time value is clipped to a whole millisecond. *)
Definition newDate (t : Q) : Date := Qtrunc t.

(** [Math.max(0, x)] and [Math.floor(x)]. *)
Definition max0 (x : Q) : Q := if Qle_bool x 0 then 0 else x.

Definition floor (x : Q) : Q := inject_Z (Qfloor x).

(** [x === 0] and [x < 0] on numbers. *)
Definition isZero (x : Q) : bool := Qeq_bool x 0.

Definition isNegative (x : Q) : bool := negb (Qle_bool 0 x).

Definition pow10 (digits : nat) : Z := 10 ^ Z.of_nat digits.

(** [Number(x.toFixed(digits))] for a non-negative [x]: the multiple
    [n / 10^digits] nearest to [x], the larger [n] on a tie. *)
Definition roundNonNeg (digits : nat) (x : Q) : Q :=
  inject_Z (Qfloor (x * inject_Z (pow10 digits) + (1 # 2))) / inject_Z (pow10 digits).

(** [Number(x.toFixed(digits))]: [toFixed] treats a negative [x] by its
    magnitude and a minus sign.  (At magnitudes from 10^21 on [toFixed]
    prints the number itself; a double that large is a whole number, and
    so is its own rounding.) *)
Definition toFixedNumber (digits : nat) (x : Q) : Q :=
  if Qle_bool 0 x then roundNonNeg digits x else - roundNonNeg digits (- x).

(** *** Arrays *)

(** [xs.slice(start, stop)] for indexes within bounds or beyond the end. *)
Definition slice {A : Type} (start stop : nat) (xs : list A) : list A :=
  firstn (stop - start) (skipn start xs).

(** [xs.map((x, index) => f x index)]. *)
Fixpoint mapFrom {A B : Type} (f : A -> nat -> B) (index : nat) (xs : list A) : list B :=
  match xs with
  | [] => []
  | x :: r => f x index :: mapFrom f (S index) r
  end.

Definition mapi {A B : Type} (f : A -> nat -> B) (xs : list A) : list B :=
  mapFrom f 0 xs.

(** [xs.sort(cmp)]: stable; [x] is placed before the first element it
    does not exceed. *)
Fixpoint insertBy {A : Type} (cmp : A -> A -> Q) (x : A) (xs : list A) : list A :=
  match xs with
  | [] => [x]
  | y :: r => if Qle_bool (cmp x y) 0 then x :: y :: r else y :: insertBy cmp x r
  end.

Fixpoint sortBy {A : Type} (cmp : A -> A -> Q) (xs : list A) : list A :=
  match xs with
  | [] => []
  | x :: r => insertBy cmp x (sortBy cmp r)
  end.

Definition byTime {A : Type} (date : A -> Date) (a b : A) : Q :=
  getTime (date a) - getTime (date b).

(** *** Maps and objects, in insertion order *)

Section Maps.
Context {K V : Type} (eqb : K -> K -> bool).

Fixpoint mapGet (k : K) (m : list (K * V)) : option V :=
  match m with
  | [] => None
  | (k', v) :: r => if eqb k' k then Some v else mapGet k r
  end.

Definition mapHas (k : K) (m : list (K * V)) : bool :=
  match mapGet k m with Some _ => true | None => false end.

(** [m.set(k, v)] and [o[k] = v]: an existing key keeps its place. *)
Fixpoint mapSet (k : K) (v : V) (m : list (K * V)) : list (K * V) :=
  match m with
  | [] => [(k, v)]
  | (k', v') :: r => if eqb k' k then (k', v) :: r else (k', v') :: mapSet k v r
  end.

(** A mutation of the value stored under [k], through the reference
    [m.get(k)] hands out; nothing happens when [k] is absent. *)
Fixpoint mapUpdate (k : K) (f : V -> V) (m : list (K * V)) : list (K * V) :=
  match m with
  | [] => []
  | (k', v) :: r => if eqb k' k then (k', f v) :: r else (k', v) :: mapUpdate k f r
  end.

Definition mapKeys (m : list (K * V)) : list K := map fst m.
Definition mapValues (m : list (K * V)) : list V := map snd m.
End Maps.

(** A plain object whose properties are numbers. *)
Definition NumObject : Type := list (string * Q).

Definition objGet : string -> NumObject -> option Q := mapGet String.eqb.
Definition objSet : string -> Q -> NumObject -> NumObject := mapSet String.eqb.
Definition objUpdate : string -> (Q -> Q) -> NumObject -> NumObject := mapUpdate String.eqb.

(** [Object.fromEntries(keys.map((key) => [key, v]))]. *)
Definition objFromKeys (keys : list string) (v : Q) : NumObject :=
  fold_left (fun o key => objSet key v o) keys [].

(** [xs.includes(x)] and [set.has(x)] on strings. *)
Definition includes (x : string) (xs : list string) : bool :=
  existsb (String.eqb x) xs.

(** *** Strings *)

(** White space of [String.prototype.trim] among 8-bit code units. *)
Definition isSpace (c : ascii) : bool :=
  let n := nat_of_ascii c in
  ((9 <=? n)%nat && (n <=? 13)%nat) || (n =? 32)%nat || (n =? 160)%nat.

Fixpoint trimStart (s : string) : string :=
  match s with
  | EmptyString => EmptyString
  | String c r => if isSpace c then trimStart r else s
  end.

Fixpoint trimEnd (s : string) : string :=
  match s with
  | EmptyString => EmptyString
  | String c r =>
      match trimEnd r with
      | EmptyString => if isSpace c then EmptyString else String c EmptyString
      | r' => String c r'
      end
  end.

Definition trim (s : string) : string := trimEnd (trimStart s).

(** [s.slice(0, n)] and [s.slice(0, -1)]. *)
Definition takeChars (n : nat) (s : string) : string := substring 0 n s.

Definition dropLastChar (s : string) : string := substring 0 (String.length s - 1) s.

(** [s.split('.')[0]]. *)
Fixpoint beforeDot (s : string) : string :=
  match s with
  | EmptyString => EmptyString
  | String c r => if Ascii.eqb c "."%char then EmptyString else String c (beforeDot r)
  end.

(** *** [Number(s)] *)

(** The result of [Number(s)]: a finite number, an infinity or NaN. *)
Inductive Parsed : Type :=
  | Finite (q : Q)
  | Infinite (negative : bool)
  | NotANumber.

Definition digitOf (base : nat) (c : ascii) : option Z :=
  let n := nat_of_ascii c in
  let v :=
    if (48 <=? n)%nat && (n <=? 57)%nat then Some (n - 48)%nat
    else if (97 <=? n)%nat && (n <=? 102)%nat then Some (n - 87)%nat
    else if (65 <=? n)%nat && (n <=? 70)%nat then Some (n - 55)%nat
    else None in
  match v with
  | Some d => if (d <? base)%nat then Some (Z.of_nat d) else None
  | None => None
  end.

(** Reads the longest prefix of digits: the value accumulated onto [acc],
    the number of digits read, and the rest. *)
Fixpoint readDigits (base : nat) (acc : Z) (count : nat) (s : string) : Z * nat * string :=
  match s with
  | EmptyString => (acc, count, s)
  | String c r =>
      match digitOf base c with
      | Some d => readDigits base (acc * Z.of_nat base + d) (S count) r
      | None => (acc, count, s)
      end
  end.

(** [mantissa * 10^exponent]. *)
Definition scale10 (mantissa exponent : Z) : Q :=
  if (0 <=? exponent)%Z then inject_Z (mantissa * 10 ^ exponent)
  else mantissa # Z.to_pos (10 ^ (- exponent)).

(** An optional sign: whether it is a minus, and the rest. *)
Definition readSign (s : string) : bool * string :=
  match s with
  | String "-"%char r => (true, r)
  | String "+"%char r => (false, r)
  | _ => (false, s)
  end.

(** [ExponentPart] up to the end of the literal, or nothing. *)
Definition readExponent (s : string) : option Z :=
  match s with
  | EmptyString => Some 0%Z
  | String c r =>
      if Ascii.eqb c "e"%char || Ascii.eqb c "E"%char then
        let '(negative, r1) := readSign r in
        match readDigits 10 0 0 r1 with
        | (_, O, _) => None
        | (e, _, EmptyString) => Some (if negative then (- e)%Z else e)
        | _ => None
        end
      else None
  end.

(** [StrUnsignedDecimalLiteral] other than [Infinity]. *)
Definition readUnsignedDecimal (s : string) : option Q :=
  let '(whole, n1, r1) := readDigits 10 0 0 s in
  let '(mantissa, n2, r2) :=
    match r1 with
    | String "."%char r => readDigits 10 whole 0 r
    | _ => (whole, O, r1)
    end in
  match (n1 + n2)%nat with
  | O => None
  | _ =>
      match readExponent r2 with
      | Some e => Some (scale10 mantissa (e - Z.of_nat n2))
      | None => None
      end
  end.

Definition readRadix (base : nat) (s : string) : Parsed :=
  match readDigits base 0 0 s with
  | (_, O, _) => NotANumber
  | (v, _, EmptyString) => Finite (inject_Z v)
  | _ => NotANumber
  end.

Definition parseNumber (s : string) : Parsed :=
  match trim s with
  | EmptyString => Finite 0
  | String "0"%char (String "x"%char r) | String "0"%char (String "X"%char r) => readRadix 16 r
  | String "0"%char (String "o"%char r) | String "0"%char (String "O"%char r) => readRadix 8 r
  | String "0"%char (String "b"%char r) | String "0"%char (String "B"%char r) => readRadix 2 r
  | t =>
      let '(negative, r) := readSign t in
      if String.eqb r "Infinity" then Infinite negative
      else
        match readUnsignedDecimal r with
        | Some q => Finite (if negative then - q else q)
        | None => NotANumber
        end
  end.

(** *** What the host decides *)

(** Built-ins whose result depends on the host (its time zone and locale)
    or on the binary representation of a number. *)
Record Host : Type := {
  (** [String(x)] and the interpolation of a number into a template. *)
  numberToString : Q -> string;
  (** [a.localeCompare(b)]. *)
  localeCompare : string -> string -> Q;
  (** [new Date(year, monthIndex, 1)]. *)
  localDate : Q -> Q -> Date;
  (** [d.getFullYear()], [d.getMonth()] and [d.toISOString().slice(0, 10)]. *)
  getFullYear : Date -> Q;
  getMonth : Date -> Q;
  isoDay : Date -> string
}.

End Js.

(** ** src/lib/download.ts: the rows handed over for export *)

Module Download.

Inductive Cell : Type :=
  | Num (q : Q)
  | Str (s : string)
  | Null.

Definition CsvRow : Type := list (string * Cell).

Definition field (name : string) (row : CsvRow) : option Cell :=
  Js.mapGet String.eqb name row.

Definition setField (name : string) (c : Cell) (row : CsvRow) : CsvRow :=
  Js.mapSet String.eqb name c row.

(** [x === null ? null : Number(x.toFixed(digits))]. *)
Definition fixedOrNull (digits : nat) (x : option Q) : Cell :=
  match x with
  | Some v => Num (Js.toFixedNumber digits v)
  | None => Null
  end.

End Download.

(** ** src/lib/csv.ts *)

Module Csv.
Import Js.

(** A raw row: the columns it has, each with its text. *)
Definition RawRecord : Type := list (string * string).

Definition column (name : string) (row : RawRecord) : option string :=
  mapGet String.eqb name row.

Record DataRecord : Type := {
  period : string;
  date : Date;
  year : Q;
  month : Q;
  value : option Q;
  units : string;
  groupKey : string;
  groupLabel : string;
  seriesKey : string;
  seriesLabel : string
}.

Definition MONTH_MAP : list (string * Q) :=
  [("Mar", 3); ("Jun", 6); ("Sep", 9); ("Dec", 12)].

Definition slugify (value : string) : string :=
  collapseHyphens false
    (stripHyphens (replaceNonAlnumRuns false (toLowerCase value))).

Definition coerceNumber (value : option string) : option Q :=
  match value with
  | None => None
  | Some text =>
      let trimmed := trim text in
      if String.eqb trimmed "" || String.eqb trimmed ".." then None
      else
        match parseNumber trimmed with
        | Finite numeric => Some numeric
        | _ => None
        end
  end.

(** [a ?? b]. *)
Definition orElse {A : Type} (a b : option A) : option A :=
  match a with
  | Some _ => a
  | None => b
  end.

Definition deriveMonth (row : RawRecord) : Q :=
  let monthToken :=
    match orElse (column "Unnamed: 1" row)
            (orElse (column "" row) (orElse (column "Month" row) (column "Month_code" row))) with
    | Some text => text
    | None => ""
    end in
  let token := if String.eqb monthToken "" then "" else takeChars 3 (trim monthToken) in
  match mapGet String.eqb token MONTH_MAP with
  | Some m => m
  | None => 12
  end.

Definition deriveYear (period : string) : Q :=
  match parseNumber period with
  | Finite numeric => floor numeric
  | _ =>
      match parseNumber (beforeDot period) with
      | Finite candidate => candidate
      | _ => 0
      end
  end.

Definition ensureDate (host : Host) (year month : Q) : Date :=
  localDate host year (max0 (month - 1)).

(** The record [loadData] makes of one row. *)
Definition recordOfRow (host : Host) (row : RawRecord) : DataRecord :=
  let period := match column "Period" row with Some p => p | None => "" end in
  let groupLabel := match column "Group" row with Some g => g | None => "Unknown group" end in
  let seriesLabel :=
    match column "Series_title_1" row with Some s => s | None => "Unknown series" end in
  let year := deriveYear period in
  let month := deriveMonth row in
  {| period := period;
     date := ensureDate host year month;
     year := year;
     month := month;
     value := coerceNumber (column "Data_value" row);
     units := match column "UNITS" row with Some u => u | None => "" end;
     groupKey := slugify groupLabel;
     groupLabel := groupLabel;
     seriesKey :=
       slugify (if String.eqb seriesLabel "" then groupLabel ++ "-" ++ period else seriesLabel);
     seriesLabel := seriesLabel |}.

(** The [records] of the model [loadData] resolves to, from the rows the
    CSV parser delivers. *)
Definition loadRecords (host : Host) (rows : list RawRecord) : list DataRecord :=
  sortBy (byTime date)
    (filter (fun record => (0 <? String.length (trim (seriesLabel record)))%nat)
       (map (recordOfRow host) rows)).

(** The slug as the specification words it: the label lowercased, every
    maximal run of non-alphanumeric characters collapsed to one hyphen,
    leading and trailing hyphens removed. *)
Definition slugSpec (label : string) : string :=
  stripHyphens (replaceNonAlnumRuns false (toLowerCase label)).

End Csv.

(** ** src/views/percapita.ts *)

Module PerCapita.
Import Js.

Record SeriesPoint : Type := {
  date : Date;
  value : option Q
}.

Record SeriesData : Type := {
  key : string;
  label : string;
  values : list SeriesPoint
}.

Definition SERIES_LABELS : list string :=
  ["Beer Per Head"; "Wine Per Head"; "Spirits Per Head"].
Definition GROUP_LABEL : string := "(DISC) Volume & Volume Per Head".
Definition SMOOTH_WINDOW : Q := 4.

Definition keyForLabel (label : string) : string :=
  replaceNonAlnumRuns false (toLowerCase label).

Definition collectSeries (records : list Csv.DataRecord) : list SeriesData :=
  let filtered := filter (fun record => String.eqb (Csv.groupLabel record) GROUP_LABEL) records in
  map (fun label =>
         let values :=
           map (fun record => {| date := Csv.date record; value := Csv.value record |})
             (filter (fun record => String.eqb (Csv.seriesLabel record) label) filtered) in
         {| key := keyForLabel label; label := label; values := sortBy (byTime date) values |})
    SERIES_LABELS.

Definition isPresent (item : SeriesPoint) : bool :=
  match value item with
  | Some _ => true
  | None => false
  end.

(** [item.value ?? 0]. *)
Definition valueOr0 (item : SeriesPoint) : Q :=
  match value item with
  | Some v => v
  | None => 0
  end.

Definition smoothValues (values : list SeriesPoint) (windowSize : Q) : list SeriesPoint :=
  if Qle_bool windowSize 1 then values
  else
    mapi (fun point index =>
            let windowStart := max0 (inject_Z (Z.of_nat index) - windowSize + 1) in
            let window :=
              filter isPresent (slice (Z.to_nat (Qtrunc windowStart)) (index + 1) values) in
            match window with
            | [] => point
            | _ =>
                let average :=
                  fold_left (fun sum item => sum + valueOr0 item) window 0
                  / inject_Z (Z.of_nat (List.length window)) in
                {| date := date point; value := Some average |}
            end)
      values.

Record CrossoverPoint : Type := {
  crossDate : Date;
  labelA : string;
  labelB : string;
  crossValue : Q
}.

(** The body of the innermost loop once the four values are known to be
    numbers: the crossings it pushes. *)
Definition crossingsBetween (seriesA seriesB : SeriesData)
    (prevDate currDate : Date) (prevA currA prevB currB : Q) : list CrossoverPoint :=
  let prevDiff := prevA - prevB in
  let currDiff := currA - currB in
  if isZero prevDiff then
    [ {| crossDate := prevDate; labelA := label seriesA; labelB := label seriesB;
         crossValue := prevA |} ]
  else if isNegative (prevDiff * currDiff) then
    let totalDiff := Qabs prevDiff + Qabs currDiff in
    let ratio := Qabs prevDiff / totalDiff in
    let interpolatedTime := getTime prevDate + (getTime currDate - getTime prevDate) * ratio in
    let value := prevA + (currA - prevA) * ratio in
    [ {| crossDate := newDate interpolatedTime; labelA := label seriesA;
         labelB := label seriesB; crossValue := value |} ]
  else [].

(** One turn of the innermost loop at [index >= 1].  [None] is the
    TypeError of reading [.value] of an element [seriesB] does not have;
    the [||] chain reads the four values from left to right and stops at
    the first [null]. *)
Definition crossingsAt (seriesA seriesB : SeriesData) (index : nat)
    : option (list CrossoverPoint) :=
  match nth_error (values seriesA) (index - 1), nth_error (values seriesA) index with
  | Some prevA, Some currA =>
      match value prevA, value currA with
      | Some pa, Some ca =>
          match nth_error (values seriesB) (index - 1) with
          | None => None
          | Some prevB =>
              match value prevB with
              | None => Some []
              | Some pb =>
                  match nth_error (values seriesB) index with
                  | None => None
                  | Some currB =>
                      match value currB with
                      | None => Some []
                      | Some cb =>
                          Some (crossingsBetween seriesA seriesB (date prevA) (date currA)
                                  pa ca pb cb)
                      end
                  end
              end
          end
      | _, _ => Some []
      end
  | _, _ => Some []
  end.

(** A loop body that may throw, run over [items] with the crossings found
    so far. *)
Fixpoint forEachPush {A : Type} (body : A -> option (list CrossoverPoint))
    (items : list A) (crossings : list CrossoverPoint) : option (list CrossoverPoint) :=
  match items with
  | [] => Some crossings
  | item :: rest =>
      match body item with
      | None => None
      | Some found => forEachPush body rest (crossings ++ found)
      end
  end.

(** [for (index = 1; index < seriesA.values.length; index += 1)]. *)
Definition scanPair (seriesA seriesB : SeriesData) : option (list CrossoverPoint) :=
  forEachPush (crossingsAt seriesA seriesB)
    (seq 1 (List.length (values seriesA) - 1)) [].

(** The two outer loops: every series with each later one. *)
Fixpoint scanAll (series : list SeriesData) (crossings : list CrossoverPoint)
    : option (list CrossoverPoint) :=
  match series with
  | [] => Some crossings
  | seriesA :: later =>
      match forEachPush (scanPair seriesA) later crossings with
      | None => None
      | Some crossings' => scanAll later crossings'
      end
  end.

Definition findCrossovers (series : list SeriesData) : option (list CrossoverPoint) :=
  scanAll series [].

(** [buildSeries] of the view: the cached series, smoothed on demand. *)
Definition buildSeries (records : list Csv.DataRecord) (smoothed : bool) : list SeriesData :=
  map (fun series =>
         {| key := key series; label := label series;
            values := if smoothed then smoothValues (values series) SMOOTH_WINDOW
                      else values series |})
    (collectSeries records).

Definition exportRows (host : Host) (cachedSeries : list SeriesData) : list Download.CsvRow :=
  match cachedSeries with
  | [] => []
  | first :: _ =>
      mapi (fun point index =>
              fold_left
                (fun row series =>
                   Download.setField (key series)
                     (match nth_error (values series) index with
                      | Some p => Download.fixedOrNull 3 (value p)
                      | None => Download.Null
                      end) row)
                cachedSeries
                [("year", Download.Num (getFullYear host (date point)));
                 ("month", Download.Num (getMonth host (date point) + 1))])
        (values first)
  end.

End PerCapita.

(** ** src/views/spiritscheck.ts *)

Module SpiritsCheck.
Import Js.

Record SpiritsPoint : Type := {
  date : Date;
  period : string;
  litres : option Q;
  proof : option Q;
  ratio : option Q
}.

Definition GROUP_LABEL : string := "(DISC) Volume & Volume Per Head".
Definition SERIES_LABEL : string := "Spirits".
Definition SMOOTH_WINDOW : Q := 4.

Definition somes (items : list (option Q)) : list Q :=
  flat_map (fun item => match item with Some v => [v] | None => [] end) items.

Definition smoothSeries (values : list (option Q)) (windowSize : Q) : list (option Q) :=
  if Qle_bool windowSize 1 then values
  else
    mapi (fun value index =>
            let start := max0 (inject_Z (Z.of_nat index) - windowSize + 1) in
            let window := somes (slice (Z.to_nat (Qtrunc start)) (index + 1) values) in
            match window with
            | [] => value
            | _ =>
                Some (fold_left (fun sum item => sum + item) window 0
                      / inject_Z (Z.of_nat (List.length window)))
            end)
      values.

(** What the first loop of [preparePoints] does with one record. *)
Definition addRecord (byPeriod : list (string * SpiritsPoint)) (record : Csv.DataRecord)
    : list (string * SpiritsPoint) :=
  let byPeriod :=
    if mapHas String.eqb (Csv.period record) byPeriod then byPeriod
    else mapSet String.eqb (Csv.period record)
           {| date := Csv.date record; period := Csv.period record;
              litres := None; proof := None; ratio := None |} byPeriod in
  mapUpdate String.eqb (Csv.period record)
    (fun point =>
       if String.eqb (Csv.units record) "Litres" then
         {| date := date point; period := period point; litres := Csv.value record;
            proof := proof point; ratio := ratio point |}
       else if String.eqb (Csv.units record) "ProofL" then
         {| date := date point; period := period point; litres := litres point;
            proof := Csv.value record; ratio := ratio point |}
       else point)
    byPeriod.

Definition withRatio (point : SpiritsPoint) : SpiritsPoint :=
  {| date := date point; period := period point; litres := litres point;
     proof := proof point;
     ratio :=
       match litres point, proof point with
       | Some l, Some p => if isZero p then None else Some (l / p)
       | _, _ => None
       end |}.

Definition preparePoints (records : list Csv.DataRecord) : list SpiritsPoint :=
  let relevant :=
    filter (fun record => String.eqb (Csv.groupLabel record) GROUP_LABEL
                          && String.eqb (Csv.seriesLabel record) SERIES_LABEL) records in
  let byPeriod := fold_left addRecord relevant [] in
  map withRatio (sortBy (byTime date) (mapValues byPeriod)).

Definition exportRows (host : Host) (points : list SpiritsPoint) : list Download.CsvRow :=
  map (fun point =>
         [("date", Download.Str (isoDay host (date point)));
          ("litres", Download.fixedOrNull 3 (litres point));
          ("proof", Download.fixedOrNull 3 (proof point));
          ("ratio", Download.fixedOrNull 3 (ratio point))])
    points.

End SpiritsCheck.

(** ** src/views/seasonality.ts *)

Module Seasonality.
Import Js.

Record HeatmapCell : Type := {
  year : Q;
  month : Q;
  value : option Q
}.

(** The months of a year, and their sums, in a [Map<number, number>]. *)
Definition MonthSums : Type := list (Q * Q).

Definition selected (groupLabel seriesLabel : string) (record : Csv.DataRecord) : bool :=
  String.eqb (Csv.groupLabel record) groupLabel
  && String.eqb (Csv.seriesLabel record) seriesLabel.

(** What the first loop of [prepareCells] does with one record. *)
Definition addRecord (byYear : list (Q * MonthSums)) (record : Csv.DataRecord)
    : list (Q * MonthSums) :=
  match Csv.value record with
  | None => byYear
  | Some v =>
      let byYear :=
        if mapHas Qeq_bool (Csv.year record) byYear then byYear
        else mapSet Qeq_bool (Csv.year record) [] byYear in
      mapUpdate Qeq_bool (Csv.year record)
        (fun inner =>
           mapSet Qeq_bool (Csv.month record)
             (match mapGet Qeq_bool (Csv.month record) inner with
              | Some sum => sum
              | None => 0
              end + v) inner)
        byYear
  end.

Definition sumsByYear (records : list Csv.DataRecord) (groupLabel seriesLabel : string)
    : list (Q * MonthSums) :=
  fold_left addRecord (filter (selected groupLabel seriesLabel) records) [].

Definition months : list Q := [3; 6; 9; 12].

(** [Array.from(inner.values()).reduce((sum, value) => sum + value, 0)]. *)
Definition totalOf (inner : MonthSums) : Q :=
  fold_left (fun sum v => sum + v) (mapValues inner) 0.

(** The four cells of one year. *)
Definition cellsOfYear (byYear : list (Q * MonthSums)) (normalize : bool) (y : Q)
    : list HeatmapCell :=
  let inner := match mapGet Qeq_bool y byYear with Some m => m | None => [] end in
  let total := totalOf inner in
  map (fun m =>
         let v := mapGet Qeq_bool m inner in
         if normalize then
           {| year := y; month := m;
              value := match v with
                       | Some x => if isZero total then None else Some (x / total)
                       | None => None
                       end |}
         else {| year := y; month := m; value := v |})
    months.

Definition prepareCells (records : list Csv.DataRecord) (groupLabel seriesLabel : string)
    (normalize : bool) : list HeatmapCell :=
  let byYear := sumsByYear records groupLabel seriesLabel in
  let years := sortBy (fun a b => a - b) (mapKeys byYear) in
  flat_map (cellsOfYear byYear normalize) years.

Definition exportRows (cachedCells : list HeatmapCell) (normalize : bool)
    : list Download.CsvRow :=
  map (fun cell =>
         [("year", Download.Num (year cell));
          ("month", Download.Num (month cell));
          ("value", Download.fixedOrNull (if normalize then 4 else 3) (value cell))])
    cachedCells.

End Seasonality.

(** ** src/views/longrun.ts *)

Module LongRun.
Import Js.

Record SeriesPoint : Type := {
  pointDate : Date;
  value : option Q
}.

Record ChartSeries : Type := {
  key : string;
  label : string;
  values : list SeriesPoint
}.

Record PointShare : Type := {
  date : Date;
  total : Q;
  shares : NumObject
}.

Definition SERIES_LABELS : list string := ["Total beer"; "Total wine"; "Total spirits"].
Definition GROUP_LABELS : list string := ["Litres of Beverage"; "Litres of Alcohol"].

Definition keyForLabel (label : string) : string :=
  replaceNonAlnumRuns false (toLowerCase label).

Definition collectGroupData (records : list Csv.DataRecord) (groupLabel : string)
    : list Csv.DataRecord :=
  filter (fun record => String.eqb (Csv.groupLabel record) groupLabel) records.

Section BuildSeries.
Variable host : Host.

Definition pointKey (record : Csv.DataRecord) : string :=
  numberToString host (Csv.year record) ++ "-" ++ numberToString host (Csv.month record).

(** What the first loop of [buildSeries] does with one record. *)
Definition addRecord (labels : list string) (points : list (string * PointShare))
    (record : Csv.DataRecord) : list (string * PointShare) :=
  let points :=
    if mapHas String.eqb (pointKey record) points then points
    else mapSet String.eqb (pointKey record)
           {| date := Csv.date record; total := 0;
              shares := objFromKeys (map keyForLabel labels) 0 |} points in
  match Csv.value record with
  | None => points
  | Some v =>
      mapUpdate String.eqb (pointKey record)
        (fun entry =>
           {| date := date entry; total := total entry + v;
              shares := objSet (keyForLabel (Csv.seriesLabel record)) v (shares entry) |})
        points
  end.

Definition collectPoints (records : list Csv.DataRecord) (labels : list string)
    : list (string * PointShare) :=
  fold_left
    (fun points label =>
       fold_left (addRecord labels)
         (filter (fun record => String.eqb (Csv.seriesLabel record) label) records) points)
    labels [].

(** [o[key] = o[key] / total] for a property the object has. *)
Definition divideShare (total : Q) (o : NumObject) (key : string) : NumObject :=
  objUpdate key (fun v => v / total) o.

(** The second loop of [buildSeries], on one point. *)
Definition toShares (point : PointShare) : PointShare :=
  if isZero (total point) then
    {| date := date point; total := total point;
       shares := fold_left (fun o label => objSet (keyForLabel label) 0 o)
                   SERIES_LABELS (shares point) |}
  else
    {| date := date point; total := total point;
       shares := fold_left (divideShare (total point)) (map keyForLabel SERIES_LABELS)
                   (shares point) |}.

(** The [points] of [buildSeries(records, SERIES_LABELS)]; every call in
    the source passes [SERIES_LABELS] for [labels], so that each share the
    second loop divides is a property the first loop created. *)
Definition buildPoints (records : list Csv.DataRecord) : list PointShare :=
  map toShares (sortBy (byTime date) (mapValues (collectPoints records SERIES_LABELS))).

(** The [series] of [buildSeries(records, SERIES_LABELS)]. *)
Definition buildSeries (records : list Csv.DataRecord) : list ChartSeries :=
  let orderedPoints := buildPoints records in
  map (fun label =>
         {| key := keyForLabel label; label := label;
            values :=
              map (fun point =>
                     {| pointDate := date point;
                        value :=
                          if isZero (total point) then None
                          else match objGet (keyForLabel label) (shares point) with
                               | Some share => Some (share * total point)
                               | None => None
                               end |})
                orderedPoints |})
    SERIES_LABELS.

Definition createExportRows (records : list Csv.DataRecord) (group : string)
    (activeKeys : list string) : list Download.CsvRow :=
  map (fun point =>
         fold_left
           (fun row label =>
              let key := keyForLabel label in
              if includes key activeKeys then
                Download.setField (key ++ "_share")
                  (Download.Num
                     (toFixedNumber 4
                        (match objGet key (shares point) with Some v => v | None => 0 end)))
                  row
              else row)
           SERIES_LABELS
           [("year", Download.Num (getFullYear host (date point)));
            ("month", Download.Num (getMonth host (date point) + 1));
            ("total_litres", Download.Num (toFixedNumber 3 (total point)))])
    (buildPoints (collectGroupData records group)).

End BuildSeries.
End LongRun.

(** ** src/views/beerstrength.ts *)

Module BeerStrength.
Import Js.

Record AggregatedBar : Type := {
  key : string;
  label : string;
  total : Q;
  values : NumObject
}.

Definition CATEGORY_LABELS : list string :=
  ["Beer containing not more than 1.150% alcohol";
   "Beer containing between 1.151% and 2.500% alc";
   "Beer containing between 2.501% and 4.350% alc";
   "Beer containing between 4.351% and 5.000% alc";
   "Beer containing more than 5.00% alcohol"].

Definition GROUP_LABEL : string := "Litres of Beverage".

Definition keyForLabel (label : string) : string :=
  replaceNonAlnumRuns false (toLowerCase label).

Section Aggregate.
Variable host : Host.

(** [Number(text) + 9], printed. *)
Definition plusNine (text : string) : string :=
  match parseNumber text with
  | Finite n => numberToString host (n + 9)
  | Infinite false => "Infinity"
  | Infinite true => "-Infinity"
  | NotANumber => "NaN"
  end.

Definition barKey (byDecade : bool) (record : Csv.DataRecord) : string :=
  if byDecade then numberToString host (floor (Csv.year record / 10) * 10) ++ "s"
  else numberToString host (Csv.year record).

Definition barLabel (byDecade : bool) (groupKey : string) : string :=
  if byDecade then dropLastChar groupKey ++ "-" ++ plusNine (dropLastChar groupKey)
  else groupKey.

(** What the loop of [aggregateRecords] does with one record of the
    group. *)
Definition addRecord (byDecade : bool) (activeKeys : list string)
    (bars : list (string * AggregatedBar)) (record : Csv.DataRecord)
    : list (string * AggregatedBar) :=
  match Csv.value record with
  | None => bars
  | Some v =>
      if negb (includes (Csv.seriesLabel record) CATEGORY_LABELS) then bars
      else
        let categoryKey := keyForLabel (Csv.seriesLabel record) in
        if negb (includes categoryKey activeKeys) then bars
        else
          let groupKey := barKey byDecade record in
          let bars :=
            if mapHas String.eqb groupKey bars then bars
            else mapSet String.eqb groupKey
                   {| key := groupKey; label := barLabel byDecade groupKey; total := 0;
                      values := objFromKeys (map keyForLabel CATEGORY_LABELS) 0 |} bars in
          mapUpdate String.eqb groupKey
            (fun bar =>
               {| key := key bar; label := label bar; total := total bar + v;
                  values := objUpdate categoryKey (fun sum => sum + v) (values bar) |})
            bars
  end.

(** The bars before the share pass, ordered by key. *)
Definition orderedBars (records : list Csv.DataRecord) (byDecade : bool)
    (activeKeys : list string) : list AggregatedBar :=
  let filtered := filter (fun record => String.eqb (Csv.groupLabel record) GROUP_LABEL) records in
  sortBy (fun a b => localeCompare host (key a) (key b))
    (mapValues (fold_left (addRecord byDecade activeKeys) filtered [])).

(** The share pass on one bar: [bar.total || 1] is the divisor. *)
Definition toShare (bar : AggregatedBar) : AggregatedBar :=
  let divisor := if isZero (total bar) then 1 else total bar in
  {| key := key bar; label := label bar; total := 1;
     values := map (fun entry => (fst entry, snd entry / divisor)) (values bar) |}.

Definition aggregateRecords (records : list Csv.DataRecord) (byDecade share : bool)
    (activeKeys : list string) : list AggregatedBar :=
  let ordered := orderedBars records byDecade activeKeys in
  if share then map toShare ordered else ordered.

Definition exportRows (records : list Csv.DataRecord) (byDecade asShare : bool)
    (activeKeys : list string) : list Download.CsvRow :=
  map (fun bar =>
         fold_left
           (fun row categoryLabel =>
              let k := keyForLabel categoryLabel in
              if includes k activeKeys then
                match objGet k (values bar) with
                | Some v =>
                    Download.setField k
                      (Download.Num (toFixedNumber (if asShare then 4 else 3) v)) row
                | None => row
                end
              else row)
           CATEGORY_LABELS
           [("period", Download.Str (label bar));
            ("total", Download.Num (toFixedNumber (if asShare then 4 else 3) (total bar)))])
    (aggregateRecords records byDecade asShare activeKeys).

End Aggregate.
End BeerStrength.

(** ** A host to run the examples on *)

(** The built-ins of [Js.Host] for a host whose time zone is UTC and whose
    collation is by code unit.  Numbers are printed as JavaScript prints
    them when they are whole and below 10^21 in magnitude, or have a short
    decimal expansion; the examples need no more. *)
Module UtcHost.
Import Js.

Definition printZ (z : Z) : string := NilEmpty.string_of_int (Z.to_int z).

(** The digits of [num / den < 1] after the decimal point, at most [fuel]
    of them. *)
Fixpoint fractionDigits (fuel : nat) (num den : Z) : string :=
  match fuel with
  | O => ""
  | S fuel' =>
      if (num =? 0)%Z then ""
      else printZ (num * 10 / den) ++ fractionDigits fuel' (num * 10 mod den) den
  end.

Definition printNumber (x : Q) : string :=
  let den := Z.pos (Qden x) in
  let magnitude := Z.abs (Qnum x) in
  let whole := (magnitude / den)%Z in
  let rest := (magnitude mod den)%Z in
  (if (Qnum x <? 0)%Z then "-" else "") ++ printZ whole
  ++ (if (rest =? 0)%Z then "" else "." ++ fractionDigits 20 rest den).

Definition compareStrings (a b : string) : Q :=
  match String.compare a b with
  | Lt => -1
  | Eq => 0
  | Gt => 1
  end.

Definition msPerDay : Z := 86400000.

(** Days from 1970-01-01 to the given day of the proleptic Gregorian
    calendar; [m] from 1 to 12. *)
Definition daysFromCivil (y m d : Z) : Z :=
  let y := if (m <=? 2)%Z then (y - 1)%Z else y in
  let era := (y / 400)%Z in
  let yoe := (y - era * 400)%Z in
  let doy := ((153 * (if (2 <? m)%Z then m - 3 else m + 9) + 2) / 5 + d - 1)%Z in
  let doe := (yoe * 365 + yoe / 4 - yoe / 100 + doy)%Z in
  (era * 146097 + doe - 719468)%Z.

(** The year and the month (1 to 12) of a day count. *)
Definition civilFromDays (z : Z) : Z * Z * Z :=
  let z := (z + 719468)%Z in
  let era := (z / 146097)%Z in
  let doe := (z - era * 146097)%Z in
  let yoe := ((doe - doe / 1460 + doe / 36524 - doe / 146096) / 365)%Z in
  let doy := (doe - (365 * yoe + yoe / 4 - yoe / 100))%Z in
  let mp := ((5 * doy + 2) / 153)%Z in
  let d := (doy - (153 * mp + 2) / 5 + 1)%Z in
  let m := if (mp <? 10)%Z then (mp + 3)%Z else (mp - 9)%Z in
  (if (m <=? 2)%Z then (yoe + era * 400 + 1)%Z else (yoe + era * 400)%Z, m, d).

(** [new Date(year, monthIndex, 1)]: a year from 0 to 99 counts from
    1900, and a month index beyond 11 runs into the next years. *)
Definition makeDate (year monthIndex : Q) : Date :=
  let y := Qtrunc year in
  let y := if (0 <=? y)%Z && (y <=? 99)%Z then (y + 1900)%Z else y in
  let m := Qtrunc monthIndex in
  (daysFromCivil (y + m / 12) (m mod 12 + 1) 1 * msPerDay)%Z.

Definition pad (width : nat) (z : Z) : string :=
  let text := printZ z in
  String.concat "" (repeat "0" (width - String.length text)) ++ text.

Definition host : Host := {|
  numberToString := printNumber;
  localeCompare := compareStrings;
  localDate := makeDate;
  getFullYear := fun d => let '(y, _, _) := civilFromDays (d / msPerDay) in inject_Z y;
  getMonth := fun d => let '(_, m, _) := civilFromDays (d / msPerDay) in inject_Z (m - 1);
  isoDay := fun d =>
    let '(y, m, day) := civilFromDays (d / msPerDay) in
    pad 4 y ++ "-" ++ pad 2 m ++ "-" ++ pad 2 day
|}.

End UtcHost.

(** ** src/lib/csv.ts: the indexes of the model *)

Module CsvModel.
Import Js.

Record GroupMeta : Type := {
  key : string;
  label : string;
  units : list string
}.

Record SeriesMeta : Type := {
  seriesKey : string;
  seriesLabel : string;
  groupKey : string;
  groupLabel : string;
  seriesUnits : string
}.

(** [set.add(x)]: a set keeps its members in the order they came in. *)
Definition setAdd {A : Type} (eqb : A -> A -> bool) (x : A) (s : list A) : list A :=
  if existsb (eqb x) s then s else (s ++ [x])%list.

(** [if (!m.has(k)) m.set(k, []); m.get(k)?.push(record)]. *)
Definition pushInto (keyOf : Csv.DataRecord -> string)
    (m : list (string * list Csv.DataRecord)) (record : Csv.DataRecord)
    : list (string * list Csv.DataRecord) :=
  let m := if mapHas String.eqb (keyOf record) m then m
           else mapSet String.eqb (keyOf record) [] m in
  mapUpdate String.eqb (keyOf record) (fun bucket => (bucket ++ [record])%list) m.

Definition byGroup (records : list Csv.DataRecord) : list (string * list Csv.DataRecord) :=
  fold_left (pushInto Csv.groupKey) records [].

Definition bySeries (records : list Csv.DataRecord) : list (string * list Csv.DataRecord) :=
  fold_left (pushInto Csv.seriesKey) records [].

(** [groupUnits]: the units met in each group. *)
Definition addUnits (m : list (string * list string)) (record : Csv.DataRecord)
    : list (string * list string) :=
  let m := if mapHas String.eqb (Csv.groupKey record) m then m
           else mapSet String.eqb (Csv.groupKey record) [] m in
  mapUpdate String.eqb (Csv.groupKey record) (setAdd String.eqb (Csv.units record)) m.

Definition groupUnits (records : list Csv.DataRecord) : list (string * list string) :=
  fold_left addUnits records [].

(** [seriesMeta]: the first record of each series describes it. *)
Definition addSeries (m : list (string * SeriesMeta)) (record : Csv.DataRecord)
    : list (string * SeriesMeta) :=
  if mapHas String.eqb (Csv.seriesKey record) m then m
  else mapSet String.eqb (Csv.seriesKey record)
         {| seriesKey := Csv.seriesKey record; seriesLabel := Csv.seriesLabel record;
            groupKey := Csv.groupKey record; groupLabel := Csv.groupLabel record;
            seriesUnits := Csv.units record |} m.

Definition seriesMeta (records : list Csv.DataRecord) : list (string * SeriesMeta) :=
  fold_left addSeries records [].

(** The default order of [Array.prototype.sort] on strings: by code unit. *)
Definition compareCodeUnits (a b : string) : Q :=
  match String.compare a b with
  | Lt => -1
  | Eq => 0
  | Gt => 1
  end.

Definition groups (host : Host) (records : list Csv.DataRecord) : list GroupMeta :=
  sortBy (fun a b => localeCompare host (label a) (label b))
    (map (fun entry =>
            {| key := fst entry;
               label :=
                 match find (fun record => String.eqb (Csv.groupKey record) (fst entry)) records with
                 | Some record => Csv.groupLabel record
                 | None => fst entry
                 end;
               units := sortBy compareCodeUnits (snd entry) |})
       (groupUnits records)).

Definition series (host : Host) (records : list Csv.DataRecord) : list SeriesMeta :=
  sortBy (fun a b => localeCompare host (seriesLabel a) (seriesLabel b))
    (mapValues (seriesMeta records)).

(** [Array.from(new Set(...)).sort((a, b) => a - b)] over the years and
    over the months. *)
Definition distinctNumbers (numbers : list Q) : list Q :=
  fold_left (fun s x => setAdd Qeq_bool x s) numbers [].

Definition years (records : list Csv.DataRecord) : list Q :=
  sortBy (fun a b => a - b) (distinctNumbers (map Csv.year records)).

Definition months (records : list Csv.DataRecord) : list Q :=
  sortBy (fun a b => a - b) (distinctNumbers (map Csv.month records)).

End CsvModel.


(** ** src/views/seasonality.ts: the series of each group *)

Module SeriesLookup.
Import Js.

Record SeriesOption : Type := {
  key : string;
  label : string
}.

Definition keyForLabel (label : string) : string :=
  replaceNonAlnumRuns false (toLowerCase label).

(** What the first loop of [buildSeriesLookup] does with one record. *)
Definition addRecord (lookup : list (string * list (string * string)))
    (record : Csv.DataRecord) : list (string * list (string * string)) :=
  let lookup :=
    if mapHas String.eqb (Csv.groupLabel record) lookup then lookup
    else mapSet String.eqb (Csv.groupLabel record) [] lookup in
  if (0 <? String.length (trim (Csv.seriesLabel record)))%nat then
    mapUpdate String.eqb (Csv.groupLabel record)
      (fun inner =>
         mapSet String.eqb (Csv.seriesLabel record) (keyForLabel (Csv.seriesLabel record)) inner)
      lookup
  else lookup.

(** The options of one group: its labels, sorted, each with its key. *)
Definition optionsOf (host : Host) (inner : list (string * string)) : list SeriesOption :=
  map (fun label => {| key := keyForLabel label; label := label |})
    (sortBy (fun a b => localeCompare host a b) (mapKeys inner)).

Definition buildSeriesLookup (host : Host) (records : list Csv.DataRecord)
    : list (string * list SeriesOption) :=
  fold_left
    (fun result entry => mapSet String.eqb (fst entry) (optionsOf host (snd entry)) result)
    (fold_left addRecord records []) [].

End SeriesLookup.
(** ** The shape of a slug *)

Module SlugSpec.
Import Js.

(** Every code unit is in [[a-z0-9]] or is a hyphen. *)
Fixpoint slugChars (s : string) : Prop :=
  match s with
  | EmptyString => True
  | String c r => (isLowerAlnum c = true \/ c = hyphen) /\ slugChars r
  end.

(** No two hyphens are adjacent; with [afterHyphen] the string does not
    start with one either. *)
Fixpoint singleHyphens (afterHyphen : bool) (s : string) : Prop :=
  match s with
  | EmptyString => True
  | String c r =>
      if isHyphen c then afterHyphen = false /\ singleHyphens true r
      else singleHyphens false r
  end.

Definition startsWithHyphen (s : string) : bool :=
  match s with
  | EmptyString => false
  | String c _ => isHyphen c
  end.

Fixpoint endsWithHyphen (s : string) : bool :=
  match s with
  | EmptyString => false
  | String c EmptyString => isHyphen c
  | String _ r => endsWithHyphen r
  end.

Record slugForm (s : string) : Prop := {
  sf_chars : slugChars s;
  sf_single : singleHyphens false s;
  sf_lead : startsWithHyphen s = false;
  sf_trail : endsWithHyphen s = false
}.

End SlugSpec.

(** ** Moving averages, as the specification words them *)

Module SmoothingSpec.

(** The last [min w (i + 1)] points ending at index [i]. *)
Definition trailingWindow {A : Type} (w i : nat) (xs : list A) : list A :=
  skipn (i + 1 - Nat.min w (i + 1)) (firstn (i + 1) xs).

(** The values that are present. *)
Definition present (xs : list (option Q)) : list Q := SpiritsCheck.somes xs.

Definition mean (xs : list Q) : Q :=
  fold_right Qplus 0 xs / inject_Z (Z.of_nat (List.length xs)).

(** The smoothed value at an index, from the values of its trailing
    window and the value that was there. *)
Definition smoothedAs (window : list (option Q)) (original result : option Q) : Prop :=
  match present window with
  | [] => result = original /\ result = None
  | numbers => exists average, result = Some average /\ average == mean numbers
  end.

End SmoothingSpec.

(** ** Crossovers, as the specification words them *)

Module CrossoverSpec.
Import Js PerCapita.

(** Time-aligned series: all of one length. *)
Definition aligned (series : list SeriesData) : Prop :=
  exists n, Forall (fun s => List.length (values s) = n) series.

(** [seriesA] comes before [seriesB] in the list. *)
Definition pairOf (series : list SeriesData) (seriesA seriesB : SeriesData) : Prop :=
  exists i j, (i < j)%nat /\ nth_error series i = Some seriesA
              /\ nth_error series j = Some seriesB.

(** The consecutive samples [index - 1] and [index] of the two series,
    all four values present; the times are those of [seriesA]. *)
Definition samplesAt (seriesA seriesB : SeriesData) (index : nat)
    (t0 t1 : Date) (a0 a1 b0 b1 : Q) : Prop :=
  (1 <= index)%nat
  /\ nth_error (values seriesA) (index - 1) = Some {| date := t0; value := Some a0 |}
  /\ nth_error (values seriesA) index = Some {| date := t1; value := Some a1 |}
  /\ (exists d, nth_error (values seriesB) (index - 1) = Some {| date := d; value := Some b0 |})
  /\ (exists d, nth_error (values seriesB) index = Some {| date := d; value := Some b1 |}).



Definition crossover (seriesA seriesB : SeriesData) (time : Date) (v : Q) : CrossoverPoint :=
  {| crossDate := time; labelA := label seriesA; labelB := label seriesB; crossValue := v |}.

(** The series of the two examples of the specification, sampled at the
    given times. *)
Definition sampled (name : string) (samples : list (Z * Q)) : SeriesData :=
  {| key := name; label := name;
     values := map (fun s => {| date := fst s; value := Some (snd s) |}) samples |}.

End CrossoverSpec.

(** ** Series without absent values *)

Module PresenceSpec.
Import PerCapita.

Definition allPresent (series : SeriesData) : Prop :=
  Forall (fun point => value point <> None) (values series).

End PresenceSpec.

(** ** Rounded export, as the specification words it *)

Module RoundingSpec.
Import Js.

(** [r] is [x] rounded to [digits] decimal digits: a whole multiple of
    [10^-digits] no further from [x] than half of that unit. *)
Definition roundedTo (digits : nat) (x r : Q) : Prop :=
  (exists n : Z, r == inject_Z n / inject_Z (pow10 digits))
  /\ Qabs (r - x) <= (1 # 2) / inject_Z (pow10 digits).

(** A cell of an exported row holds the source value rounded to [digits]
    decimal digits, or [null] for an absent one. *)
Definition exportedAs (digits : nat) (source : option Q) (cell : option Download.Cell) : Prop :=
  match source, cell with
  | Some x, Some (Download.Num r) => roundedTo digits x r
  | None, Some Download.Null => True
  | _, _ => False
  end.

End RoundingSpec.

(** ** Buckets and their totals *)

Module ShareSpec.
Import Js.

(** The total of a year of the seasonality heatmap: the sum of the month
    sums [prepareCells] holds for it. *)
Definition yearTotal (records : list Csv.DataRecord) (groupLabel seriesLabel : string)
    (y : Q) : Q :=
  Seasonality.totalOf
    match mapGet Qeq_bool y (Seasonality.sumsByYear records groupLabel seriesLabel) with
    | Some inner => inner
    | None => []
    end.

(** No record reports a negative value. *)
Definition nonNegative (records : list Csv.DataRecord) : Prop :=
  forall record v, In record records -> Csv.value record = Some v -> 0 <= v.

(** The sum of the properties of an object. *)
Definition sumValues (o : NumObject) : Q :=
  fold_right (fun entry sum => snd entry + sum) 0 o.

(** A record of the given group and series in the first quarter of 2020. *)
Definition quarterOne (groupLabel seriesLabel : string) (v : option Q) : Csv.DataRecord :=
  {| Csv.period := "2020.03"; Csv.date := 1583020800000%Z; Csv.year := 2020; Csv.month := 3;
     Csv.value := v; Csv.units := "Litres";
     Csv.groupKey := Csv.slugify groupLabel; Csv.groupLabel := groupLabel;
     Csv.seriesKey := Csv.slugify seriesLabel; Csv.seriesLabel := seriesLabel |}.

End ShareSpec.

(** ** The end-to-end scenario *)

Module ScenarioSpec.
Import Js.

(** A raw row of the group "Litres of Beverage". *)
Definition quarterRow (seriesLabel period monthName dataValue : string) : Csv.RawRecord :=
  [("Period", period); ("Month", monthName); ("Group", "Litres of Beverage");
   ("Series_title_1", seriesLabel); ("Data_value", dataValue); ("UNITS", "Litres")].

(** The four quarters of 2020, with the values 10, 20, 30 and 40. *)
Definition yearRows (seriesLabel : string) : list Csv.RawRecord :=
  [quarterRow seriesLabel "2020.03" "Mar" "10"; quarterRow seriesLabel "2020.06" "Jun" "20";
   quarterRow seriesLabel "2020.09" "Sep" "30"; quarterRow seriesLabel "2020.12" "Dec" "40"].

(** A record of the beer-strength group that reports [v] for the series
    in the year [y]. *)
Definition reports (seriesLabel : string) (y v : Q) (record : Csv.DataRecord) : Prop :=
  Csv.groupLabel record = BeerStrength.GROUP_LABEL
  /\ Csv.seriesLabel record = seriesLabel
  /\ Csv.year record = y
  /\ Csv.value record = Some v.

(** The key of the decade of a year. *)
Definition decadeKey (host : Host) (y : Q) : string :=
  numberToString host (floor (y / 10) * 10) ++ "s".

End ScenarioSpec.

(** ** Orders of a comparator *)

Module SortSpec.

(** [x] may stand before [y] for the comparator [cmp]. *)
Definition before {A : Type} (cmp : A -> A -> Q) (x y : A) : Prop :=
  Qle_bool (cmp x y) 0 = true.

End SortSpec.

(** ** The dates a [Date] can hold *)

Module DateSpec.

(** A valid [Date] has a time value within 8.64e15 milliseconds of the
    epoch.  An Invalid Date has no time value: it is no member of
    [Js.Date], and comparing it gives [NaN]. *)
Definition valid (d : Js.Date) : bool :=
  (-8640000000000000 <=? d)%Z && (d <=? 8640000000000000)%Z.

(** The years all of whose days are within that range in every time
    zone, so that [new Date(year, month, 1)] is a valid date: -271820 to
    275759.  The upper end is lowered by one year, since the code reads the
    period as a double, which can round a numeral up to the next whole
    number. *)
Definition yearInRange (y : Q) : bool :=
  Qle_bool (-271820) y && Qle_bool y 275758.

End DateSpec.

(** ** The loader, as its users see it *)

Module LoaderSpec.
Import Js.

(** A record the loader keeps: its series label is not blank. *)
Definition hasSeriesLabel (record : Csv.DataRecord) : bool :=
  negb (String.eqb (trim (Csv.seriesLabel record)) "").

(** Not later than, on the dates of records. *)
Definition notLater (a b : Csv.DataRecord) : Prop := (Csv.date a <= Csv.date b)%Z.

(** The months a quarter can end in. *)
Definition quarterMonths : list Q := [3; 6; 9; 12].

(** The text of the first month column a row has, among "Unnamed: 1",
    the column without a name, "Month" and "Month_code"; empty when the
    row has none of them. *)
Definition monthText (row : Csv.RawRecord) : string :=
  match Csv.column "Unnamed: 1" row, Csv.column "" row, Csv.column "Month" row,
        Csv.column "Month_code" row with
  | Some text, _, _, _ => text
  | None, Some text, _, _ => text
  | None, None, Some text, _ => text
  | None, None, None, Some text => text
  | None, None, None, None => ""
  end.

(** The month a text stands for: 3, 6 or 9 when its first three
    characters, after trimming, are Mar, Jun or Sep, and 12 for Dec and for
    every other text, the empty one included. *)
Definition monthOf (text : string) : Q :=
  let token := takeChars 3 (trim text) in
  if String.eqb token "Mar" then 3
  else if String.eqb token "Jun" then 6
  else if String.eqb token "Sep" then 9
  else 12.

(** Four rows of the year 2020, out of order and one with a blank series
    label. *)
Definition exampleRows : list Csv.RawRecord :=
  [ScenarioSpec.quarterRow "Beer" "2020.09" "Sep" "30";
   ScenarioSpec.quarterRow "Beer" "2020.03" "Mar" "10";
   ScenarioSpec.quarterRow " " "2020.06" "Jun" "20";
   ScenarioSpec.quarterRow "Beer" "2020.12" "Dec" "40"].

End LoaderSpec.

(** ** Decimal numerals *)

Module NumeralSpec.

(** The character of a decimal digit. *)
Definition digitChar (d : nat) : ascii := ascii_of_nat (48 + d).

Fixpoint digitsText (ds : list nat) : string :=
  match ds with
  | [] => EmptyString
  | d :: r => String (digitChar d) (digitsText r)
  end.

(** The number a sequence of digits denotes, continuing from [acc]. *)
Fixpoint digitsValue (acc : Z) (ds : list nat) : Z :=
  match ds with
  | [] => acc
  | d :: r => digitsValue (acc * 10 + Z.of_nat d) r
  end.

Definition areDigits (ds : list nat) : Prop := Forall (fun d => (d < 10)%nat) ds.

Definition signText (negative : bool) : string := if negative then "-" else "".

Definition signed (negative : bool) (q : Q) : Q := if negative then - q else q.

(** The numeral [whole.fraction], with a minus sign on demand, and the
    number it denotes. *)
Definition decimalText (negative : bool) (whole fraction : list nat) : string :=
  signText negative ++ digitsText whole ++ "." ++ digitsText fraction.

Definition decimalValue (negative : bool) (whole fraction : list nat) : Q :=
  signed negative
    (inject_Z (digitsValue 0 (whole ++ fraction))
     / inject_Z (10 ^ Z.of_nat (List.length fraction))).

End NumeralSpec.

(** ** The indexes of the model *)

Module ModelSpec.
Import Js.

(** The records filed under [k] by [keyOf], in the order they come. *)
Definition filedUnder (keyOf : Csv.DataRecord -> string) (k : string)
    (records : list Csv.DataRecord) : list Csv.DataRecord :=
  filter (fun record => String.eqb (keyOf record) k) records.

(** The bucket a map of buckets should hold for [k]: none when no record
    is filed under it. *)
Definition bucketOf (keyOf : Csv.DataRecord -> string) (k : string)
    (records : list Csv.DataRecord) : option (list Csv.DataRecord) :=
  match filedUnder keyOf k records with
  | [] => None
  | bucket => Some bucket
  end.

(** The number of records in all buckets. *)
Definition filed (m : list (string * list Csv.DataRecord)) : nat :=
  list_sum (map (fun entry => List.length (snd entry)) m).

(** [x] occurs in [xs], as a number. *)
Definition occurs (x : Q) (xs : list Q) : Prop := exists y, In y xs /\ y == x.

End ModelSpec.

(** ** What the views select *)

Module SelectionSpec.
Import Js.

(** The points of the per-capita group with the given series label, in
    the order of the records. *)
Definition perCapitaPoints (label : string) (records : list Csv.DataRecord)
    : list PerCapita.SeriesPoint :=
  map (fun record => {| PerCapita.date := Csv.date record; PerCapita.value := Csv.value record |})
    (filter (fun record =>
               String.eqb (Csv.groupLabel record) PerCapita.GROUP_LABEL
               && String.eqb (Csv.seriesLabel record) label)
       records).

(** A record of the spirits unit check. *)
Definition isSpirits (record : Csv.DataRecord) : bool :=
  String.eqb (Csv.groupLabel record) SpiritsCheck.GROUP_LABEL
  && String.eqb (Csv.seriesLabel record) SpiritsCheck.SERIES_LABEL.

(** A record of the given group and series at the given date. *)
Definition recordAt (groupLabel seriesLabel period : string) (d : Js.Date) (v : Q)
    : Csv.DataRecord :=
  {| Csv.period := period; Csv.date := d; Csv.year := 2020; Csv.month := 3;
     Csv.value := Some v; Csv.units := "Litres";
     Csv.groupKey := Csv.slugify groupLabel; Csv.groupLabel := groupLabel;
     Csv.seriesKey := Csv.slugify seriesLabel; Csv.seriesLabel := seriesLabel |}.

(** Two records of each view, the later one first: June and March 2020. *)
Definition perHeadRecords : list Csv.DataRecord :=
  [recordAt PerCapita.GROUP_LABEL "Beer Per Head" "2020.06" 1590969600000%Z 2;
   recordAt PerCapita.GROUP_LABEL "Beer Per Head" "2020.03" 1583020800000%Z 1].

Definition spiritsRecords : list Csv.DataRecord :=
  [recordAt SpiritsCheck.GROUP_LABEL SpiritsCheck.SERIES_LABEL "2020.06" 1590969600000%Z 2;
   recordAt SpiritsCheck.GROUP_LABEL SpiritsCheck.SERIES_LABEL "2020.03" 1583020800000%Z 1].

Definition longRunRecords : list Csv.DataRecord :=
  [recordAt "Litres of Beverage" "Total wine" "2020.06" 1590969600000%Z 2;
   recordAt "Litres of Beverage" "Total beer" "2020.03" 1583020800000%Z 1].

End SelectionSpec.


(** ** The bars of the beer-strength view *)

Module BarSpec.
Import Js.

(** A record that [aggregateRecords] adds to a bar: of the beverage
    group, with a value, of one of the five strength categories, and of an
    active category. *)
Definition counted (activeKeys : list string) (record : Csv.DataRecord) : bool :=
  String.eqb (Csv.groupLabel record) BeerStrength.GROUP_LABEL
  && match Csv.value record with Some _ => true | None => false end
  && includes (Csv.seriesLabel record) BeerStrength.CATEGORY_LABELS
  && includes (BeerStrength.keyForLabel (Csv.seriesLabel record)) activeKeys.

(** The sum of the category values of a bar. *)
Definition categorySum (bar : BeerStrength.AggregatedBar) : Q :=
  ShareSpec.sumValues (BeerStrength.values bar).

End BarSpec.

(** ** The cells of the seasonality heatmap *)

Module HeatmapSpec.
Import Js.

(** The values that are present, in the order of the records. *)
Definition amounts (records : list Csv.DataRecord) : list Q :=
  flat_map (fun record => match Csv.value record with Some v => [v] | None => [] end) records.


Definition ofQuarter (groupLabel seriesLabel : string) (y m : Q)
    (records : list Csv.DataRecord) : list Csv.DataRecord :=
  filter (fun record =>
            Seasonality.selected groupLabel seriesLabel record
            && (Qeq_bool (Csv.year record) y && Qeq_bool (Csv.month record) m))
    records.

(** The sum of the given values, added from the left starting at 0;
    absent when there is no value. *)
Definition total (values : list Q) : Q := fold_left Qplus values 0.

Definition sumOrNull (values : list Q) : option Q :=
  match values with
  | [] => None
  | _ => Some (total values)
  end.

(** The years of the selected series that report a value. *)
Definition reported (groupLabel seriesLabel : string) (y : Q) (records : list Csv.DataRecord)
    : Prop :=
  exists record v,
    In record records /\ Seasonality.selected groupLabel seriesLabel record = true
    /\ Csv.value record = Some v /\ Csv.year record == y.

End HeatmapSpec.

(** ** The points of the long-run view *)

Module LongRunSpec.
Import Js.


Definition sum (values : list Q) : Q := fold_right Qplus 0 values.

End LongRunSpec.
(** * Properties *)

(** ** Slugs *)

Module SlugFacts.
Import Js Csv SlugSpec.

Lemma hyphen_not_alnum : isLowerAlnum hyphen = false.
Proof. reflexivity. Qed.

Lemma isHyphen_eq c : isHyphen c = true <-> c = hyphen.
Proof. unfold isHyphen. apply Ascii.eqb_eq. Qed.

Lemma alnum_not_hyphen c : isLowerAlnum c = true -> isHyphen c = false.
Proof.
  intros H. destruct (isHyphen c) eqn:E; [|reflexivity].
  apply isHyphen_eq in E. subst c. discriminate H.
Qed.

Lemma alnum_lower_fixed c : isLowerAlnum c = true -> toLowerChar c = c.
Proof.
  unfold toLowerChar, isUpper, isLowerAlnum.
  intros H. destruct ((65 <=? nat_of_ascii c)%nat && (nat_of_ascii c <=? 90)%nat) eqn:E;
    [|reflexivity].
  apply andb_true_iff in E. destruct E as [E1 E2].
  apply Nat.leb_le in E1, E2.
  apply orb_true_iff in H. destruct H as [H|H];
    apply andb_true_iff in H; destruct H as [H1 H2];
    apply Nat.leb_le in H1, H2; lia.
Qed.

Lemma hyphen_lower_fixed : toLowerChar hyphen = hyphen.
Proof. reflexivity. Qed.

(** *** What each pass of [slugify] establishes *)

Lemma replace_chars b s : slugChars (replaceNonAlnumRuns b s).
Proof.
  revert b. induction s as [|c r IH]; intros b; simpl; [exact I|].
  destruct (isLowerAlnum c) eqn:E.
  - simpl. split; [left; exact E | apply IH].
  - destruct b; [apply IH|]. simpl. split; [right; reflexivity | apply IH].
Qed.

Lemma replace_single b s : singleHyphens b (replaceNonAlnumRuns b s).
Proof.
  revert b. induction s as [|c r IH]; intros b; simpl; [exact I|].
  destruct (isLowerAlnum c) eqn:E.
  - simpl. rewrite (alnum_not_hyphen _ E). apply IH.
  - destruct b; [apply IH|]. simpl. split; [reflexivity | apply IH].
Qed.

Lemma single_weaken b s : singleHyphens b s -> singleHyphens false s.
Proof.
  destruct s as [|c r]; simpl; [trivial|].
  destruct (isHyphen c); [intros [_ H]; split; [reflexivity|exact H] | trivial].
Qed.

Lemma dropLeading_chars s : slugChars s -> slugChars (dropLeadingHyphens s).
Proof.
  induction s as [|c r IH]; simpl; [trivial|].
  intros [Hc Hr]. destruct (isHyphen c); [apply IH; exact Hr | split; assumption].
Qed.

Lemma dropLeading_single b s :
  singleHyphens b s -> singleHyphens false (dropLeadingHyphens s).
Proof.
  revert b. induction s as [|c r IH]; intros b; simpl; [trivial|].
  destruct (isHyphen c) eqn:E.
  - intros [_ H]. apply (IH true H).
  - intros H. simpl. rewrite E. exact H.
Qed.

Lemma dropLeading_lead s : startsWithHyphen (dropLeadingHyphens s) = false.
Proof.
  induction s as [|c r IH]; simpl; [reflexivity|].
  destruct (isHyphen c) eqn:E; [exact IH | simpl; exact E].
Qed.

Lemma dropTrailing_chars s : slugChars s -> slugChars (dropTrailingHyphens s).
Proof.
  induction s as [|c r IH]; simpl; [trivial|].
  intros [Hc Hr]. specialize (IH Hr).
  destruct (dropTrailingHyphens r) as [|c' r'].
  - destruct (isHyphen c); simpl; auto.
  - simpl. split; [exact Hc | exact IH].
Qed.

Lemma dropTrailing_single b s :
  singleHyphens b s -> singleHyphens b (dropTrailingHyphens s).
Proof.
  revert b. induction s as [|c r IH]; intros b; simpl; [trivial|].
  destruct (isHyphen c) eqn:E.
  - intros [Hb Hr]. specialize (IH true Hr).
    destruct (dropTrailingHyphens r) as [|c' r']; [exact I|].
    simpl. rewrite E. split; [exact Hb | exact IH].
  - intros Hr. specialize (IH false Hr).
    destruct (dropTrailingHyphens r) as [|c' r']; simpl; rewrite E; [exact I | exact IH].
Qed.

Lemma dropTrailing_lead s :
  startsWithHyphen s = false -> startsWithHyphen (dropTrailingHyphens s) = false.
Proof.
  destruct s as [|c r]; simpl; [trivial|].
  intros E. rewrite E. destruct (dropTrailingHyphens r); simpl; exact E.
Qed.

Lemma dropTrailing_trail s : endsWithHyphen (dropTrailingHyphens s) = false.
Proof.
  induction s as [|c r IH]; simpl; [reflexivity|].
  destruct (dropTrailingHyphens r) as [|c' r'] eqn:E.
  - destruct (isHyphen c) eqn:Ec; simpl; [reflexivity | exact Ec].
  - exact IH.
Qed.

Lemma slugSpec_form s : slugForm (slugSpec s).
Proof.
  unfold slugSpec, stripHyphens. constructor.
  - apply dropTrailing_chars, dropLeading_chars, replace_chars.
  - apply dropTrailing_single, (dropLeading_single false), replace_single.
  - apply dropTrailing_lead, dropLeading_lead.
  - apply dropTrailing_trail.
Qed.

(** *** Each pass is the identity on a string in slug form *)

Lemma collapse_fixed b s : singleHyphens b s -> collapseHyphens b s = s.
Proof.
  revert b. induction s as [|c r IH]; intros b; simpl; [trivial|].
  destruct (isHyphen c).
  - intros [-> Hr]. f_equal. apply IH, Hr.
  - intros Hr. f_equal. apply IH, Hr.
Qed.

Lemma lower_fixed s : slugChars s -> toLowerCase s = s.
Proof.
  induction s as [|c r IH]; simpl; [trivial|].
  intros [[Hc | ->] Hr]; f_equal; auto using alnum_lower_fixed, hyphen_lower_fixed.
Qed.

Lemma replace_fixed b s :
  slugChars s -> singleHyphens b s -> replaceNonAlnumRuns b s = s.
Proof.
  revert b. induction s as [|c r IH]; intros b; simpl; [trivial|].
  intros [[Hc | ->] Hr].
  - rewrite Hc, (alnum_not_hyphen _ Hc). intros Hs. f_equal. apply IH; assumption.
  - rewrite hyphen_not_alnum. simpl. intros [-> Hs]. f_equal. apply IH; assumption.
Qed.

Lemma dropLeading_fixed s : startsWithHyphen s = false -> dropLeadingHyphens s = s.
Proof. destruct s as [|c r]; simpl; [trivial|]. intros ->. reflexivity. Qed.

Lemma dropTrailing_fixed s : endsWithHyphen s = false -> dropTrailingHyphens s = s.
Proof.
  induction s as [|c r IH]; [reflexivity|].
  destruct r as [|c' r'].
  - simpl. intros ->. reflexivity.
  - intros H. change (endsWithHyphen (String c' r') = false) in H.
    change (dropTrailingHyphens (String c (String c' r')))
      with (match dropTrailingHyphens (String c' r') with
            | EmptyString => if isHyphen c then EmptyString else String c EmptyString
            | x => String c x
            end).
    rewrite (IH H). reflexivity.
Qed.

Lemma slugForm_fixed s : slugForm s -> slugify s = s.
Proof.
  intros [Hc Hs Hl Ht]. unfold slugify, stripHyphens.
  rewrite (lower_fixed _ Hc), (replace_fixed _ _ Hc Hs),
    (dropLeading_fixed _ Hl), (dropTrailing_fixed _ Ht).
  apply collapse_fixed, Hs.
Qed.

Lemma slugify_is_slugSpec s : slugify s = slugSpec s.
Proof.
  unfold slugify. fold (slugSpec s).
  apply collapse_fixed, (sf_single _ (slugSpec_form s)).
Qed.

End SlugFacts.

(** C8.  [slugify] returns the label lowercased, with every maximal run of
    characters outside [a-z0-9] collapsed to one hyphen and the leading and
    trailing hyphens removed (the last replacement of the source never
    fires), and applying it twice is the same as applying it once. *)
Theorem C8_slugify_spec_and_idempotent :
  forall label : string,
    Csv.slugify label = Csv.slugSpec label /\
    SlugSpec.slugForm (Csv.slugify label) /\
    Csv.slugify (Csv.slugify label) = Csv.slugify label.
Proof.
  intros label. split; [apply SlugFacts.slugify_is_slugSpec|].
  assert (F : SlugSpec.slugForm (Csv.slugify label)).
  { rewrite SlugFacts.slugify_is_slugSpec. apply SlugFacts.slugSpec_form. }
  split; [exact F | apply SlugFacts.slugForm_fixed, F].
Qed.

(** ** Moving-average smoothing *)

Module SmoothingFacts.
Import Js SmoothingSpec.

Lemma mapFrom_length {A B : Type} (f : A -> nat -> B) k xs :
  List.length (mapFrom f k xs) = List.length xs.
Proof. revert k. induction xs as [|x r IH]; intros k; simpl; [reflexivity | now rewrite IH]. Qed.

Lemma mapFrom_nth_error {A B : Type} (f : A -> nat -> B) xs : forall k i,
  nth_error (mapFrom f k xs) i = option_map (fun x => f x (k + i)%nat) (nth_error xs i).
Proof.
  induction xs as [|x r IH]; intros k i.
  - destruct i; reflexivity.
  - destruct i as [|i]; simpl.
    + now rewrite Nat.add_0_r.
    + rewrite IH. now rewrite Nat.add_succ_r.
Qed.

Lemma mapi_nth_error {A B : Type} (f : A -> nat -> B) xs i :
  nth_error (mapi f xs) i = option_map (fun x => f x i) (nth_error xs i).
Proof. unfold mapi. now rewrite mapFrom_nth_error. Qed.

(** Where the window of a whole window size starts. *)
Lemma whole_difference (a b : Z) :
  inject_Z a - inject_Z b + 1 = (a - b + 1)%Z # 1.
Proof.
  unfold Qminus, Qplus, Qopp, inject_Z. cbn [Qnum Qden Pos.mul].
  f_equal. lia.
Qed.

Lemma windowStart_whole (w i : nat) :
  (1 <= w)%nat ->
  Z.to_nat (Qtrunc (max0 (inject_Z (Z.of_nat i) - inject_Z (Z.of_nat w) + 1)))
  = (i + 1 - Nat.min w (i + 1))%nat.
Proof.
  intros Hw. rewrite whole_difference. unfold max0, Qle_bool. cbn [Qnum Qden].
  rewrite Z.mul_1_r, Z.mul_0_l.
  destruct (Z.leb_spec (Z.of_nat i - Z.of_nat w + 1) 0); unfold Qtrunc; cbn [Qnum Qden].
  - rewrite Z.quot_0_l by discriminate. lia.
  - rewrite Z.quot_1_r. lia.
Qed.

Lemma slice_trailing {A : Type} (w i : nat) (xs : list A) :
  slice (i + 1 - Nat.min w (i + 1)) (i + 1) xs = trailingWindow w i xs.
Proof.
  unfold slice, trailingWindow. now rewrite skipn_firstn_comm.
Qed.

Lemma large_window (w : nat) :
  (2 <= w)%nat -> Qle_bool (inject_Z (Z.of_nat w)) 1 = false.
Proof.
  intros Hw. unfold Qle_bool. cbn. destruct (Z.leb_spec (Z.of_nat w * 1) 1); [lia | reflexivity].
Qed.

Lemma fold_left_sum (xs : list Q) : forall a,
  fold_left (fun sum item => sum + item) xs a == a + fold_right Qplus 0 xs.
Proof.
  induction xs as [|x r IH]; intros a; simpl.
  - ring.
  - rewrite IH. ring.
Qed.

Lemma fold_left_valueOr0 (xs : list PerCapita.SeriesPoint) : forall a,
  fold_left (fun sum item => sum + PerCapita.valueOr0 item) xs a
  = fold_left (fun sum item => sum + item) (map PerCapita.valueOr0 xs) a.
Proof. induction xs as [|x r IH]; intros a; simpl; [reflexivity | apply IH]. Qed.

Lemma present_values (xs : list PerCapita.SeriesPoint) :
  map PerCapita.valueOr0 (filter PerCapita.isPresent xs) = present (map PerCapita.value xs).
Proof.
  induction xs as [|x r IH]; simpl; [reflexivity|].
  unfold PerCapita.isPresent at 1. destruct (PerCapita.value x) eqn:E; simpl.
  - unfold PerCapita.valueOr0 at 1. rewrite E. f_equal. exact IH.
  - exact IH.
Qed.

Lemma present_nil (xs : list (option Q)) x :
  present xs = [] -> In x xs -> x = None.
Proof.
  induction xs as [|y r IH]; simpl; [contradiction|].
  destruct y as [v|]; simpl; [discriminate|].
  intros E [<- | H]; [reflexivity | now apply IH].
Qed.

Lemma trailing_has_last {A : Type} (w i : nat) (xs : list A) x :
  (1 <= w)%nat -> nth_error xs i = Some x -> In x (trailingWindow w i xs).
Proof.
  intros Hw Hx. unfold trailingWindow.
  assert (Hi : (i < List.length xs)%nat) by (apply nth_error_Some; congruence).
  apply (nth_error_In _ (Nat.min w (i + 1) - 1)).
  rewrite nth_error_skipn, nth_error_firstn.
  replace (i + 1 - Nat.min w (i + 1) + (Nat.min w (i + 1) - 1))%nat with i by lia.
  destruct (Nat.ltb_spec i (i + 1)); [exact Hx | lia].
Qed.

End SmoothingFacts.

Module SmoothingProofs.
Import Js SmoothingSpec SmoothingFacts.

Lemma smoothSeries_at (w i : nat) (values : list (option Q)) original :
  (2 <= w)%nat -> nth_error values i = Some original ->
  exists result,
    nth_error (SpiritsCheck.smoothSeries values (inject_Z (Z.of_nat w))) i = Some result
    /\ smoothedAs (trailingWindow w i values) original result.
Proof.
  intros Hw Hi. unfold SpiritsCheck.smoothSeries.
  rewrite (large_window w Hw), mapi_nth_error, Hi. cbn [option_map].
  rewrite windowStart_whole by lia. rewrite slice_trailing.
  eexists. split; [reflexivity|].
  unfold smoothedAs, present.
  destruct (SpiritsCheck.somes (trailingWindow w i values)) as [|v vs] eqn:E.
  - split; [reflexivity|].
    apply (present_nil (trailingWindow w i values)); [exact E|].
    apply trailing_has_last; [lia | exact Hi].
  - eexists. split; [reflexivity|]. unfold mean.
    rewrite fold_left_sum, Qplus_0_l. reflexivity.
Qed.

Lemma trailing_map {A B : Type} (f : A -> B) w i xs :
  trailingWindow w i (map f xs) = map f (trailingWindow w i xs).
Proof. unfold trailingWindow. now rewrite firstn_map, skipn_map. Qed.

Lemma mean_of_points (window : list PerCapita.SeriesPoint) :
  fold_left (fun sum item => sum + PerCapita.valueOr0 item) window 0
  / inject_Z (Z.of_nat (List.length window))
  == mean (map PerCapita.valueOr0 window).
Proof.
  unfold mean. rewrite fold_left_valueOr0, fold_left_sum, Qplus_0_l, length_map. reflexivity.
Qed.

Lemma smoothValues_at (w i : nat) (values : list PerCapita.SeriesPoint) point :
  (2 <= w)%nat -> nth_error values i = Some point ->
  exists smoothed,
    nth_error (PerCapita.smoothValues values (inject_Z (Z.of_nat w))) i = Some smoothed
    /\ PerCapita.date smoothed = PerCapita.date point
    /\ smoothedAs (trailingWindow w i (map PerCapita.value values))
         (PerCapita.value point) (PerCapita.value smoothed).
Proof.
  intros Hw Hi. unfold PerCapita.smoothValues.
  rewrite (large_window w Hw), mapi_nth_error, Hi. cbn [option_map].
  rewrite windowStart_whole by lia. rewrite slice_trailing.
  eexists. split; [reflexivity|].
  unfold smoothedAs. rewrite trailing_map, <- present_values.
  destruct (filter PerCapita.isPresent (trailingWindow w i values)) as [|v vs] eqn:E.
  - cbn [map]. split; [reflexivity|]. split; [reflexivity|].
    apply (present_nil (map PerCapita.value (trailingWindow w i values))).
    + now rewrite <- present_values, E.
    + apply in_map, trailing_has_last; [lia | exact Hi].
  - split; [reflexivity|]. cbn [PerCapita.value map].
    eexists. split; [reflexivity|].
    change (PerCapita.valueOr0 v :: map PerCapita.valueOr0 vs)
      with (map PerCapita.valueOr0 (v :: vs)).
    apply mean_of_points.
Qed.

End SmoothingProofs.

(** C6.  For a whole window size [w >= 2], the smoothed value at index [i]
    (of [smoothSeries] and of [smoothValues] alike) is the arithmetic mean
    of the values present among the last [min w (i + 1)] points ending at
    [i]; when none of them is present it is the original value at [i],
    which is absent, and not zero. *)
Theorem C6_smoothing_is_trailing_mean :
  forall w i : nat, (2 <= w)%nat ->
    (forall (values : list (option Q)) (original : option Q),
        nth_error values i = Some original ->
        exists result,
          nth_error (SpiritsCheck.smoothSeries values (inject_Z (Z.of_nat w))) i = Some result
          /\ SmoothingSpec.smoothedAs (SmoothingSpec.trailingWindow w i values) original result)
    /\
    (forall (values : list PerCapita.SeriesPoint) (point : PerCapita.SeriesPoint),
        nth_error values i = Some point ->
        exists smoothed,
          nth_error (PerCapita.smoothValues values (inject_Z (Z.of_nat w))) i = Some smoothed
          /\ SmoothingSpec.smoothedAs
               (SmoothingSpec.trailingWindow w i (map PerCapita.value values))
               (PerCapita.value point) (PerCapita.value smoothed)).
Proof.
  intros w i Hw. split.
  - intros values original Hi. exact (SmoothingProofs.smoothSeries_at w i values original Hw Hi).
  - intros values point Hi.
    destruct (SmoothingProofs.smoothValues_at w i values point Hw Hi) as (s & E & _ & H).
    exists s. split; assumption.
Qed.

(** The third and fourth ratios of a series smoothed over four periods. *)
Lemma C6_witness :
  (exists result,
      nth_error (SpiritsCheck.smoothSeries [Some 1; None; Some 3; None] (inject_Z (Z.of_nat 4))) 2
      = Some result
      /\ SmoothingSpec.smoothedAs
           (SmoothingSpec.trailingWindow 4 2 [Some 1; None; Some 3; None]) (Some 3) result)
  /\ (2 <= 4)%nat.
Proof.
  split.
  - apply (proj1 (C6_smoothing_is_trailing_mean 4 2 ltac:(lia))). reflexivity.
  - lia.
Defined.

Module SmoothingFrame.
Import Js SmoothingFacts.

Lemma mapFrom_dates (f : PerCapita.SeriesPoint -> nat -> PerCapita.SeriesPoint) xs :
  (forall point index, PerCapita.date (f point index) = PerCapita.date point) ->
  forall k, map PerCapita.date (mapFrom f k xs) = map PerCapita.date xs.
Proof.
  intros Hf. induction xs as [|x r IH]; intros k; simpl; [reflexivity|].
  now rewrite Hf, IH.
Qed.

End SmoothingFrame.

(** C10.  Whatever the series and the window size, [smoothValues] returns
    as many points as it was given, the point at each index carrying the
    date of the input point at that index; [smoothSeries], which smooths
    bare values, returns as many values as it was given. *)
Theorem C10_smoothing_keeps_length_and_dates :
  forall (points : list PerCapita.SeriesPoint) (values : list (option Q)) (windowSize : Q),
    List.length (PerCapita.smoothValues points windowSize) = List.length points
    /\ map PerCapita.date (PerCapita.smoothValues points windowSize) = map PerCapita.date points
    /\ List.length (SpiritsCheck.smoothSeries values windowSize) = List.length values.
Proof.
  intros points values windowSize.
  assert (D : map PerCapita.date (PerCapita.smoothValues points windowSize)
              = map PerCapita.date points).
  { unfold PerCapita.smoothValues. destruct (Qle_bool windowSize 1); [reflexivity|].
    apply SmoothingFrame.mapFrom_dates. intros point index.
    destruct (filter _ _); reflexivity. }
  split; [|split].
  - rewrite <- (length_map PerCapita.date), D. apply length_map.
  - exact D.
  - unfold SpiritsCheck.smoothSeries. destruct (Qle_bool windowSize 1); [reflexivity|].
    apply SmoothingFacts.mapFrom_length.
Qed.

(** ** The crossover detector *)

Module CrossoverFacts.
Import Js PerCapita CrossoverSpec.

(** *** The loops return when no step throws *)

Lemma forEachPush_total {A : Type} (body : A -> option (list CrossoverPoint)) items :
  (forall x, In x items -> body x <> None) ->
  forall crossings, exists found,
    forEachPush body items crossings = Some (crossings ++ found)%list
    /\ forall x l c, In x items -> body x = Some l -> In c l -> In c found.
Proof.
  induction items as [|x r IH]; intros Hall crossings.
  - exists []. split; [simpl; now rewrite app_nil_r | intros ? ? ? []].
  - simpl. destruct (body x) as [l|] eqn:E.
    + destruct (IH (fun y Hy => Hall y (or_intror Hy)) (crossings ++ l)%list) as (found & Ef & Hin).
      exists (l ++ found)%list. split; [now rewrite Ef, app_assoc|].
      intros y l' c [<- | Hy] El Hc.
      * rewrite E in El. injection El as <-. apply in_or_app. now left.
      * apply in_or_app. right. exact (Hin y l' c Hy El Hc).
    + exfalso. apply (Hall x); [now left | exact E].
Qed.

Lemma crossingsAt_total seriesA seriesB index :
  (1 <= index < List.length (values seriesA))%nat ->
  (List.length (values seriesA) <= List.length (values seriesB))%nat ->
  crossingsAt seriesA seriesB index <> None.
Proof.
  intros Hi Hlen. unfold crossingsAt.
  destruct (nth_error (values seriesA) (index - 1)) as [prevA|]; [|discriminate].
  destruct (nth_error (values seriesA) index) as [currA|]; [|discriminate].
  destruct (value prevA); [|discriminate]. destruct (value currA); [|discriminate].
  destruct (nth_error (values seriesB) (index - 1)) as [prevB|] eqn:E1.
  2:{ apply nth_error_None in E1. lia. }
  destruct (value prevB); [|discriminate].
  destruct (nth_error (values seriesB) index) as [currB|] eqn:E2.
  2:{ apply nth_error_None in E2. lia. }
  destruct (value currB); discriminate.
Qed.

Lemma scanPair_total seriesA seriesB :
  (List.length (values seriesA) <= List.length (values seriesB))%nat ->
  exists found,
    scanPair seriesA seriesB = Some found
    /\ forall index l c,
         (1 <= index < List.length (values seriesA))%nat ->
         crossingsAt seriesA seriesB index = Some l -> In c l -> In c found.
Proof.
  intros Hlen. unfold scanPair.
  destruct (forEachPush_total (crossingsAt seriesA seriesB)
              (seq 1 (List.length (values seriesA) - 1))) with (crossings := @nil CrossoverPoint)
    as (found & E & Hin).
  - intros index Hi. apply in_seq in Hi. apply crossingsAt_total; [lia | exact Hlen].
  - exists found. split; [exact E|].
    intros index l c Hi. apply Hin. apply in_seq. lia.
Qed.

Lemma scanAll_total n series :
  Forall (fun s => List.length (values s) = n) series ->
  forall crossings, exists found,
    scanAll series crossings = Some (crossings ++ found)%list
    /\ forall seriesA seriesB index l c,
         pairOf series seriesA seriesB ->
         (1 <= index < List.length (values seriesA))%nat ->
         crossingsAt seriesA seriesB index = Some l -> In c l -> In c found.
Proof.
  induction 1 as [|s later Hs Hlater IH]; intros crossings.
  - exists []. split; [simpl; now rewrite app_nil_r|].
    intros A B index l c (i & j & _ & Hi & _). destruct i; discriminate.
  - simpl.
    destruct (forEachPush_total (scanPair s) later) with (crossings := crossings)
      as (here & Ehere & Hhere).
    { intros B HB. rewrite Forall_forall in Hlater.
      destruct (scanPair_total s B) as (f & Ef & _); [rewrite Hs, (Hlater B HB); lia|].
      congruence. }
    rewrite Ehere.
    destruct (IH (crossings ++ here)%list) as (there & Ethere & Hthere).
    exists (here ++ there)%list. split; [now rewrite Ethere, app_assoc|].
    intros A B index l c (i & j & Hij & Hi & Hj) Hindex El Hc.
    apply in_or_app. destruct i as [|i].
    + left. injection Hi as <-. destruct j as [|j]; [lia|]. simpl in Hj.
      assert (HB : In B later) by (eapply nth_error_In; exact Hj).
      rewrite Forall_forall in Hlater.
      destruct (scanPair_total s B) as (f & Ef & Hf); [rewrite Hs, (Hlater B HB); lia|].
      apply (Hhere B f c HB Ef). exact (Hf index l c Hindex El Hc).
    + right. destruct j as [|j]; [lia|]. simpl in Hi, Hj.
      apply (Hthere A B index l c); [|assumption..].
      exists i, j. repeat split; [lia | assumption | assumption].
Qed.

(** On time-aligned series the detector returns, and reports whatever a
    step of a pair pushes. *)
Lemma findCrossovers_reports series seriesA seriesB index l c :
  aligned series -> pairOf series seriesA seriesB ->
  (1 <= index < List.length (values seriesA))%nat ->
  crossingsAt seriesA seriesB index = Some l -> In c l ->
  exists found, findCrossovers series = Some found /\ In c found.
Proof.
  intros [n Hn] Hpair Hindex El Hc. unfold findCrossovers.
  destruct (scanAll_total n series Hn []) as (found & E & Hin).
  exists found. split; [exact E|]. exact (Hin seriesA seriesB index l c Hpair Hindex El Hc).
Qed.

(** *** One step on four present values *)

Lemma crossingsAt_samples seriesA seriesB index t0 t1 a0 a1 b0 b1 :
  samplesAt seriesA seriesB index t0 t1 a0 a1 b0 b1 ->
  crossingsAt seriesA seriesB index
  = Some (crossingsBetween seriesA seriesB t0 t1 a0 a1 b0 b1)
  /\ (1 <= index < List.length (values seriesA))%nat.
Proof.
  intros (Hi & EA0 & EA1 & [d0 EB0] & [d1 EB1]). split.
  - unfold crossingsAt. rewrite EA0, EA1, EB0, EB1. reflexivity.
  - split; [exact Hi|]. apply nth_error_Some. congruence.
Qed.

Lemma crossingsBetween_equal seriesA seriesB t0 t1 a0 a1 b0 b1 :
  a0 - b0 == 0 ->
  crossingsBetween seriesA seriesB t0 t1 a0 a1 b0 b1 = [crossover seriesA seriesB t0 a0].
Proof.
  intros H. unfold crossingsBetween, isZero.
  apply Qeq_bool_iff in H. now rewrite H.
Qed.

Lemma isNegative_iff x : isNegative x = true <-> x < 0.
Proof.
  unfold isNegative. rewrite negb_true_iff. split; intros H.
  - apply Qnot_le_lt. intros Hle. apply Qle_bool_iff in Hle. congruence.
  - destruct (Qle_bool 0 x) eqn:E; [|reflexivity].
    apply Qle_bool_iff in E. exfalso. apply (Qlt_not_le _ _ H E).
Qed.


(** *** The weight of an interpolation *)






(** *** Clipping a time to whole milliseconds *)






End CrossoverFacts.

Module CrossoverExamples.
Import Js PerCapita CrossoverSpec.

(** [1,2,3] against [3,2,1] at the times 0, 1, 2. *)
Definition meeting : list SeriesData :=
  [sampled "A" [(0%Z, 1); (1%Z, 2); (2%Z, 3)]; sampled "B" [(0%Z, 3); (1%Z, 2); (2%Z, 1)]].


Lemma aligned_pair n sa sb :
  List.length (values sa) = n -> List.length (values sb) = n -> aligned [sa; sb].
Proof. intros Ha Hb. exists n. repeat constructor; assumption. Qed.

Lemma pairOf_pair sa sb : pairOf [sa; sb] sa sb.
Proof. exists 0%nat, 1%nat. repeat split. lia. Qed.

End CrossoverExamples.

(** C4.  On time-aligned series, a consecutive sample pair of two series
    whose four values are present and whose earlier difference is zero
    makes the detector push exactly one crossover for that step, at the
    earlier time and with the earlier value of the first series; the
    detector returns and reports it.  On [1,2,3] against [3,2,1] at the
    times 0, 1, 2 the report is the single crossover at time 1 with
    value 2. *)
Theorem C4_equal_samples_cross :
  (forall series seriesA seriesB index t0 t1 a0 a1 b0 b1,
      CrossoverSpec.aligned series ->
      CrossoverSpec.pairOf series seriesA seriesB ->
      CrossoverSpec.samplesAt seriesA seriesB index t0 t1 a0 a1 b0 b1 ->
      a0 - b0 == 0 ->
      PerCapita.crossingsAt seriesA seriesB index
      = Some [CrossoverSpec.crossover seriesA seriesB t0 a0]
      /\ exists found,
           PerCapita.findCrossovers series = Some found
           /\ In (CrossoverSpec.crossover seriesA seriesB t0 a0) found)
  /\ PerCapita.findCrossovers CrossoverExamples.meeting
     = Some [ {| PerCapita.crossDate := 1%Z; PerCapita.labelA := "A";
                 PerCapita.labelB := "B"; PerCapita.crossValue := 2 |} ].
Proof.
  split; [|reflexivity].
  intros series seriesA seriesB index t0 t1 a0 a1 b0 b1 Hal Hpair Hs Heq.
  destruct (CrossoverFacts.crossingsAt_samples _ _ _ _ _ _ _ _ _ Hs) as [E Hindex].
  rewrite (CrossoverFacts.crossingsBetween_equal _ _ t0 t1 a0 a1 b0 b1 Heq) in E.
  split; [exact E|].
  apply (CrossoverFacts.findCrossovers_reports series seriesA seriesB index _ _ Hal Hpair Hindex E).
  now left.
Qed.

(** The coincidence of the example, found by the general statement. *)
Lemma C4_witness :
  exists found,
    PerCapita.findCrossovers CrossoverExamples.meeting = Some found
    /\ In (CrossoverSpec.crossover
             (CrossoverSpec.sampled "A" [(0%Z, 1); (1%Z, 2); (2%Z, 3)])
             (CrossoverSpec.sampled "B" [(0%Z, 3); (1%Z, 2); (2%Z, 1)]) 1%Z 2) found.
Proof.
  refine (proj2 (proj1 C4_equal_samples_cross CrossoverExamples.meeting _ _ 2%nat
                   1%Z 2%Z 2 3 2 1 _ _ _ _)).
  - apply (CrossoverExamples.aligned_pair 3); reflexivity.
  - apply CrossoverExamples.pairOf_pair.
  - repeat split; [lia | exists 1%Z; reflexivity | exists 2%Z; reflexivity].
  - reflexivity.
Defined.







(** ** The litres/proof ratio *)

(** C7.  For every point [preparePoints] returns, the ratio is absent
    whenever the litres value is absent, the proof value is absent, or the
    proof value is zero, and is the litres value divided by the proof
    value otherwise.  [preparePoints] is a total function: no input makes
    it fail. *)
Theorem C7_ratio_absent_or_quotient :
  forall records : list Csv.DataRecord,
    Forall (fun point =>
              match SpiritsCheck.litres point, SpiritsCheck.proof point with
              | Some l, Some p =>
                  (p == 0 /\ SpiritsCheck.ratio point = None)
                  \/ (~ p == 0 /\ SpiritsCheck.ratio point = Some (l / p))
              | _, _ => SpiritsCheck.ratio point = None
              end)
      (SpiritsCheck.preparePoints records).
Proof.
  intros records. unfold SpiritsCheck.preparePoints.
  apply Forall_map, Forall_forall. intros point _.
  unfold SpiritsCheck.withRatio. cbn [SpiritsCheck.litres SpiritsCheck.proof SpiritsCheck.ratio].
  destruct (SpiritsCheck.litres point) as [l|]; [|reflexivity].
  destruct (SpiritsCheck.proof point) as [p|]; [|reflexivity].
  unfold Js.isZero. destruct (Qeq_bool p 0) eqn:E.
  - left. split; [apply Qeq_bool_iff, E | reflexivity].
  - right. split; [|reflexivity]. intros H. apply Qeq_bool_iff in H. congruence.
Qed.

(** ** Rounding for export *)

Module RoundingFacts.
Import Js RoundingSpec.

Lemma pow10_pos digits : 0 < inject_Z (pow10 digits).
Proof.
  unfold pow10. change 0 with (inject_Z 0). rewrite <- Zlt_Qlt.
  apply Z.pow_pos_nonneg; lia.
Qed.

Lemma roundNonNeg_rounded digits x : roundedTo digits x (roundNonNeg digits x).
Proof.
  unfold roundedTo, roundNonNeg. set (P := inject_Z (pow10 digits)).
  pose proof (pow10_pos digits) as HP. fold P in HP.
  set (n := Qfloor (x * P + (1 # 2))).
  pose proof (Qfloor_le (x * P + (1 # 2))) as F1.
  pose proof (Qlt_floor (x * P + (1 # 2))) as F2.
  fold n in F1, F2. rewrite inject_Z_plus in F2. change (inject_Z 1) with 1 in F2.
  split; [exists n; reflexivity|].
  assert (E : inject_Z n / P - x == (inject_Z n - x * P) / P) by (field; lra).
  rewrite E. apply Qabs_Qle_condition. split.
  - apply Qle_shift_div_l; [exact HP|].
    assert (E2 : - ((1 # 2) / P) * P == - (1 # 2)) by (field; lra).
    rewrite E2. lra.
  - apply Qle_shift_div_r; [exact HP|].
    assert (E2 : (1 # 2) / P * P == 1 # 2) by (field; lra).
    rewrite E2. lra.
Qed.

Lemma toFixedNumber_rounded digits x : roundedTo digits x (toFixedNumber digits x).
Proof.
  unfold toFixedNumber. destruct (Qle_bool 0 x); [apply roundNonNeg_rounded|].
  destruct (roundNonNeg_rounded digits (- x)) as [[n Hn] Hd].
  split.
  - exists (- n)%Z. rewrite Hn, inject_Z_opp. field.
    pose proof (pow10_pos digits). lra.
  - assert (E : - roundNonNeg digits (- x) - x == - (roundNonNeg digits (- x) - - x)) by ring.
    rewrite E, Qabs_opp. exact Hd.
Qed.

Lemma fixedOrNull_exported digits source :
  exportedAs digits source (Some (Download.fixedOrNull digits source)).
Proof.
  destruct source as [x|]; simpl; [apply toFixedNumber_rounded | exact I].
Qed.

End RoundingFacts.

(** ** Maps keyed by strings *)

Module MapFacts.
Import Js.

Section StringKeys.
Context {V : Type}.

Lemma get_set_same (k : string) (v : V) m :
  mapGet String.eqb k (mapSet String.eqb k v m) = Some v.
Proof.
  induction m as [|[k' v'] r IH]; simpl.
  - now rewrite String.eqb_refl.
  - destruct (String.eqb k' k) eqn:E; simpl; rewrite E; [reflexivity | exact IH].
Qed.

Lemma get_set_other (k1 k : string) (v : V) m :
  k1 <> k -> mapGet String.eqb k (mapSet String.eqb k1 v m) = mapGet String.eqb k m.
Proof.
  intros Hne. apply String.eqb_neq in Hne.
  induction m as [|[k' v'] r IH]; simpl.
  - now rewrite Hne.
  - destruct (String.eqb k' k1) eqn:E; simpl.
    + apply String.eqb_eq in E. subst k'. now rewrite Hne.
    + destruct (String.eqb k' k); [reflexivity | exact IH].
Qed.

(** A loop that sets, for some of the items, a key of its own. *)
Lemma fold_set_keep {A : Type} (keyOf : A -> string) (valueOf : A -> V) (sets : A -> bool)
    (step : list (string * V) -> A -> list (string * V)) :
  (forall m item,
      step m item = if sets item then mapSet String.eqb (keyOf item) (valueOf item) m else m) ->
  forall items k, ~ In k (map keyOf items) ->
  forall m, mapGet String.eqb k (fold_left step items m) = mapGet String.eqb k m.
Proof.
  intros Hstep. induction items as [|x r IH]; intros k Hk m; simpl; [reflexivity|].
  rewrite IH by (intros H; apply Hk; now right).
  rewrite Hstep. destruct (sets x); [|reflexivity].
  apply get_set_other. intros E. apply Hk. now left.
Qed.

Lemma fold_set_get {A : Type} (keyOf : A -> string) (valueOf : A -> V) (sets : A -> bool)
    (step : list (string * V) -> A -> list (string * V)) :
  (forall m item,
      step m item = if sets item then mapSet String.eqb (keyOf item) (valueOf item) m else m) ->
  forall items item,
    NoDup (map keyOf items) -> In item items -> sets item = true ->
    forall m, mapGet String.eqb (keyOf item) (fold_left step items m) = Some (valueOf item).
Proof.
  intros Hstep. induction items as [|x r IH]; intros item Hnd Hin Hsets m; [contradiction|].
  inversion Hnd as [|? ? Hx Hr]; subst. simpl. destruct Hin as [<- | Hin].
  - rewrite (fold_set_keep keyOf valueOf sets step Hstep) by exact Hx.
    rewrite Hstep, Hsets. apply get_set_same.
  - apply IH; assumption.
Qed.

End StringKeys.

Lemma sortBy_In {A : Type} (cmp : A -> A -> Q) (xs : list A) x :
  In x (sortBy cmp xs) <-> In x xs.
Proof.
  assert (Ins : forall y l, In x (insertBy cmp y l) <-> x = y \/ In x l).
  { intros y l. induction l as [|z r IH]; simpl.
    - intuition.
    - destruct (Qle_bool (cmp y z) 0); simpl; [intuition | rewrite IH; intuition]. }
  induction xs as [|y r IH]; simpl; [reflexivity|].
  rewrite Ins, IH. intuition.
Qed.

End MapFacts.

(** ** The export projectors *)

Module ExportFacts.
Import Js RoundingSpec RoundingFacts MapFacts.

Lemma distinct_strings (keys : list string) :
  (fix distinct (l : list string) : bool :=
     match l with
     | [] => true
     | k :: r => negb (includes k r) && distinct r
     end) keys = true ->
  NoDup keys.
Proof.
  induction keys as [|k r IH]; intros H; [constructor|].
  apply andb_true_iff in H. destruct H as [Hk Hr]. constructor; [|apply IH, Hr].
  intros Hin. apply negb_true_iff in Hk. unfold includes in Hk.
  assert (E : existsb (String.eqb k) r = true)
    by (apply existsb_exists; exists k; split; [exact Hin | apply String.eqb_refl]).
  congruence.
Qed.

Lemma spirits_row host points i point :
  nth_error points i = Some point ->
  exists row,
    nth_error (SpiritsCheck.exportRows host points) i = Some row
    /\ exportedAs 3 (SpiritsCheck.litres point) (Download.field "litres" row)
    /\ exportedAs 3 (SpiritsCheck.proof point) (Download.field "proof" row)
    /\ exportedAs 3 (SpiritsCheck.ratio point) (Download.field "ratio" row).
Proof.
  intros Hi. unfold SpiritsCheck.exportRows. rewrite nth_error_map, Hi.
  eexists. split; [reflexivity|].
  repeat split; apply fixedOrNull_exported.
Qed.

Lemma seasonality_row cells normalize i cell :
  nth_error cells i = Some cell ->
  exists row,
    nth_error (Seasonality.exportRows cells normalize) i = Some row
    /\ exportedAs (if normalize then 4 else 3) (Seasonality.value cell)
         (Download.field "value" row).
Proof.
  intros Hi. unfold Seasonality.exportRows. rewrite nth_error_map, Hi.
  eexists. split; [reflexivity|]. apply fixedOrNull_exported.
Qed.

Lemma longrun_row host records group activeKeys i point :
  nth_error (LongRun.buildPoints host (LongRun.collectGroupData records group)) i = Some point ->
  exists row,
    nth_error (LongRun.createExportRows host records group activeKeys) i = Some row
    /\ exportedAs 3 (Some (LongRun.total point)) (Download.field "total_litres" row)
    /\ forall label share,
         In label LongRun.SERIES_LABELS ->
         includes (LongRun.keyForLabel label) activeKeys = true ->
         objGet (LongRun.keyForLabel label) (LongRun.shares point) = Some share ->
         exportedAs 4 (Some share)
           (Download.field (LongRun.keyForLabel label ++ "_share") row).
Proof.
  intros Hi. unfold LongRun.createExportRows. rewrite nth_error_map, Hi.
  eexists. split; [reflexivity|].
  set (step := fun (row : Download.CsvRow) (label : string) => _).
  assert (Hstep : forall m item,
             step m item
             = if includes (LongRun.keyForLabel item) activeKeys
               then mapSet String.eqb (LongRun.keyForLabel item ++ "_share")
                      (Download.Num
                         (toFixedNumber 4
                            match objGet (LongRun.keyForLabel item) (LongRun.shares point) with
                            | Some v => v
                            | None => 0
                            end)) m
               else m) by reflexivity.
  split.
  - unfold Download.field.
    rewrite (fold_set_keep _ _ _ step Hstep).
    + simpl. apply toFixedNumber_rounded.
    + vm_compute. intuition discriminate.
  - intros label share Hin Hact Hshare. unfold Download.field.
    rewrite (fold_set_get _ _ _ step Hstep LongRun.SERIES_LABELS label).
    + rewrite Hshare. apply toFixedNumber_rounded.
    + apply distinct_strings. vm_compute. reflexivity.
    + exact Hin.
    + exact Hact.
Qed.

Lemma beerstrength_row host records byDecade asShare activeKeys i bar :
  nth_error (BeerStrength.aggregateRecords host records byDecade asShare activeKeys) i
  = Some bar ->
  exists row,
    nth_error (BeerStrength.exportRows host records byDecade asShare activeKeys) i = Some row
    /\ exportedAs (if asShare then 4 else 3) (Some (BeerStrength.total bar))
         (Download.field "total" row)
    /\ forall label v,
         In label BeerStrength.CATEGORY_LABELS ->
         includes (BeerStrength.keyForLabel label) activeKeys = true ->
         objGet (BeerStrength.keyForLabel label) (BeerStrength.values bar) = Some v ->
         exportedAs (if asShare then 4 else 3) (Some v)
           (Download.field (BeerStrength.keyForLabel label) row).
Proof.
  intros Hi. unfold BeerStrength.exportRows. rewrite nth_error_map, Hi.
  eexists. split; [reflexivity|].
  set (step := fun (row : Download.CsvRow) (categoryLabel : string) => _).
  set (digits := if asShare then 4%nat else 3%nat).
  assert (Hstep : forall m item,
             step m item
             = if includes (BeerStrength.keyForLabel item) activeKeys
                  && match objGet (BeerStrength.keyForLabel item) (BeerStrength.values bar) with
                     | Some _ => true
                     | None => false
                     end
               then mapSet String.eqb (BeerStrength.keyForLabel item)
                      (Download.Num
                         (toFixedNumber digits
                            match objGet (BeerStrength.keyForLabel item)
                                    (BeerStrength.values bar) with
                            | Some v => v
                            | None => 0
                            end)) m
               else m).
  { intros m item. unfold step.
    destruct (includes (BeerStrength.keyForLabel item) activeKeys); [|reflexivity].
    destruct (objGet (BeerStrength.keyForLabel item) (BeerStrength.values bar)); reflexivity. }
  split.
  - unfold Download.field.
    rewrite (fold_set_keep _ _ _ step Hstep).
    + simpl. apply toFixedNumber_rounded.
    + vm_compute. intuition discriminate.
  - intros label v Hin Hact Hv. unfold Download.field.
    rewrite (fold_set_get _ _ _ step Hstep BeerStrength.CATEGORY_LABELS label).
    + rewrite Hv. apply toFixedNumber_rounded.
    + apply distinct_strings. vm_compute. reflexivity.
    + exact Hin.
    + rewrite Hact, Hv. reflexivity.
Qed.

Lemma percapita_keys records smoothed :
  map PerCapita.key (PerCapita.buildSeries records smoothed)
  = map PerCapita.keyForLabel PerCapita.SERIES_LABELS.
Proof.
  unfold PerCapita.buildSeries, PerCapita.collectSeries. rewrite !map_map. reflexivity.
Qed.

Lemma percapita_row host records smoothed first rest series index point :
  PerCapita.buildSeries records smoothed = first :: rest ->
  In series (first :: rest) ->
  (index < List.length (PerCapita.values first))%nat ->
  nth_error (PerCapita.values series) index = Some point ->
  exists row,
    nth_error (PerCapita.exportRows host (first :: rest)) index = Some row
    /\ exportedAs 3 (PerCapita.value point) (Download.field (PerCapita.key series) row).
Proof.
  intros Hb Hin Hindex Hpoint. unfold PerCapita.exportRows.
  rewrite SmoothingFacts.mapi_nth_error.
  destruct (nth_error (PerCapita.values first) index) as [p0|] eqn:E0.
  2:{ apply nth_error_None in E0. lia. }
  eexists. split; [reflexivity|].
  set (step := fun (row : Download.CsvRow) (s : PerCapita.SeriesData) => _).
  unfold Download.field.
  rewrite (fold_set_get PerCapita.key
             (fun s => match nth_error (PerCapita.values s) index with
                       | Some p => Download.fixedOrNull 3 (PerCapita.value p)
                       | None => Download.Null
                       end)
             (fun _ => true) step).
  - rewrite Hpoint. apply fixedOrNull_exported.
  - reflexivity.
  - rewrite <- Hb, percapita_keys. apply distinct_strings. vm_compute. reflexivity.
  - exact Hin.
  - reflexivity.
Qed.

End ExportFacts.

Module ExportExamples.

(** A spirits record of the first quarter of 2020 in the given units. *)
Definition spirits (units : string) (v : Q) : Csv.DataRecord :=
  {| Csv.period := "2020.03"; Csv.date := 1583020800000%Z; Csv.year := 2020; Csv.month := 3;
     Csv.value := Some v; Csv.units := units;
     Csv.groupKey := "disc-volume-volume-per-head";
     Csv.groupLabel := SpiritsCheck.GROUP_LABEL;
     Csv.seriesKey := "spirits"; Csv.seriesLabel := SpiritsCheck.SERIES_LABEL |}.

(** One litre of spirits reported as three proof litres. *)
Definition oneToThree : list Csv.DataRecord := [spirits "Litres" 1; spirits "ProofL" 3].

End ExportExamples.

(** C2, as stated, fails for the ratio of the spirits unit check: a ratio
    of one third is exported as 0.333, rounded to three decimal digits and
    not to four. *)
Lemma C2_counterexample :
  exists point row,
    SpiritsCheck.preparePoints ExportExamples.oneToThree = [point]
    /\ SpiritsCheck.ratio point = Some (1 # 3)
    /\ SpiritsCheck.exportRows UtcHost.host [point] = [row]
    /\ Download.field "ratio" row = Some (Download.Num (333 # 1000))
    /\ ~ RoundingSpec.exportedAs 4 (SpiritsCheck.ratio point) (Download.field "ratio" row).
Proof.
  eexists. eexists. split; [reflexivity|]. split; [reflexivity|].
  split; [reflexivity|]. split; [reflexivity|].
  intros [_ H]. vm_compute in H. apply H. reflexivity.
Qed.

(** C2 (amended).  Every export projector rounds each field by a fixed
    number of decimal digits: the spirits unit check its litres, its proof
    litres and also its litres/proof ratio to 3; the seasonality heatmap
    its cell value to 4 when normalized to shares and to 3 otherwise; the
    long-run view its total to 3 and each active share to 4; the beer
    strength view its total and each active category to 4 in share mode
    and to 3 otherwise; the per-capita view each series value to 3.  An
    absent value is exported as [null]. *)
Theorem C2_export_rounding :
  (forall host points i point,
      nth_error points i = Some point ->
      exists row,
        nth_error (SpiritsCheck.exportRows host points) i = Some row
        /\ RoundingSpec.exportedAs 3 (SpiritsCheck.litres point) (Download.field "litres" row)
        /\ RoundingSpec.exportedAs 3 (SpiritsCheck.proof point) (Download.field "proof" row)
        /\ RoundingSpec.exportedAs 3 (SpiritsCheck.ratio point) (Download.field "ratio" row))
  /\ (forall cells normalize i cell,
        nth_error cells i = Some cell ->
        exists row,
          nth_error (Seasonality.exportRows cells normalize) i = Some row
          /\ RoundingSpec.exportedAs (if normalize then 4 else 3) (Seasonality.value cell)
               (Download.field "value" row))
  /\ (forall host records group activeKeys i point,
        nth_error (LongRun.buildPoints host (LongRun.collectGroupData records group)) i
        = Some point ->
        exists row,
          nth_error (LongRun.createExportRows host records group activeKeys) i = Some row
          /\ RoundingSpec.exportedAs 3 (Some (LongRun.total point))
               (Download.field "total_litres" row)
          /\ forall label share,
               In label LongRun.SERIES_LABELS ->
               Js.includes (LongRun.keyForLabel label) activeKeys = true ->
               Js.objGet (LongRun.keyForLabel label) (LongRun.shares point) = Some share ->
               RoundingSpec.exportedAs 4 (Some share)
                 (Download.field (LongRun.keyForLabel label ++ "_share") row))
  /\ (forall host records byDecade asShare activeKeys i bar,
        nth_error (BeerStrength.aggregateRecords host records byDecade asShare activeKeys) i
        = Some bar ->
        exists row,
          nth_error (BeerStrength.exportRows host records byDecade asShare activeKeys) i
          = Some row
          /\ RoundingSpec.exportedAs (if asShare then 4 else 3) (Some (BeerStrength.total bar))
               (Download.field "total" row)
          /\ forall label v,
               In label BeerStrength.CATEGORY_LABELS ->
               Js.includes (BeerStrength.keyForLabel label) activeKeys = true ->
               Js.objGet (BeerStrength.keyForLabel label) (BeerStrength.values bar) = Some v ->
               RoundingSpec.exportedAs (if asShare then 4 else 3) (Some v)
                 (Download.field (BeerStrength.keyForLabel label) row))
  /\ (forall host records smoothed first rest series index point,
        PerCapita.buildSeries records smoothed = first :: rest ->
        In series (first :: rest) ->
        (index < List.length (PerCapita.values first))%nat ->
        nth_error (PerCapita.values series) index = Some point ->
        exists row,
          nth_error (PerCapita.exportRows host (first :: rest)) index = Some row
          /\ RoundingSpec.exportedAs 3 (PerCapita.value point)
               (Download.field (PerCapita.key series) row)).
Proof.
  split; [|split; [|split; [|split]]].
  - exact ExportFacts.spirits_row.
  - exact ExportFacts.seasonality_row.
  - exact ExportFacts.longrun_row.
  - exact ExportFacts.beerstrength_row.
  - exact ExportFacts.percapita_row.
Qed.

(** The exported row of the spirits point of one litre to three proof
    litres. *)
Lemma C2_witness :
  exists row,
    nth_error (SpiritsCheck.exportRows UtcHost.host
                 (SpiritsCheck.preparePoints ExportExamples.oneToThree)) 0 = Some row
    /\ RoundingSpec.exportedAs 3 (Some 1) (Download.field "litres" row)
    /\ RoundingSpec.exportedAs 3 (Some 3) (Download.field "proof" row)
    /\ RoundingSpec.exportedAs 3 (Some (1 # 3)) (Download.field "ratio" row).
Proof.
  exact (proj1 C2_export_rounding UtcHost.host
           (SpiritsCheck.preparePoints ExportExamples.oneToThree) 0%nat _ eq_refl).
Defined.

(** ** Shares of a bucket whose total is zero *)

Module ShareFacts.
Import Js ShareSpec MapFacts.

Lemma isZero_iff x : isZero x = true <-> x == 0.
Proof. unfold isZero. apply Qeq_bool_iff. Qed.

(** *** Long-run pivot *)

Lemma longrun_total_kept point : LongRun.total (LongRun.toShares point) = LongRun.total point.
Proof. unfold LongRun.toShares. destruct (isZero (LongRun.total point)); reflexivity. Qed.

Lemma longrun_zero_total host records point :
  In point (LongRun.buildPoints host records) ->
  LongRun.total point == 0 ->
  forall label, In label LongRun.SERIES_LABELS ->
    objGet (LongRun.keyForLabel label) (LongRun.shares point) = Some 0.
Proof.
  unfold LongRun.buildPoints. intros Hin Hzero label Hlabel.
  apply in_map_iff in Hin. destruct Hin as (p0 & <- & _).
  rewrite longrun_total_kept in Hzero. apply isZero_iff in Hzero.
  unfold LongRun.toShares. rewrite Hzero. cbn [LongRun.shares]. unfold objGet.
  apply (fold_set_get LongRun.keyForLabel (fun _ => 0) (fun _ => true)).
  - reflexivity.
  - apply ExportFacts.distinct_strings. vm_compute. reflexivity.
  - exact Hlabel.
  - reflexivity.
Qed.

(** *** Seasonality heatmap *)

Lemma seasonality_zero_total records groupLabel seriesLabel cell :
  In cell (Seasonality.prepareCells records groupLabel seriesLabel true) ->
  yearTotal records groupLabel seriesLabel (Seasonality.year cell) == 0 ->
  Seasonality.value cell = None.
Proof.
  unfold Seasonality.prepareCells. intros Hin.
  apply in_flat_map in Hin. destruct Hin as (y & _ & Hin).
  unfold Seasonality.cellsOfYear in Hin. apply in_map_iff in Hin.
  destruct Hin as (m & <- & _). cbn [Seasonality.year Seasonality.value].
  unfold yearTotal. intros Hzero. apply isZero_iff in Hzero. rewrite Hzero.
  destruct (mapGet Qeq_bool m _); reflexivity.
Qed.

(** *** Beer strength *)

(** What holds of every bar while non-negative values are added: it has
    the category keys, none of its sums is negative, and together they do
    not exceed its total. *)
Record barInvariant (bar : BeerStrength.AggregatedBar) : Prop := {
  inv_keys : map fst (BeerStrength.values bar)
             = map BeerStrength.keyForLabel BeerStrength.CATEGORY_LABELS;
  inv_nonneg : Forall (fun entry => 0 <= snd entry) (BeerStrength.values bar);
  inv_sum : sumValues (BeerStrength.values bar) <= BeerStrength.total bar
}.

Lemma objUpdate_keys k f (o : NumObject) : map fst (objUpdate k f o) = map fst o.
Proof.
  unfold objUpdate. induction o as [|[k' v] r IH]; simpl; [reflexivity|].
  destruct (String.eqb k' k); simpl; [reflexivity | now rewrite IH].
Qed.

Lemma objUpdate_add_nonneg k v (o : NumObject) :
  0 <= v -> Forall (fun entry => 0 <= snd entry) o ->
  Forall (fun entry => 0 <= snd entry) (objUpdate k (fun sum => sum + v) o).
Proof.
  intros Hv. unfold objUpdate. induction 1 as [|[k' x] r Hx Hr IH]; simpl; [constructor|].
  destruct (String.eqb k' k); constructor; simpl in *; try assumption. lra.
Qed.

Lemma objUpdate_add_sum k v (o : NumObject) :
  0 <= v -> sumValues (objUpdate k (fun sum => sum + v) o) <= sumValues o + v.
Proof.
  intros Hv. unfold objUpdate. induction o as [|[k' x] r IH]; simpl; [lra|].
  destruct (String.eqb k' k); simpl; lra.
Qed.

Lemma fresh_bar_invariant k l :
  barInvariant {| BeerStrength.key := k; BeerStrength.label := l; BeerStrength.total := 0;
                  BeerStrength.values :=
                    objFromKeys (map BeerStrength.keyForLabel BeerStrength.CATEGORY_LABELS) 0 |}.
Proof.
  constructor; cbn [BeerStrength.values BeerStrength.total].
  - vm_compute. reflexivity.
  - vm_compute. repeat constructor; discriminate.
  - vm_compute. discriminate.
Qed.

Lemma added_bar_invariant bar categoryKey v :
  0 <= v -> barInvariant bar ->
  barInvariant {| BeerStrength.key := BeerStrength.key bar;
                  BeerStrength.label := BeerStrength.label bar;
                  BeerStrength.total := BeerStrength.total bar + v;
                  BeerStrength.values :=
                    objUpdate categoryKey (fun sum => sum + v) (BeerStrength.values bar) |}.
Proof.
  intros Hv [Hk Hn Hs]. constructor; cbn [BeerStrength.values BeerStrength.total].
  - now rewrite objUpdate_keys.
  - now apply objUpdate_add_nonneg.
  - pose proof (objUpdate_add_sum categoryKey v (BeerStrength.values bar) Hv). lra.
Qed.

Lemma mapSet_Forall {V : Type} (P : V -> Prop) k v (m : list (string * V)) :
  P v -> Forall P (mapValues m) -> Forall P (mapValues (mapSet String.eqb k v m)).
Proof.
  intros Hv. unfold mapValues. induction m as [|[k' v'] r IH]; simpl; intros H.
  - constructor; [exact Hv | constructor].
  - inversion H; subst. destruct (String.eqb k' k); simpl; constructor; auto.
Qed.

Lemma mapUpdate_Forall {V : Type} (P : V -> Prop) k f (m : list (string * V)) :
  (forall v, P v -> P (f v)) ->
  Forall P (mapValues m) -> Forall P (mapValues (mapUpdate String.eqb k f m)).
Proof.
  intros Hf. unfold mapValues. induction m as [|[k' v'] r IH]; simpl; intros H; [constructor|].
  inversion H; subst. destruct (String.eqb k' k); simpl; constructor; auto.
Qed.

Lemma addRecord_invariant host byDecade activeKeys bars record :
  (forall v, Csv.value record = Some v -> 0 <= v) ->
  Forall barInvariant (mapValues bars) ->
  Forall barInvariant (mapValues (BeerStrength.addRecord host byDecade activeKeys bars record)).
Proof.
  intros Hv Hbars. unfold BeerStrength.addRecord.
  destruct (Csv.value record) as [v|]; [|exact Hbars].
  destruct (negb (includes (Csv.seriesLabel record) BeerStrength.CATEGORY_LABELS)); [exact Hbars|].
  destruct (negb (includes _ activeKeys)); [exact Hbars|].
  apply mapUpdate_Forall.
  - intros bar. apply added_bar_invariant, Hv. reflexivity.
  - destruct (mapHas String.eqb _ bars); [exact Hbars|].
    apply mapSet_Forall; [apply fresh_bar_invariant | exact Hbars].
Qed.

Lemma orderedBars_invariant host records byDecade activeKeys :
  nonNegative records ->
  Forall barInvariant (BeerStrength.orderedBars host records byDecade activeKeys).
Proof.
  intros Hnn. unfold BeerStrength.orderedBars.
  apply Forall_forall. intros bar Hbar. apply sortBy_In in Hbar. revert bar Hbar.
  apply Forall_forall.
  set (filtered := filter _ records).
  assert (Hf : forall record, In record filtered -> In record records)
    by (intros record H; apply filter_In in H; apply H).
  clearbody filtered.
  assert (G : forall bars, Forall barInvariant (mapValues bars) ->
                Forall barInvariant
                  (mapValues (fold_left (BeerStrength.addRecord host byDecade activeKeys)
                                filtered bars))).
  { induction filtered as [|record rest IH]; intros bars Hbars; [exact Hbars|].
    simpl. apply IH.
    - intros r Hr. apply Hf. now right.
    - apply addRecord_invariant; [|exact Hbars].
      intros v Ev. apply (Hnn record v); [apply Hf; now left | exact Ev]. }
  apply G. constructor.
Qed.

Lemma entry_below_sum (o : NumObject) k v :
  Forall (fun entry => 0 <= snd entry) o -> In (k, v) o -> v <= sumValues o.
Proof.
  induction 1 as [|[k' x] r Hx Hr IH]; simpl; [contradiction|].
  assert (S : 0 <= sumValues r).
  { clear IH. induction Hr as [|[k2 x2] r2 H2 Hr2 IH2]; simpl in *; lra. }
  intros [E | Hin]; [injection E as _ ->; simpl in Hx; lra|].
  specialize (IH Hin). simpl in Hx. lra.
Qed.

Lemma objGet_In k v (o : NumObject) : objGet k o = Some v -> exists k', In (k', v) o.
Proof.
  unfold objGet. induction o as [|[k' x] r IH]; simpl; [discriminate|].
  destruct (String.eqb k' k).
  - intros E. injection E as ->. exists k'. now left.
  - intros E. destruct (IH E) as [k2 H]. exists k2. now right.
Qed.

Lemma objGet_present k (o : NumObject) : In k (map fst o) -> exists v, objGet k o = Some v.
Proof.
  unfold objGet. induction o as [|[k' x] r IH]; simpl; [contradiction|].
  destruct (String.eqb k' k) eqn:E; [eexists; reflexivity|].
  intros [H | H]; [subst; rewrite String.eqb_refl in E; discriminate | exact (IH H)].
Qed.

Lemma objGet_map_values k (f : Q -> Q) (o : NumObject) :
  objGet k (map (fun entry => (fst entry, f (snd entry))) o) = option_map f (objGet k o).
Proof.
  unfold objGet. induction o as [|[k' x] r IH]; simpl; [reflexivity|].
  destruct (String.eqb k' k); [reflexivity | exact IH].
Qed.

Lemma beerstrength_zero_total host records byDecade activeKeys i raw :
  nonNegative records ->
  nth_error (BeerStrength.aggregateRecords host records byDecade false activeKeys) i = Some raw ->
  BeerStrength.total raw == 0 ->
  exists bar,
    nth_error (BeerStrength.aggregateRecords host records byDecade true activeKeys) i = Some bar
    /\ BeerStrength.key bar = BeerStrength.key raw
    /\ forall label, In label BeerStrength.CATEGORY_LABELS ->
         exists share,
           objGet (BeerStrength.keyForLabel label) (BeerStrength.values bar) = Some share
           /\ share == 0.
Proof.
  intros Hnn Hraw Hzero. unfold BeerStrength.aggregateRecords in *.
  rewrite nth_error_map, Hraw. eexists. split; [reflexivity|]. split; [reflexivity|].
  assert (Inv : barInvariant raw).
  { pose proof (orderedBars_invariant host records byDecade activeKeys Hnn) as F.
    rewrite Forall_forall in F. apply F. eapply nth_error_In. exact Hraw. }
  destruct Inv as [Hk Hn Hs].
  intros label Hlabel. unfold BeerStrength.toShare. cbn [BeerStrength.values].
  rewrite (objGet_map_values _
             (fun x => x / (if isZero (BeerStrength.total raw) then 1
                            else BeerStrength.total raw))).
  destruct (objGet_present (BeerStrength.keyForLabel label) (BeerStrength.values raw)) as [v Ev].
  { rewrite Hk. now apply in_map. }
  rewrite Ev. eexists. split; [reflexivity|]. cbv beta.
  apply isZero_iff in Hzero as Hz. rewrite Hz.
  destruct (objGet_In _ _ _ Ev) as [k' Hin].
  pose proof (entry_below_sum _ _ _ Hn Hin) as Hle.
  rewrite Forall_forall in Hn. specialize (Hn _ Hin). simpl in Hn.
  assert (E : v == 0) by lra. rewrite E. reflexivity.
Qed.

End ShareFacts.

Module ShareExamples.
Import ShareSpec.

(** A year whose only report is a quarter of zero litres of beer. *)
Definition zeroYear : list Csv.DataRecord :=
  [quarterOne "Litres of Beverage" "Beer" (Some 0)].

(** A quarter of zero litres for the long-run pivot. *)
Definition zeroQuarter : list Csv.DataRecord :=
  [quarterOne "Litres of Beverage" "Total beer" (Some 0)].

End ShareExamples.

(** C1, as stated, fails for the seasonality heatmap: in a year whose
    total is zero the normalized cell of a reported month is absent, and
    not the number 0. *)
Lemma C1_counterexample :
  exists cell,
    nth_error (Seasonality.prepareCells ShareExamples.zeroYear "Litres of Beverage" "Beer" true) 0
    = Some cell
    /\ Seasonality.prepareCells ShareExamples.zeroYear "Litres of Beverage" "Beer" false
       = {| Seasonality.year := 2020; Seasonality.month := 3; Seasonality.value := Some 0 |}
         :: map (fun m => {| Seasonality.year := 2020; Seasonality.month := m;
                             Seasonality.value := None |}) [6; 9; 12]
    /\ ShareSpec.yearTotal ShareExamples.zeroYear "Litres of Beverage" "Beer" 2020 == 0
    /\ Seasonality.month cell = 3
    /\ Seasonality.value cell = None
    /\ Seasonality.value cell <> Some 0.
Proof.
  eexists. split; [reflexivity|]. cbn.
  split; [reflexivity|]. split; [reflexivity|]. split; [reflexivity|].
  split; [reflexivity | discriminate].
Qed.

(** C1 (amended).  When the total of a bucket is zero: every series share
    of a point of the long-run pivot is the number 0; every category share
    of a bar of the beer-strength aggregation is the number 0, the records
    reporting no negative value (the bar total is replaced by the divisor
    1); and every normalized cell of that year of the seasonality heatmap
    is absent. *)
Theorem C1_zero_total_shares :
  (forall host records point,
      In point (LongRun.buildPoints host records) ->
      LongRun.total point == 0 ->
      forall label, In label LongRun.SERIES_LABELS ->
        Js.objGet (LongRun.keyForLabel label) (LongRun.shares point) = Some 0)
  /\ (forall host records byDecade activeKeys i raw,
        ShareSpec.nonNegative records ->
        nth_error (BeerStrength.aggregateRecords host records byDecade false activeKeys) i
        = Some raw ->
        BeerStrength.total raw == 0 ->
        exists bar,
          nth_error (BeerStrength.aggregateRecords host records byDecade true activeKeys) i
          = Some bar
          /\ BeerStrength.key bar = BeerStrength.key raw
          /\ forall label, In label BeerStrength.CATEGORY_LABELS ->
               exists share,
                 Js.objGet (BeerStrength.keyForLabel label) (BeerStrength.values bar)
                 = Some share
                 /\ share == 0)
  /\ (forall records groupLabel seriesLabel cell,
        In cell (Seasonality.prepareCells records groupLabel seriesLabel true) ->
        ShareSpec.yearTotal records groupLabel seriesLabel (Seasonality.year cell) == 0 ->
        Seasonality.value cell = None).
Proof.
  split; [|split].
  - exact ShareFacts.longrun_zero_total.
  - exact ShareFacts.beerstrength_zero_total.
  - exact ShareFacts.seasonality_zero_total.
Qed.

(** The shares of the long-run point of a quarter of zero litres. *)
Lemma C1_witness :
  exists point,
    LongRun.buildPoints UtcHost.host ShareExamples.zeroQuarter = [point]
    /\ LongRun.total point == 0
    /\ Js.objGet (LongRun.keyForLabel "Total wine") (LongRun.shares point) = Some 0.
Proof.
  eexists. split; [reflexivity|]. split; [reflexivity|].
  refine (proj1 C1_zero_total_shares UtcHost.host ShareExamples.zeroQuarter _ _ _
            "Total wine" _).
  - left. reflexivity.
  - reflexivity.
  - right. left. reflexivity.
Defined.

(** ** The beer-strength aggregation of one year *)

Module ScenarioFacts.
Import Js ScenarioSpec.

Section OneBucket.
Variable host : Host.
Variable activeKeys : list string.
Variable category : string.
Variable y : Q.
Hypothesis category_known : includes category BeerStrength.CATEGORY_LABELS = true.
Hypothesis category_active : includes (BeerStrength.keyForLabel category) activeKeys = true.

(** The bar after one more report of the category. *)
Definition added (bar : BeerStrength.AggregatedBar) (v : Q) : BeerStrength.AggregatedBar :=
  {| BeerStrength.key := BeerStrength.key bar; BeerStrength.label := BeerStrength.label bar;
     BeerStrength.total := BeerStrength.total bar + v;
     BeerStrength.values :=
       objUpdate (BeerStrength.keyForLabel category) (fun sum => sum + v)
         (BeerStrength.values bar) |}.

Definition fresh : BeerStrength.AggregatedBar :=
  {| BeerStrength.key := decadeKey host y;
     BeerStrength.label := BeerStrength.barLabel host true (decadeKey host y);
     BeerStrength.total := 0;
     BeerStrength.values :=
       objFromKeys (map BeerStrength.keyForLabel BeerStrength.CATEGORY_LABELS) 0 |}.

Lemma addRecord_first record v :
  reports category y v record ->
  BeerStrength.addRecord host true activeKeys [] record = [(decadeKey host y, added fresh v)].
Proof.
  intros (_ & Hs & Hy & Hv). unfold BeerStrength.addRecord, BeerStrength.barKey.
  rewrite Hv, Hs, Hy, category_known, category_active. cbn [negb].
  fold (decadeKey host y). cbn [mapHas mapGet mapSet mapUpdate].
  rewrite String.eqb_refl. reflexivity.
Qed.

Lemma addRecord_next bar record v :
  reports category y v record ->
  BeerStrength.addRecord host true activeKeys [(decadeKey host y, bar)] record
  = [(decadeKey host y, added bar v)].
Proof.
  intros (_ & Hs & Hy & Hv). unfold BeerStrength.addRecord, BeerStrength.barKey.
  rewrite Hv, Hs, Hy, category_known, category_active. cbn [negb].
  fold (decadeKey host y). unfold mapHas. cbn [mapGet mapSet mapUpdate].
  rewrite String.eqb_refl. cbn [mapUpdate]. rewrite String.eqb_refl. reflexivity.
Qed.

Lemma four_reports r1 r2 r3 r4 v1 v2 v3 v4 :
  reports category y v1 r1 -> reports category y v2 r2 ->
  reports category y v3 r3 -> reports category y v4 r4 ->
  BeerStrength.orderedBars host [r1; r2; r3; r4] true activeKeys
  = [added (added (added (added fresh v1) v2) v3) v4].
Proof.
  intros H1 H2 H3 H4. unfold BeerStrength.orderedBars.
  assert (F : filter (fun record => String.eqb (Csv.groupLabel record) BeerStrength.GROUP_LABEL)
                [r1; r2; r3; r4] = [r1; r2; r3; r4]).
  { cbn [filter]. rewrite (proj1 H1), (proj1 H2), (proj1 H3), (proj1 H4). reflexivity. }
  rewrite F. cbn [fold_left].
  rewrite (addRecord_first r1 v1 H1), (addRecord_next _ r2 v2 H2),
    (addRecord_next _ r3 v3 H3), (addRecord_next _ r4 v4 H4).
  reflexivity.
Qed.

End OneBucket.

Lemma category_cases (P : string -> Prop) :
  Forall P BeerStrength.CATEGORY_LABELS ->
  forall category, In category BeerStrength.CATEGORY_LABELS -> P category.
Proof. intros H category Hin. rewrite Forall_forall in H. exact (H category Hin). Qed.

(** What the fields of the bars met above are. *)
Lemma values_added category bar v :
  BeerStrength.values (added category bar v)
  = objUpdate (BeerStrength.keyForLabel category) (fun sum => sum + v) (BeerStrength.values bar).
Proof. reflexivity. Qed.

Lemma total_added category bar v :
  BeerStrength.total (added category bar v) = BeerStrength.total bar + v.
Proof. reflexivity. Qed.

Lemma key_added category bar v :
  BeerStrength.key (added category bar v) = BeerStrength.key bar.
Proof. reflexivity. Qed.

Lemma values_fresh host y :
  BeerStrength.values (fresh host y)
  = objFromKeys (map BeerStrength.keyForLabel BeerStrength.CATEGORY_LABELS) 0.
Proof. reflexivity. Qed.

Lemma total_fresh host y : BeerStrength.total (fresh host y) = 0.
Proof. reflexivity. Qed.

Lemma key_fresh host y : BeerStrength.key (fresh host y) = decadeKey host y.
Proof. reflexivity. Qed.

Lemma values_toShare bar :
  BeerStrength.values (BeerStrength.toShare bar)
  = map (fun entry =>
           (fst entry,
            snd entry / (if isZero (BeerStrength.total bar) then 1 else BeerStrength.total bar)))
      (BeerStrength.values bar).
Proof. reflexivity. Qed.

Lemma key_toShare bar : BeerStrength.key (BeerStrength.toShare bar) = BeerStrength.key bar.
Proof. reflexivity. Qed.

Lemma total_toShare bar : BeerStrength.total (BeerStrength.toShare bar) = 1.
Proof. reflexivity. Qed.

(** The category sums of a year that reports 10, 20, 30 and 40, and their
    shares of its total. *)
Lemma year_sums :
  Forall (fun category =>
            includes category BeerStrength.CATEGORY_LABELS = true
            /\ includes (BeerStrength.keyForLabel category) [BeerStrength.keyForLabel category]
               = true
            /\ (exists volume,
                  objGet (BeerStrength.keyForLabel category)
                    (objUpdate (BeerStrength.keyForLabel category) (fun sum => sum + 40)
                       (objUpdate (BeerStrength.keyForLabel category) (fun sum => sum + 30)
                          (objUpdate (BeerStrength.keyForLabel category) (fun sum => sum + 20)
                             (objUpdate (BeerStrength.keyForLabel category)
                                (fun sum => sum + 10)
                                (objFromKeys
                                   (map BeerStrength.keyForLabel BeerStrength.CATEGORY_LABELS)
                                   0)))))
                  = Some volume
                  /\ volume == 100)
            /\ (exists share,
                  objGet (BeerStrength.keyForLabel category)
                    (map (fun entry =>
                            (fst entry,
                             snd entry
                             / (if isZero (0 + 10 + 20 + 30 + 40) then 1
                                else 0 + 10 + 20 + 30 + 40)))
                       (objUpdate (BeerStrength.keyForLabel category) (fun sum => sum + 40)
                          (objUpdate (BeerStrength.keyForLabel category) (fun sum => sum + 30)
                             (objUpdate (BeerStrength.keyForLabel category)
                                (fun sum => sum + 20)
                                (objUpdate (BeerStrength.keyForLabel category)
                                   (fun sum => sum + 10)
                                   (objFromKeys
                                      (map BeerStrength.keyForLabel
                                         BeerStrength.CATEGORY_LABELS)
                                      0))))))
                  = Some share
                  /\ share == 1))
    BeerStrength.CATEGORY_LABELS.
Proof.
  unfold BeerStrength.CATEGORY_LABELS.
  repeat (apply Forall_cons; [|try apply Forall_nil]);
    (split; [vm_compute; reflexivity|]); (split; [vm_compute; reflexivity|]);
    split; eexists; (split; [vm_compute; reflexivity | vm_compute; reflexivity]).
Qed.

(** One year of one active category, by decade. *)
Lemma one_category_year host category y r1 r2 r3 r4 :
  In category BeerStrength.CATEGORY_LABELS ->
  reports category y 10 r1 -> reports category y 20 r2 ->
  reports category y 30 r3 -> reports category y 40 r4 ->
  (exists bar share,
      BeerStrength.aggregateRecords host [r1; r2; r3; r4] true true
        [BeerStrength.keyForLabel category] = [bar]
      /\ BeerStrength.key bar = decadeKey host y
      /\ BeerStrength.total bar = 1
      /\ objGet (BeerStrength.keyForLabel category) (BeerStrength.values bar) = Some share
      /\ share == 1)
  /\ (exists raw volume,
        BeerStrength.aggregateRecords host [r1; r2; r3; r4] true false
          [BeerStrength.keyForLabel category] = [raw]
        /\ BeerStrength.key raw = decadeKey host y
        /\ BeerStrength.total raw == 100
        /\ objGet (BeerStrength.keyForLabel category) (BeerStrength.values raw) = Some volume
        /\ volume == 100).
Proof.
  intros Hin H1 H2 H3 H4.
  destruct (category_cases _ year_sums category Hin)
    as (Hknown & Hactive & (volume & Ev & Hvolume) & (share & Es & Hshare)).
  pose proof (four_reports host _ category y Hknown Hactive r1 r2 r3 r4 10 20 30 40
                H1 H2 H3 H4) as E.
  split.
  - exists (BeerStrength.toShare
              (added category (added category (added category
                 (added category (fresh host y) 10) 20) 30) 40)).
    exists share. split; [|split; [|split; [|split]]].
    + unfold BeerStrength.aggregateRecords. rewrite E. reflexivity.
    + rewrite key_toShare, !key_added. apply key_fresh.
    + apply total_toShare.
    + rewrite values_toShare, !values_added, values_fresh, !total_added, total_fresh.
      exact Es.
    + exact Hshare.
  - exists (added category (added category (added category
              (added category (fresh host y) 10) 20) 30) 40).
    exists volume. split; [|split; [|split; [|split]]].
    + unfold BeerStrength.aggregateRecords. exact E.
    + rewrite !key_added. apply key_fresh.
    + rewrite !total_added, total_fresh. unfold Qeq. reflexivity.
    + rewrite !values_added, values_fresh. exact Ev.
    + exact Hvolume.
Qed.

(** The same year, from the raw rows, on the example host. *)
Lemma one_category_year_loaded category :
  In category BeerStrength.CATEGORY_LABELS ->
  let records := Csv.loadRecords UtcHost.host (yearRows category) in
  map Csv.value records = [Some 10; Some 20; Some 30; Some 40]
  /\ (exists bar share,
        BeerStrength.aggregateRecords UtcHost.host records true true
          [BeerStrength.keyForLabel category] = [bar]
        /\ BeerStrength.key bar = "2020s"
        /\ BeerStrength.label bar = "2020-2029"
        /\ BeerStrength.total bar = 1
        /\ objGet (BeerStrength.keyForLabel category) (BeerStrength.values bar) = Some share
        /\ share == 1)
  /\ (exists raw,
        BeerStrength.aggregateRecords UtcHost.host records true false
          [BeerStrength.keyForLabel category] = [raw]
        /\ BeerStrength.total raw == 100).
Proof.
  revert category. apply category_cases. unfold BeerStrength.CATEGORY_LABELS.
  repeat (apply Forall_cons; [|try apply Forall_nil]);
    (split; [vm_compute; reflexivity|]);
    (split;
     [eexists; eexists; (split; [vm_compute; reflexivity|]);
      (split; [reflexivity|]); (split; [reflexivity|]); (split; [reflexivity|]);
      (split; [vm_compute; reflexivity|]); reflexivity
     |eexists; (split; [vm_compute; reflexivity|]); reflexivity]).
Qed.

End ScenarioFacts.

(** C3, as stated, fails: "Beer" is none of the five strength categories
    the aggregation keeps, so the four rows of the scenario, loaded with
    the values 10, 20, 30 and 40, yield no bucket at all. *)
Lemma C3_counterexample :
  map Csv.value (Csv.loadRecords UtcHost.host (ScenarioSpec.yearRows "Beer"))
  = [Some 10; Some 20; Some 30; Some 40]
  /\ map Csv.seriesLabel (Csv.loadRecords UtcHost.host (ScenarioSpec.yearRows "Beer"))
     = ["Beer"; "Beer"; "Beer"; "Beer"]
  /\ BeerStrength.aggregateRecords UtcHost.host
       (Csv.loadRecords UtcHost.host (ScenarioSpec.yearRows "Beer")) true true
       [BeerStrength.keyForLabel "Beer"] = [].
Proof.
  split; [vm_compute; reflexivity|]. split; vm_compute; reflexivity.
Qed.

(** C3 (amended).  Given four records of the group "Litres of Beverage"
    for one of the five beer-strength categories, in one year and with the
    values 10, 20, 30 and 40, and that category the only active one, the
    decade-bucketed share aggregation yields exactly one bucket, keyed by
    the decade, whose total is reported as 1 and whose share for the
    category is 1; without the share pass the bucket has the total 100.
    From the raw rows of the four quarters of 2020 the bucket is "2020s",
    labelled "2020-2029". *)
Theorem C3_one_year_one_category :
  (forall host category y r1 r2 r3 r4,
      In category BeerStrength.CATEGORY_LABELS ->
      ScenarioSpec.reports category y 10 r1 -> ScenarioSpec.reports category y 20 r2 ->
      ScenarioSpec.reports category y 30 r3 -> ScenarioSpec.reports category y 40 r4 ->
      (exists bar share,
          BeerStrength.aggregateRecords host [r1; r2; r3; r4] true true
            [BeerStrength.keyForLabel category] = [bar]
          /\ BeerStrength.key bar = ScenarioSpec.decadeKey host y
          /\ BeerStrength.total bar = 1
          /\ Js.objGet (BeerStrength.keyForLabel category) (BeerStrength.values bar)
             = Some share
          /\ share == 1)
      /\ (exists raw volume,
            BeerStrength.aggregateRecords host [r1; r2; r3; r4] true false
              [BeerStrength.keyForLabel category] = [raw]
            /\ BeerStrength.key raw = ScenarioSpec.decadeKey host y
            /\ BeerStrength.total raw == 100
            /\ Js.objGet (BeerStrength.keyForLabel category) (BeerStrength.values raw)
               = Some volume
            /\ volume == 100))
  /\ (forall category,
        In category BeerStrength.CATEGORY_LABELS ->
        let records := Csv.loadRecords UtcHost.host (ScenarioSpec.yearRows category) in
        map Csv.value records = [Some 10; Some 20; Some 30; Some 40]
        /\ (exists bar share,
              BeerStrength.aggregateRecords UtcHost.host records true true
                [BeerStrength.keyForLabel category] = [bar]
              /\ BeerStrength.key bar = "2020s"
              /\ BeerStrength.label bar = "2020-2029"
              /\ BeerStrength.total bar = 1
              /\ Js.objGet (BeerStrength.keyForLabel category) (BeerStrength.values bar)
                 = Some share
              /\ share == 1)
        /\ (exists raw,
              BeerStrength.aggregateRecords UtcHost.host records true false
                [BeerStrength.keyForLabel category] = [raw]
              /\ BeerStrength.total raw == 100)).
Proof.
  split.
  - exact ScenarioFacts.one_category_year.
  - exact ScenarioFacts.one_category_year_loaded.
Qed.

(** The strongest beers of 2020, from the raw rows. *)
Lemma C3_witness :
  exists bar share,
    BeerStrength.aggregateRecords UtcHost.host
      (Csv.loadRecords UtcHost.host
         (ScenarioSpec.yearRows "Beer containing more than 5.00% alcohol"))
      true true [BeerStrength.keyForLabel "Beer containing more than 5.00% alcohol"] = [bar]
    /\ BeerStrength.key bar = "2020s"
    /\ BeerStrength.label bar = "2020-2029"
    /\ BeerStrength.total bar = 1
    /\ Js.objGet (BeerStrength.keyForLabel "Beer containing more than 5.00% alcohol")
         (BeerStrength.values bar) = Some share
    /\ share == 1.
Proof.
  refine (proj1 (proj2 (proj2 C3_one_year_one_category
                          "Beer containing more than 5.00% alcohol" _))).
  right. right. right. right. left. reflexivity.
Defined.
(** ** Sorting *)

Module SortFacts.
Import Js SortSpec.

Section Comparator.
Context {A : Type} (cmp : A -> A -> Q).
Local Abbreviation before := (SortSpec.before cmp).

Lemma insertBy_perm x xs : Permutation (insertBy cmp x xs) (x :: xs).
Proof.
  induction xs as [|y r IH]; simpl; [apply Permutation_refl|].
  destruct (Qle_bool (cmp x y) 0); [apply Permutation_refl|].
  apply perm_trans with (y :: x :: r); [now apply perm_skip | apply perm_swap].
Qed.

Lemma sortBy_perm xs : Permutation (sortBy cmp xs) xs.
Proof.
  induction xs as [|x r IH]; simpl; [apply perm_nil|].
  apply perm_trans with (x :: sortBy cmp r); [apply insertBy_perm | now apply perm_skip].
Qed.

Lemma sortBy_length xs : List.length (sortBy cmp xs) = List.length xs.
Proof. apply Permutation_length, sortBy_perm. Qed.

Hypothesis total : forall x y, before x y \/ before y x.

Lemma insertBy_hd y x xs :
  before y x -> HdRel before y xs -> HdRel before y (insertBy cmp x xs).
Proof.
  intros Hyx Hy. destruct xs as [|z r]; simpl; [now constructor|].
  destruct (Qle_bool (cmp x z) 0); constructor; [exact Hyx|].
  now inversion Hy.
Qed.

Lemma insertBy_sorted x xs : Sorted before xs -> Sorted before (insertBy cmp x xs).
Proof.
  induction 1 as [|y r Hr IH Hy]; simpl; [repeat constructor|].
  destruct (Qle_bool (cmp x y) 0) eqn:E.
  - constructor; [now constructor | now constructor].
  - constructor; [exact IH|]. apply insertBy_hd; [|exact Hy].
    destruct (total x y) as [H | H]; [unfold SortSpec.before in H; congruence | exact H].
Qed.

Lemma sortBy_sorted xs : Sorted before (sortBy cmp xs).
Proof. induction xs as [|x r IH]; simpl; [constructor | now apply insertBy_sorted]. Qed.

End Comparator.

Lemma Sorted_weaken {A : Type} (R R' : A -> A -> Prop) xs :
  (forall x y, R x y -> R' x y) -> Sorted R xs -> Sorted R' xs.
Proof.
  intros H. induction 1 as [|x r Hr IH Hx]; constructor; [exact IH|].
  destruct Hx; constructor; auto.
Qed.

(** The comparator [(a, b) => a.date.getTime() - b.date.getTime()]. *)
Lemma byTime_before {A : Type} (date : A -> Date) a b :
  SortSpec.before (byTime date) a b <-> (date a <= date b)%Z.
Proof.
  unfold before, byTime, getTime. rewrite Qle_bool_iff, Zle_Qle. split; intros H; lra.
Qed.

Lemma sortBy_byTime_sorted {A : Type} (date : A -> Date) xs :
  Sorted (fun a b => (date a <= date b)%Z) (sortBy (byTime date) xs).
Proof.
  apply Sorted_weaken with (R := SortSpec.before (byTime date)).
  - intros x y. apply byTime_before.
  - apply sortBy_sorted. intros x y. rewrite !byTime_before. lia.
Qed.

(** The comparator [(a, b) => a - b]. *)
Lemma difference_before a b : SortSpec.before (fun x y : Q => x - y) a b <-> a <= b.
Proof. unfold before. rewrite Qle_bool_iff. split; intros H; lra. Qed.

Lemma sortBy_difference_sorted xs : Sorted Qle (sortBy (fun x y : Q => x - y) xs).
Proof.
  apply Sorted_weaken with (R := SortSpec.before (fun x y : Q => x - y)).
  - intros x y. apply difference_before.
  - apply sortBy_sorted. intros x y. rewrite !difference_before.
    destruct (Qlt_le_dec x y); [left; lra | right; lra].
Qed.

End SortFacts.

(** ** The loader *)

Module LoaderFacts.
Import Js LoaderSpec.

Lemma nonempty_length s : (0 <? String.length s)%nat = negb (String.eqb s "").
Proof. destruct s; reflexivity. Qed.

Lemma kept_filter host rows :
  filter (fun record => (0 <? String.length (trim (Csv.seriesLabel record)))%nat)
    (map (Csv.recordOfRow host) rows)
  = filter hasSeriesLabel (map (Csv.recordOfRow host) rows).
Proof. apply filter_ext. intros record. apply nonempty_length. Qed.

Lemma deriveMonth_quarter row : In (Csv.deriveMonth row) quarterMonths.
Proof.
  unfold Csv.deriveMonth. set (token := if String.eqb _ "" then "" else _).
  clearbody token. unfold Csv.MONTH_MAP. cbn [mapGet].
  repeat match goal with
  | |- context [if ?b then _ else _] => destruct b
  end; unfold quarterMonths; simpl; auto.
Qed.

Lemma monthText_chain row :
  match Csv.orElse (Csv.column "Unnamed: 1" row)
          (Csv.orElse (Csv.column "" row)
             (Csv.orElse (Csv.column "Month" row) (Csv.column "Month_code" row))) with
  | Some text => text
  | None => ""
  end = monthText row.
Proof.
  unfold monthText, Csv.orElse.
  destruct (Csv.column "Unnamed: 1" row); [reflexivity|].
  destruct (Csv.column "" row); [reflexivity|].
  destruct (Csv.column "Month" row); [reflexivity|].
  destruct (Csv.column "Month_code" row); reflexivity.
Qed.

Lemma month_of_token token :
  match mapGet String.eqb token Csv.MONTH_MAP with Some m => m | None => 12 end
  = if String.eqb token "Mar" then 3
    else if String.eqb token "Jun" then 6
    else if String.eqb token "Sep" then 9
    else 12.
Proof.
  unfold Csv.MONTH_MAP. cbn [mapGet].
  rewrite (String.eqb_sym "Mar"), (String.eqb_sym "Jun"), (String.eqb_sym "Sep").
  destruct (String.eqb token "Mar"); [reflexivity|].
  destruct (String.eqb token "Jun"); [reflexivity|].
  destruct (String.eqb token "Sep"); [reflexivity|].
  now destruct (String.eqb "Dec" token).
Qed.

Lemma deriveMonth_monthOf row : Csv.deriveMonth row = monthOf (monthText row).
Proof.
  unfold Csv.deriveMonth. cbv zeta. rewrite monthText_chain, month_of_token.
  unfold monthOf. cbv zeta.
  destruct (String.eqb (monthText row) "") eqn:E; [|reflexivity].
  apply String.eqb_eq in E. rewrite E. reflexivity.
Qed.

End LoaderFacts.

(** X1.  When the year of every row is one a [Date] can hold (from
    -271820 to 275758, so that no record carries an Invalid Date),
    [loadData] keeps exactly the rows whose series label is not blank, each
    once, and hands their records over in ascending order of date. *)
Theorem X1_loadRecords_kept_and_sorted :
  forall (host : Js.Host) (rows : list Csv.RawRecord),
    Forall (fun row => DateSpec.yearInRange (Csv.year (Csv.recordOfRow host row)) = true) rows ->
    Permutation (Csv.loadRecords host rows)
      (filter LoaderSpec.hasSeriesLabel (map (Csv.recordOfRow host) rows))
    /\ Sorted LoaderSpec.notLater (Csv.loadRecords host rows)
    /\ Forall (fun record => Js.trim (Csv.seriesLabel record) <> "")
         (Csv.loadRecords host rows).
Proof.
  intros host rows _. unfold Csv.loadRecords. rewrite LoaderFacts.kept_filter.
  split; [apply SortFacts.sortBy_perm|]. split; [apply SortFacts.sortBy_byTime_sorted|].
  apply Forall_forall. intros record Hin. apply MapFacts.sortBy_In in Hin.
  apply filter_In in Hin. destruct Hin as [_ H]. unfold LoaderSpec.hasSeriesLabel in H.
  apply negb_true_iff, String.eqb_neq in H. exact H.
Qed.

(** Four rows of 2020, one with a blank series label. *)
Lemma X1_witness :
  Permutation (Csv.loadRecords UtcHost.host LoaderSpec.exampleRows)
    (filter LoaderSpec.hasSeriesLabel
       (map (Csv.recordOfRow UtcHost.host) LoaderSpec.exampleRows))
  /\ Sorted LoaderSpec.notLater (Csv.loadRecords UtcHost.host LoaderSpec.exampleRows)
  /\ Forall (fun record => Js.trim (Csv.seriesLabel record) <> "")
       (Csv.loadRecords UtcHost.host LoaderSpec.exampleRows).
Proof.
  apply X1_loadRecords_kept_and_sorted.
  repeat (apply Forall_cons; [vm_compute; reflexivity|]). apply Forall_nil.
Defined.

(** X2.  The month of the record [loadData] makes of a row is read from
    the first month column the row has: it is 3, 6 or 9 when the trimmed
    text of that column starts with Mar, Jun or Sep, and 12 otherwise, that
    is for Dec, for any other text and for a row without a month column.
    So every record handed over has one of the months 3, 6, 9 and 12. *)
Theorem X2_loaded_months_are_quarter_ends :
  forall (host : Js.Host) (rows : list Csv.RawRecord),
    (forall row : Csv.RawRecord,
        Csv.month (Csv.recordOfRow host row) = LoaderSpec.monthOf (LoaderSpec.monthText row))
    /\ Forall (fun record => In (Csv.month record) LoaderSpec.quarterMonths)
         (Csv.loadRecords host rows).
Proof.
  intros host rows. split; [intros row; apply LoaderFacts.deriveMonth_monthOf|].
  apply Forall_forall. intros record Hin.
  unfold Csv.loadRecords in Hin. apply MapFacts.sortBy_In in Hin.
  apply filter_In in Hin. destruct Hin as [Hin _]. apply in_map_iff in Hin.
  destruct Hin as (row & <- & _). apply LoaderFacts.deriveMonth_quarter.
Qed.
(** ** Decimal numerals and [Number] *)

Module NumeralFacts.
Import Js NumeralSpec.

(** The ten cases of a decimal digit. *)
Lemma digit_cases (P : nat -> Prop) :
  P 0%nat -> P 1%nat -> P 2%nat -> P 3%nat -> P 4%nat -> P 5%nat -> P 6%nat -> P 7%nat ->
  P 8%nat -> P 9%nat -> forall d, (d < 10)%nat -> P d.
Proof.
  intros H0 H1 H2 H3 H4 H5 H6 H7 H8 H9 d Hd.
  do 10 (destruct d as [|d]; [assumption|]). exfalso. lia.
Qed.

Ltac each_digit d H := revert d H; apply digit_cases.

Lemma digitOf_digitChar d : (d < 10)%nat -> digitOf 10 (digitChar d) = Some (Z.of_nat d).
Proof. revert d. apply digit_cases; reflexivity. Qed.

Lemma digit_not_space d : (d < 10)%nat -> isSpace (digitChar d) = false.
Proof. revert d. apply digit_cases; reflexivity. Qed.

Lemma digitOf_point : digitOf 10 "."%char = None.
Proof. reflexivity. Qed.

Lemma readDigits_digits ds :
  areDigits ds ->
  forall acc count rest,
    readDigits 10 acc count (digitsText ds ++ rest)
    = readDigits 10 (digitsValue acc ds) (count + List.length ds) rest.
Proof.
  induction 1 as [|d r Hd Hr IH]; intros acc count rest.
  - simpl. now rewrite Nat.add_0_r.
  - cbn [digitsText append readDigits]. rewrite (digitOf_digitChar d Hd).
    rewrite IH. cbn [digitsValue List.length]. f_equal. lia.
Qed.

Lemma digitsValue_app ds1 ds2 acc :
  digitsValue acc (ds1 ++ ds2) = digitsValue (digitsValue acc ds1) ds2.
Proof. revert acc. induction ds1 as [|d r IH]; intros acc; simpl; [reflexivity | apply IH]. Qed.

Lemma digitsValue_bounds ds :
  areDigits ds ->
  forall acc,
    (digitsValue acc ds = acc * 10 ^ Z.of_nat (List.length ds) + digitsValue 0 ds)%Z
    /\ (0 <= digitsValue 0 ds < 10 ^ Z.of_nat (List.length ds))%Z.
Proof.
  induction 1 as [|d r Hd Hr IH]; intros acc.
  - simpl. lia.
  - cbn [digitsValue List.length]. rewrite Nat2Z.inj_succ, Z.pow_succ_r by lia.
    destruct (IH (acc * 10 + Z.of_nat d)%Z) as [E1 _].
    destruct (IH (0 * 10 + Z.of_nat d)%Z) as [E2 B].
    rewrite E1, E2. split; [ring|].
    assert (P : (0 < 10 ^ Z.of_nat (List.length r))%Z) by (apply Z.pow_pos_nonneg; lia).
    nia.
Qed.

(** *** Text without white space is its own trim *)

Fixpoint noSpaces (s : string) : Prop :=
  match s with
  | EmptyString => True
  | String c r => isSpace c = false /\ noSpaces r
  end.

Lemma trim_noSpaces s : noSpaces s -> trim s = s.
Proof.
  intros H. unfold trim.
  assert (S : trimStart s = s) by (destruct s as [|c r]; [reflexivity | simpl; now rewrite (proj1 H)]).
  rewrite S. clear S. induction s as [|c r IH]; [reflexivity|].
  destruct H as [Hc Hr]. cbn [trimEnd]. rewrite (IH Hr).
  destruct r; [now rewrite Hc | reflexivity].
Qed.

Lemma noSpaces_app s1 s2 : noSpaces s1 -> noSpaces s2 -> noSpaces (s1 ++ s2).
Proof. induction s1 as [|c r IH]; simpl; [trivial | intros [Hc Hr] H2; split; auto]. Qed.

Lemma noSpaces_digits ds : areDigits ds -> noSpaces (digitsText ds).
Proof.
  induction 1 as [|d r Hd Hr IH]; simpl; [exact I|]. split; [|exact IH].
  apply digit_not_space, Hd.
Qed.

Lemma append_empty s : s ++ "" = s.
Proof. induction s as [|c r IH]; simpl; [reflexivity | now rewrite IH]. Qed.

(** *** A numeral that starts with a digit *)

(** What may follow the leading digit of a plain decimal numeral. *)
Definition plainRest (rest : string) : Prop :=
  rest = EmptyString
  \/ (exists d r, (d < 10)%nat /\ rest = String (digitChar d) r)
  \/ (exists r, rest = String "."%char r).

Lemma plainRest_digits ds tail :
  areDigits ds -> (tail = EmptyString \/ exists r, tail = String "."%char r) ->
  plainRest (digitsText ds ++ tail).
Proof.
  intros Hds Htail. destruct Hds as [|d r Hd Hr]; simpl.
  - destruct Htail as [-> | [r' ->]]; [now left | right; right; now exists r'].
  - right. left. exists d, (digitsText r ++ tail). now split.
Qed.

Lemma parseNumber_unsigned d rest :
  (d < 10)%nat -> plainRest rest -> noSpaces rest ->
  parseNumber (String (digitChar d) rest)
  = match readUnsignedDecimal (String (digitChar d) rest) with
    | Some q => Finite q
    | None => NotANumber
    end.
Proof.
  intros Hd Hrest Hns. unfold parseNumber. rewrite trim_noSpaces.
  2:{ split; [apply digit_not_space, Hd | exact Hns]. }
  clear Hns. destruct Hrest as [-> | [(d2 & r & Hd2 & ->) | (r & ->)]].
  - each_digit d Hd; reflexivity.
  - each_digit d Hd; each_digit d2 Hd2; reflexivity.
  - each_digit d Hd; reflexivity.
Qed.

Lemma parseNumber_negative d rest :
  (d < 10)%nat -> noSpaces rest ->
  parseNumber (String "-"%char (String (digitChar d) rest))
  = match readUnsignedDecimal (String (digitChar d) rest) with
    | Some q => Finite (- q)
    | None => NotANumber
    end.
Proof.
  intros Hd Hns. unfold parseNumber. rewrite trim_noSpaces.
  2:{ split; [reflexivity|]. split; [apply digit_not_space, Hd | exact Hns]. }
  clear Hns. each_digit d Hd; reflexivity.
Qed.

(** *** The value of a numeral *)

Lemma readDigits_all ds :
  areDigits ds ->
  forall acc count,
    readDigits 10 acc count (digitsText ds)
    = (digitsValue acc ds, (count + List.length ds)%nat, EmptyString).
Proof.
  induction 1 as [|d r Hd Hr IH]; intros acc count.
  - simpl. now rewrite Nat.add_0_r.
  - cbn [digitsText readDigits]. rewrite (digitOf_digitChar d Hd), IH.
    cbn [digitsValue List.length].
    replace (S count + List.length r)%nat with (count + S (List.length r))%nat by lia.
    reflexivity.
Qed.

Lemma readUnsignedDecimal_whole whole :
  whole <> [] -> areDigits whole ->
  readUnsignedDecimal (digitsText whole) = Some (scale10 (digitsValue 0 whole) 0).
Proof.
  intros Hne Hw. unfold readUnsignedDecimal. rewrite (readDigits_all whole Hw).
  destruct whole as [|d r]; [contradiction|]. reflexivity.
Qed.

Lemma readUnsignedDecimal_fraction whole fraction :
  whole <> [] -> areDigits whole -> areDigits fraction ->
  readUnsignedDecimal (digitsText whole ++ "." ++ digitsText fraction)
  = Some (scale10 (digitsValue 0 (whole ++ fraction))
            (0 - Z.of_nat (List.length fraction))).
Proof.
  intros Hne Hw Hf. unfold readUnsignedDecimal.
  rewrite (readDigits_digits whole Hw). cbn [append readDigits].
  rewrite digitOf_point, (readDigits_all fraction Hf), digitsValue_app.
  destruct whole as [|d r]; [contradiction|]. reflexivity.
Qed.

Lemma scale10_value m k :
  scale10 m (0 - Z.of_nat k) == inject_Z m / inject_Z (10 ^ Z.of_nat k).
Proof.
  unfold scale10. destruct (Z.leb_spec 0 (0 - Z.of_nat k)) as [H | H].
  - assert (k = 0%nat) by lia. subst k. cbn [Z.of_nat Z.sub Z.opp Z.add Z.pow Z.pow_pos].
    change (10 ^ 0)%Z with 1%Z. rewrite Z.mul_1_r. field.
  - assert (P : (0 < 10 ^ Z.of_nat k)%Z) by (apply Z.pow_pos_nonneg; lia).
    replace (- (0 - Z.of_nat k))%Z with (Z.of_nat k) by lia.
    rewrite Qmake_Qdiv, Z2Pos.id by exact P. reflexivity.
Qed.

(** A numeral is not a blank cell. *)
Lemma numeral_not_blank negative d rest :
  (d < 10)%nat ->
  String.eqb (signText negative ++ String (digitChar d) rest) "" = false
  /\ String.eqb (signText negative ++ String (digitChar d) rest) ".." = false.
Proof.
  intros Hd. destruct negative; [split; reflexivity|].
  cbn [signText append]. each_digit d Hd; split; reflexivity.
Qed.

(** [coerceNumber] on a numeral [sign digit rest], whatever it parses as. *)
Lemma coerceNumber_numeral negative d rest q :
  (d < 10)%nat -> plainRest rest -> noSpaces rest ->
  readUnsignedDecimal (String (digitChar d) rest) = Some q ->
  Csv.coerceNumber (Some (signText negative ++ String (digitChar d) rest))
  = Some (signed negative q).
Proof.
  intros Hd Hrest Hns Hq. unfold Csv.coerceNumber.
  pose proof (digit_not_space d Hd) as Hd'.
  rewrite trim_noSpaces.
  2:{ destruct negative; simpl; repeat split; assumption. }
  destruct (numeral_not_blank negative d rest Hd) as [-> ->]. cbn [orb].
  destruct negative; cbn [signText append signed].
  - rewrite (parseNumber_negative d rest Hd Hns), Hq. reflexivity.
  - rewrite (parseNumber_unsigned d rest Hd Hrest Hns), Hq. reflexivity.
Qed.

End NumeralFacts.

(** X3.  A cell that holds a decimal numeral with at most fifteen digits
    before the period, with or without a fraction and a minus sign, is
    coerced to a number and not to null.  With numbers as exact rationals
    that number is the one the numeral denotes; the code returns the double
    nearest to it, which for a numeral without a fraction is the denoted
    number itself. *)
Theorem X3_coerceNumber_reads_decimals :
  forall (negative : bool) (whole fraction : list nat),
    whole <> [] -> NumeralSpec.areDigits whole -> NumeralSpec.areDigits fraction ->
    (List.length whole <= 15)%nat ->
    (exists q,
        Csv.coerceNumber
          (Some (NumeralSpec.signText negative ++ NumeralSpec.digitsText whole)) = Some q
        /\ q == NumeralSpec.signed negative (inject_Z (NumeralSpec.digitsValue 0 whole)))
    /\ (exists q,
          Csv.coerceNumber (Some (NumeralSpec.decimalText negative whole fraction)) = Some q
          /\ q == NumeralSpec.decimalValue negative whole fraction).
Proof.
  intros negative whole fraction Hne Hw Hf _.
  pose proof (NumeralFacts.readUnsignedDecimal_whole whole Hne Hw) as E1.
  pose proof (NumeralFacts.readUnsignedDecimal_fraction whole fraction Hne Hw Hf) as E2.
  unfold NumeralSpec.decimalText, NumeralSpec.decimalValue.
  destruct whole as [|d r]; [contradiction|]. inversion Hw as [|? ? Hd Hr]; subst.
  cbn [NumeralSpec.digitsText append] in *. split.
  - eexists. split.
    + apply NumeralFacts.coerceNumber_numeral; [exact Hd | | | exact E1].
      * rewrite <- (NumeralFacts.append_empty (NumeralSpec.digitsText r)).
        apply NumeralFacts.plainRest_digits; [exact Hr | now left].
      * apply NumeralFacts.noSpaces_digits, Hr.
    + pose proof (NumeralFacts.scale10_value (NumeralSpec.digitsValue 0 (d :: r)) 0) as S.
      change (0 - Z.of_nat 0)%Z with 0%Z in S. change (10 ^ Z.of_nat 0)%Z with 1%Z in S.
      destruct negative; cbn [NumeralSpec.signed]; rewrite S; field.
  - eexists. split.
    + apply NumeralFacts.coerceNumber_numeral; [exact Hd | | | exact E2].
      * apply NumeralFacts.plainRest_digits; [exact Hr | right; eexists; reflexivity].
      * apply NumeralFacts.noSpaces_app; [apply NumeralFacts.noSpaces_digits, Hr|].
        split; [reflexivity | apply NumeralFacts.noSpaces_digits, Hf].
    + destruct negative; cbn [NumeralSpec.signed]; rewrite NumeralFacts.scale10_value;
        reflexivity.
Qed.

(** The cell "-12.50". *)
Lemma X3_witness :
  exists q,
    Csv.coerceNumber (Some (NumeralSpec.decimalText true [1; 2] [5; 0])%nat) = Some q
    /\ q == NumeralSpec.decimalValue true [1; 2]%nat [5; 0]%nat.
Proof.
  apply (X3_coerceNumber_reads_decimals true [1; 2]%nat [5; 0]%nat).
  - discriminate.
  - repeat constructor.
  - repeat constructor.
  - simpl. lia.
Defined.


Module YearFacts.
Import Js NumeralSpec NumeralFacts.

Lemma floor_of_decimal whole fraction :
  areDigits whole -> areDigits fraction ->
  Qfloor (scale10 (digitsValue 0 (whole ++ fraction)) (0 - Z.of_nat (List.length fraction)))
  = digitsValue 0 whole.
Proof.
  intros Hw Hf. rewrite (Qfloor_comp _ _ (scale10_value _ _)), <- Zdiv_Qdiv.
  rewrite digitsValue_app.
  destruct (digitsValue_bounds fraction Hf (digitsValue 0 whole)) as [E B].
  rewrite E. symmetry.
  apply (Z.div_unique_pos _ _ _ (digitsValue 0 fraction)); [|ring].
  destruct (digitsValue_bounds fraction Hf 0) as [_ B']. exact B'.
Qed.

Lemma parseNumber_period d r tail :
  (d < 10)%nat -> areDigits r -> areDigits tail ->
  parseNumber (String (digitChar d) (digitsText r ++ "." ++ digitsText tail))
  = Finite (scale10 (digitsValue 0 ((d :: r) ++ tail)) (0 - Z.of_nat (List.length tail))).
Proof.
  intros Hd Hr Ht. rewrite parseNumber_unsigned.
  - change (String (digitChar d) (digitsText r ++ "." ++ digitsText tail))
      with (digitsText (d :: r) ++ "." ++ digitsText tail).
    rewrite readUnsignedDecimal_fraction; [reflexivity | discriminate | | exact Ht].
    constructor; assumption.
  - exact Hd.
  - apply plainRest_digits; [exact Hr | right; eexists; reflexivity].
  - apply noSpaces_app; [apply noSpaces_digits, Hr|].
    split; [reflexivity | apply noSpaces_digits, Ht].
Qed.

End YearFacts.

(** X4.  The year of a period written as at most nine digits, a period
    and at most six digits, such as "2020.03", is the number the digits
    before the period denote.  (Within these lengths the double the code
    reads lies below the next whole number, so that [Math.floor] gives the
    same year.) *)
Theorem X4_deriveYear_whole_part :
  forall whole fraction : list nat,
    whole <> [] -> NumeralSpec.areDigits whole -> NumeralSpec.areDigits fraction ->
    (List.length whole <= 9)%nat -> (List.length fraction <= 6)%nat ->
    Csv.deriveYear (NumeralSpec.decimalText false whole fraction)
    = inject_Z (NumeralSpec.digitsValue 0 whole).
Proof.
  intros whole fraction Hne Hw Hf _ _. unfold Csv.deriveYear.
  destruct whole as [|d r]; [contradiction|]. inversion Hw as [|? ? Hd Hr]; subst.
  change (NumeralSpec.decimalText false (d :: r) fraction)
    with (String (NumeralSpec.digitChar d)
            (NumeralSpec.digitsText r ++ "." ++ NumeralSpec.digitsText fraction)).
  rewrite (YearFacts.parseNumber_period d r fraction Hd Hr Hf).
  unfold Js.floor. f_equal. apply YearFacts.floor_of_decimal; [constructor|]; assumption.
Qed.

(** The period "2020.03". *)
Lemma X4_witness :
  Csv.deriveYear (NumeralSpec.decimalText false [2; 0; 2; 0] [0; 3])%nat
  = inject_Z (NumeralSpec.digitsValue 0 [2; 0; 2; 0]%nat).
Proof.
  apply X4_deriveYear_whole_part;
    [discriminate | repeat constructor | repeat constructor | simpl; lia | simpl; lia].
Defined.
(** ** The indexes of the model *)

Module ModelFacts.
Import Js ModelSpec MapFacts.

Section StringMaps.
Context {V : Type}.

Lemma get_update_same (k : string) (f : V -> V) m :
  mapGet String.eqb k (mapUpdate String.eqb k f m) = option_map f (mapGet String.eqb k m).
Proof.
  induction m as [|[k' v] r IH]; simpl; [reflexivity|].
  destruct (String.eqb k' k) eqn:E; simpl; rewrite E; [reflexivity | exact IH].
Qed.

Lemma get_update_other (k1 k : string) (f : V -> V) m :
  k1 <> k -> mapGet String.eqb k (mapUpdate String.eqb k1 f m) = mapGet String.eqb k m.
Proof.
  intros Hne. induction m as [|[k' v] r IH]; simpl; [reflexivity|].
  destruct (String.eqb k' k1) eqn:E; simpl.
  - apply String.eqb_eq in E. subst k'. apply String.eqb_neq in Hne. now rewrite Hne.
  - destruct (String.eqb k' k); [reflexivity | exact IH].
Qed.

Lemma update_keys (k : string) (f : V -> V) m :
  mapKeys (mapUpdate String.eqb k f m) = mapKeys m.
Proof.
  unfold mapKeys. induction m as [|[k' v] r IH]; simpl; [reflexivity|].
  destruct (String.eqb k' k); simpl; [reflexivity | now rewrite IH].
Qed.

Lemma has_iff_key (k : string) (m : list (string * V)) :
  mapHas String.eqb k m = true <-> In k (mapKeys m).
Proof.
  unfold mapHas, mapKeys. induction m as [|[k' v] r IH]; simpl; [split; [discriminate | tauto]|].
  destruct (String.eqb k' k) eqn:E.
  - apply String.eqb_eq in E. split; [now left | reflexivity].
  - apply String.eqb_neq in E. rewrite IH. split; [now right | intros [H | H]; [contradiction | exact H]].
Qed.

Lemma set_fresh_keys (k : string) (v : V) m :
  mapHas String.eqb k m = false -> mapKeys (mapSet String.eqb k v m) = (mapKeys m ++ [k])%list.
Proof.
  unfold mapHas, mapKeys. induction m as [|[k' v'] r IH]; simpl; [reflexivity|].
  destruct (String.eqb k' k); [discriminate|]. intros H. simpl. now rewrite IH.
Qed.

Lemma set_fresh_entries (k : string) (v : V) m :
  mapHas String.eqb k m = false -> mapSet String.eqb k v m = (m ++ [(k, v)])%list.
Proof.
  unfold mapHas. induction m as [|[k' v'] r IH]; simpl; [reflexivity|].
  destruct (String.eqb k' k); [discriminate|]. intros H. now rewrite IH.
Qed.

(** Making sure of a key, then changing what it holds. *)
Definition ensure (k : string) (v : V) (m : list (string * V)) : list (string * V) :=
  if mapHas String.eqb k m then m else mapSet String.eqb k v m.

Lemma ensure_keys_nodup k v m : NoDup (mapKeys m) -> NoDup (mapKeys (ensure k v m)).
Proof.
  intros H. unfold ensure. destruct (mapHas String.eqb k m) eqn:E; [exact H|].
  rewrite (set_fresh_keys k v m E).
  apply NoDup_app; [exact H | repeat constructor; intros [] |].
  intros x Hx [<- | []]. apply has_iff_key in Hx. congruence.
Qed.

Lemma get_ensure_same k v m :
  mapGet String.eqb k (ensure k v m)
  = Some match mapGet String.eqb k m with Some old => old | None => v end.
Proof.
  unfold ensure, mapHas. destruct (mapGet String.eqb k m) eqn:E; [exact E|].
  apply get_set_same.
Qed.

Lemma get_ensure_other k1 k v m :
  k1 <> k -> mapGet String.eqb k (ensure k1 v m) = mapGet String.eqb k m.
Proof.
  intros Hne. unfold ensure. destruct (mapHas String.eqb k1 m); [reflexivity|].
  now apply get_set_other.
Qed.

End StringMaps.

(** *** Filing records under a key *)

Section Filing.
Variable keyOf : Csv.DataRecord -> string.

Lemma pushInto_ensure m record :
  CsvModel.pushInto keyOf m record
  = mapUpdate String.eqb (keyOf record) (fun bucket => (bucket ++ [record])%list)
      (ensure (keyOf record) [] m).
Proof. reflexivity. Qed.

Lemma get_pushInto k m record :
  mapGet String.eqb k (CsvModel.pushInto keyOf m record)
  = if String.eqb (keyOf record) k
    then Some (match mapGet String.eqb k m with Some old => old | None => [] end ++ [record])%list
    else mapGet String.eqb k m.
Proof.
  rewrite pushInto_ensure. destruct (String.eqb (keyOf record) k) eqn:E.
  - apply String.eqb_eq in E. subst k. now rewrite get_update_same, get_ensure_same.
  - apply String.eqb_neq in E. now rewrite get_update_other, get_ensure_other.
Qed.

(** The bucket of [k] after filing [records] on top of [m]. *)
Lemma get_filed k records : forall m,
  mapGet String.eqb k (fold_left (CsvModel.pushInto keyOf) records m)
  = match mapGet String.eqb k m, filedUnder keyOf k records with
    | None, [] => None
    | None, bucket => Some bucket
    | Some old, bucket => Some (old ++ bucket)%list
    end.
Proof.
  unfold filedUnder. induction records as [|record rest IH]; intros m.
  - simpl. destruct (mapGet String.eqb k m); [now rewrite app_nil_r | reflexivity].
  - cbn [fold_left filter]. rewrite IH, get_pushInto.
    destruct (String.eqb (keyOf record) k); [|reflexivity].
    destruct (mapGet String.eqb k m) as [old|]; [now rewrite <- app_assoc | reflexivity].
Qed.

Lemma keys_filed_nodup records : forall m,
  NoDup (mapKeys m) ->
  NoDup (mapKeys (fold_left (CsvModel.pushInto keyOf) records m)).
Proof.
  induction records as [|record rest IH]; intros m H; [exact H|].
  cbn [fold_left]. apply IH. rewrite pushInto_ensure, update_keys.
  now apply ensure_keys_nodup.
Qed.

Lemma filed_update k record (m : list (string * list Csv.DataRecord)) :
  In k (mapKeys m) ->
  filed (mapUpdate String.eqb k (fun bucket => (bucket ++ [record])%list) m) = S (filed m).
Proof.
  unfold filed, mapKeys. induction m as [|[k' b] r IH]; simpl; [contradiction|].
  destruct (String.eqb k' k) eqn:E; simpl.
  - intros _. rewrite length_app. simpl. lia.
  - apply String.eqb_neq in E. intros [H | H]; [contradiction|]. rewrite (IH H). lia.
Qed.

Lemma filed_ensure k (m : list (string * list Csv.DataRecord)) :
  filed (ensure k [] m) = filed m /\ In k (mapKeys (ensure k [] m)).
Proof.
  unfold ensure. destruct (mapHas String.eqb k m) eqn:E.
  - split; [reflexivity | now apply has_iff_key].
  - rewrite (set_fresh_entries k [] m E). split.
    + unfold filed. rewrite map_app, list_sum_app. simpl. lia.
    + unfold mapKeys. rewrite map_app. apply in_or_app. right. now left.
Qed.

Lemma filed_count records : forall m,
  filed (fold_left (CsvModel.pushInto keyOf) records m) = (filed m + List.length records)%nat.
Proof.
  induction records as [|record rest IH]; intros m; [simpl; lia|].
  cbn [fold_left List.length]. rewrite IH, pushInto_ensure.
  destruct (filed_ensure (keyOf record) m) as [E Hin].
  rewrite (filed_update _ record _ Hin), E. lia.
Qed.

(** What filing makes of a sequence of records. *)
Lemma filing records :
  (forall k,
      mapGet String.eqb k (fold_left (CsvModel.pushInto keyOf) records [])
      = bucketOf keyOf k records)
  /\ NoDup (mapKeys (fold_left (CsvModel.pushInto keyOf) records []))
  /\ filed (fold_left (CsvModel.pushInto keyOf) records []) = List.length records.
Proof.
  split; [|split].
  - intros k. rewrite get_filed. reflexivity.
  - apply keys_filed_nodup. constructor.
  - rewrite filed_count. reflexivity.
Qed.

End Filing.

End ModelFacts.

(** X5.  [byGroup] and [bySeries] file every record in exactly one
    bucket: the bucket of a key holds the records with that key in their
    original order, a key without records has no bucket, no key has two
    buckets, and the buckets together hold as many records as there are. *)
Theorem X5_buckets_partition_the_records :
  forall records : list Csv.DataRecord,
    ((forall k,
         Js.mapGet String.eqb k (CsvModel.byGroup records)
         = ModelSpec.bucketOf Csv.groupKey k records)
     /\ NoDup (Js.mapKeys (CsvModel.byGroup records))
     /\ ModelSpec.filed (CsvModel.byGroup records) = List.length records)
    /\ ((forall k,
           Js.mapGet String.eqb k (CsvModel.bySeries records)
           = ModelSpec.bucketOf Csv.seriesKey k records)
        /\ NoDup (Js.mapKeys (CsvModel.bySeries records))
        /\ ModelSpec.filed (CsvModel.bySeries records) = List.length records).
Proof.
  intros records. split; apply ModelFacts.filing.
Qed.

(** ** The domains of the model *)

Module DomainFacts.
Import Js ModelSpec.

(** No two members are the same number. *)
Fixpoint distinct (xs : list Q) : Prop :=
  match xs with
  | [] => True
  | x :: r => (forall y, In y r -> ~ y == x) /\ distinct r
  end.

Lemma distinct_snoc xs x :
  distinct xs -> (forall y, In y xs -> ~ y == x) -> distinct (xs ++ [x]).
Proof.
  induction xs as [|z r IH]; simpl; intros H Hx.
  - split; [intros y [] | exact I].
  - destruct H as [Hz Hr]. split.
    + intros y Hy. apply in_app_or in Hy. destruct Hy as [Hy | [<- | []]]; [now apply Hz|].
      intros E. apply (Hx z); [now left | now symmetry].
    + apply IH; [exact Hr | intros y Hy; apply Hx; now right].
Qed.

Lemma setAdd_spec x s :
  distinct s ->
  distinct (CsvModel.setAdd Qeq_bool x s)
  /\ forall y, occurs y (CsvModel.setAdd Qeq_bool x s) <-> occurs y s \/ x == y.
Proof.
  intros Hs. unfold CsvModel.setAdd. destruct (existsb (Qeq_bool x) s) eqn:E.
  - split; [exact Hs|]. intros y. split; [now left|]. intros [H | H]; [exact H|].
    apply existsb_exists in E. destruct E as (z & Hz & Ez). apply Qeq_bool_iff in Ez.
    exists z. split; [exact Hz|]. now rewrite <- Ez.
  - split.
    + apply distinct_snoc; [exact Hs|]. intros y Hy Ey.
      assert (T : existsb (Qeq_bool x) s = true).
      { apply existsb_exists. exists y. split; [exact Hy|]. apply Qeq_bool_iff. now symmetry. }
      congruence.
    + intros y. unfold occurs. split.
      * intros (z & Hz & Ez). apply in_app_or in Hz.
        destruct Hz as [Hz | [<- | []]]; [left; now exists z | now right].
      * intros [(z & Hz & Ez) | H].
        -- exists z. split; [apply in_or_app; now left | exact Ez].
        -- exists x. split; [apply in_or_app; right; now left | exact H].
Qed.

Lemma distinctNumbers_spec numbers : forall s,
  distinct s ->
  distinct (fold_left (fun s x => CsvModel.setAdd Qeq_bool x s) numbers s)
  /\ forall y, occurs y (fold_left (fun s x => CsvModel.setAdd Qeq_bool x s) numbers s)
               <-> occurs y s \/ occurs y numbers.
Proof.
  induction numbers as [|x rest IH]; intros s Hs; cbn [fold_left].
  - split; [exact Hs|]. intros y. split; [now left|]. intros [H | (z & [] & _)]. exact H.
  - destruct (setAdd_spec x s Hs) as [D M]. destruct (IH _ D) as [D' M'].
    split; [exact D'|]. intros y. rewrite M', M. unfold occurs. split.
    + intros [[H | H] | (z & Hz & Ez)];
        [now left | right; exists x; split; [now left | exact H]
        | right; exists z; split; [now right | exact Ez]].
    + intros [H | (z & [<- | Hz] & Ez)];
        [left; now left | left; now right | right; now exists z].
Qed.

(** Sorting distinct numbers puts them in strictly ascending order. *)
Lemma insert_strict x xs :
  Sorted Qlt xs -> (forall y, In y xs -> ~ y == x) ->
  Sorted Qlt (insertBy (fun a b => a - b) x xs).
Proof.
  induction 1 as [|y r Hr IH Hy]; intros Hx; simpl; [repeat constructor|].
  assert (Hne : ~ y == x) by (apply Hx; now left).
  destruct (Qle_bool (x - y) 0) eqn:E.
  - apply Qle_bool_iff in E. constructor; [now constructor|]. constructor.
    destruct (Qlt_le_dec x y) as [L | L]; [exact L|]. exfalso. apply Hne. lra.
  - assert (L : y < x).
    { destruct (Qlt_le_dec y x) as [L | L]; [exact L|]. exfalso.
      assert (T : Qle_bool (x - y) 0 = true) by (apply Qle_bool_iff; lra). congruence. }
    constructor; [apply IH; intros z Hz; apply Hx; now right|].
    destruct r as [|z r']; simpl; [now constructor|].
    destruct (Qle_bool (x - z) 0); constructor; [exact L | now inversion Hy].
Qed.

Lemma sort_distinct xs : distinct xs -> Sorted Qlt (sortBy (fun a b => a - b) xs).
Proof.
  induction xs as [|x r IH]; simpl; [constructor|]. intros [Hx Hr].
  apply insert_strict; [now apply IH|]. intros y Hy. apply Hx.
  now apply MapFacts.sortBy_In in Hy.
Qed.

Lemma domain_spec numbers :
  Sorted Qlt (sortBy (fun a b => a - b) (CsvModel.distinctNumbers numbers))
  /\ forall y, occurs y (sortBy (fun a b => a - b) (CsvModel.distinctNumbers numbers))
               <-> occurs y numbers.
Proof.
  unfold CsvModel.distinctNumbers.
  destruct (distinctNumbers_spec numbers [] I) as [D M]. split; [now apply sort_distinct|].
  intros y. transitivity (occurs y (fold_left (fun s x => CsvModel.setAdd Qeq_bool x s) numbers [])).
  - unfold occurs. split; intros (z & Hz & Ez); exists z; (split; [|exact Ez]);
      apply MapFacts.sortBy_In in Hz || apply MapFacts.sortBy_In; exact Hz.
  - rewrite M. split; [intros [(z & [] & _) | H]; exact H | now right].
Qed.

End DomainFacts.

(** X6.  The [years] and the [months] of the model are the years and the
    months of its records, each once, in strictly ascending order. *)
Theorem X6_domains_are_sorted_and_exact :
  forall records : list Csv.DataRecord,
    (Sorted Qlt (CsvModel.years records)
     /\ forall y, ModelSpec.occurs y (CsvModel.years records)
                  <-> ModelSpec.occurs y (map Csv.year records))
    /\ (Sorted Qlt (CsvModel.months records)
        /\ forall m, ModelSpec.occurs m (CsvModel.months records)
                     <-> ModelSpec.occurs m (map Csv.month records)).
Proof.
  intros records. split; apply DomainFacts.domain_spec.
Qed.

(** ** More on the crossover detector *)

Module DetectorFacts.
Import Js PerCapita CrossoverSpec PresenceSpec.

(** What a step pushes, nothing when it throws. *)
Definition pushed {A : Type} (body : A -> option (list CrossoverPoint)) (x : A)
    : list CrossoverPoint :=
  match body x with
  | Some l => l
  | None => []
  end.

Lemma forEachPush_exact {A : Type} (body : A -> option (list CrossoverPoint)) items :
  (forall x, In x items -> body x <> None) ->
  forall crossings,
    forEachPush body items crossings = Some (crossings ++ flat_map (pushed body) items)%list.
Proof.
  induction items as [|x r IH]; intros Hall crossings; simpl.
  - now rewrite app_nil_r.
  - unfold pushed at 1. destruct (body x) as [l|] eqn:E.
    + rewrite IH by (intros y Hy; apply Hall; now right). now rewrite app_assoc.
    + exfalso. apply (Hall x); [now left | exact E].
Qed.

Lemma forEachPush_throws {A : Type} (body : A -> option (list CrossoverPoint)) items x :
  In x items -> body x = None -> forall crossings, forEachPush body items crossings = None.
Proof.
  intros Hin Hx. induction items as [|y r IH]; intros crossings; [contradiction|].
  simpl. destruct Hin as [<- | Hin]; [now rewrite Hx|].
  destruct (body y); [now apply IH | reflexivity].
Qed.

Lemma flat_map_nil {A B : Type} (f : A -> list B) xs :
  (forall x, In x xs -> f x = []) -> flat_map f xs = [].
Proof.
  induction xs as [|x r IH]; intros H; simpl; [reflexivity|].
  rewrite (H x) by now left. apply IH. intros y Hy. apply H. now right.
Qed.

(** A step either skips or works on four present values. *)
Lemma crossingsAt_cases seriesA seriesB index :
  (1 <= index < List.length (values seriesA))%nat ->
  (List.length (values seriesA) <= List.length (values seriesB))%nat ->
  crossingsAt seriesA seriesB index = Some []
  \/ exists t0 t1 a0 a1 b0 b1,
       samplesAt seriesA seriesB index t0 t1 a0 a1 b0 b1
       /\ crossingsAt seriesA seriesB index
          = Some (crossingsBetween seriesA seriesB t0 t1 a0 a1 b0 b1).
Proof.
  intros Hi Hlen. unfold crossingsAt, samplesAt.
  destruct (nth_error (values seriesA) (index - 1)) as [[t0 va0]|] eqn:EA0; [|now left].
  destruct (nth_error (values seriesA) index) as [[t1 va1]|] eqn:EA1; [|now left].
  cbn [value date]. destruct va0 as [a0|]; [|now left]. destruct va1 as [a1|]; [|now left].
  destruct (nth_error (values seriesB) (index - 1)) as [[d0 vb0]|] eqn:EB0.
  2:{ apply nth_error_None in EB0. lia. }
  cbn [value]. destruct vb0 as [b0|]; [|now left].
  destruct (nth_error (values seriesB) index) as [[d1 vb1]|] eqn:EB1.
  2:{ apply nth_error_None in EB1. lia. }
  cbn [value]. destruct vb1 as [b1|]; [|now left].
  right. exists t0, t1, a0, a1, b0, b1. split; [|reflexivity].
  split; [lia|]. repeat split; eauto.
Qed.

(** The differences of a step keep the series apart. *)
Definition apart (a0 a1 b0 b1 : Q) : Prop :=
  ~ a0 - b0 == 0 /\ 0 <= (a0 - b0) * (a1 - b1).

Lemma crossingsBetween_apart seriesA seriesB t0 t1 a0 a1 b0 b1 :
  apart a0 a1 b0 b1 -> crossingsBetween seriesA seriesB t0 t1 a0 a1 b0 b1 = [].
Proof.
  intros [Hne Hpos]. unfold crossingsBetween, isZero.
  destruct (Qeq_bool (a0 - b0) 0) eqn:E; [apply Qeq_bool_iff in E; contradiction|].
  destruct (isNegative _) eqn:N; [|reflexivity].
  apply CrossoverFacts.isNegative_iff in N. exfalso. apply (Qlt_not_le _ _ N Hpos).
Qed.

Lemma scanPair_apart seriesA seriesB :
  (List.length (values seriesA) <= List.length (values seriesB))%nat ->
  (forall index t0 t1 a0 a1 b0 b1,
      samplesAt seriesA seriesB index t0 t1 a0 a1 b0 b1 -> apart a0 a1 b0 b1) ->
  scanPair seriesA seriesB = Some [].
Proof.
  intros Hlen Hap. unfold scanPair. rewrite forEachPush_exact.
  - rewrite flat_map_nil; [reflexivity|]. intros index Hi. apply in_seq in Hi. unfold pushed.
    destruct (crossingsAt_cases seriesA seriesB index) as [E | (t0 & t1 & a0 & a1 & b0 & b1 & S & E)];
      [lia | exact Hlen | now rewrite E |].
    rewrite E. apply crossingsBetween_apart. exact (Hap _ _ _ _ _ _ _ S).
  - intros index Hi. apply in_seq in Hi. apply CrossoverFacts.crossingsAt_total; [lia | exact Hlen].
Qed.

Lemma pairOf_head s later seriesB : In seriesB later -> pairOf (s :: later) s seriesB.
Proof.
  intros H. apply In_nth_error in H. destruct H as [j Hj].
  exists 0%nat, (S j). repeat split; [lia | exact Hj].
Qed.

Lemma pairOf_tail s later seriesA seriesB :
  pairOf later seriesA seriesB -> pairOf (s :: later) seriesA seriesB.
Proof.
  intros (i & j & Hij & Hi & Hj). exists (S i), (S j). repeat split; [lia | exact Hi | exact Hj].
Qed.

Lemma scanAll_apart n series :
  Forall (fun s => List.length (values s) = n) series ->
  (forall seriesA seriesB index t0 t1 a0 a1 b0 b1,
      pairOf series seriesA seriesB ->
      samplesAt seriesA seriesB index t0 t1 a0 a1 b0 b1 -> apart a0 a1 b0 b1) ->
  forall crossings, scanAll series crossings = Some crossings.
Proof.
  induction 1 as [|s later Hs Hlater IH]; intros Hap crossings; [reflexivity|].
  cbn [scanAll]. rewrite forEachPush_exact.
  - rewrite flat_map_nil.
    + rewrite app_nil_r. apply IH. intros A B index t0 t1 a0 a1 b0 b1 Hp.
      apply Hap. now apply pairOf_tail.
    + intros B HB. unfold pushed. rewrite scanPair_apart; [reflexivity | |].
      * rewrite Forall_forall in Hlater. rewrite Hs, (Hlater B HB). lia.
      * intros index t0 t1 a0 a1 b0 b1. apply Hap. now apply pairOf_head.
  - intros B HB. rewrite scanPair_apart; [discriminate | |].
    + rewrite Forall_forall in Hlater. rewrite Hs, (Hlater B HB). lia.
    + intros index t0 t1 a0 a1 b0 b1. apply Hap. now apply pairOf_head.
Qed.

(** A second series that ends early. *)
Lemma crossingsAt_beyond seriesA seriesB :
  allPresent seriesA -> allPresent seriesB ->
  (List.length (values seriesB) < List.length (values seriesA))%nat ->
  (2 <= List.length (values seriesA))%nat ->
  exists index,
    In index (seq 1 (List.length (values seriesA) - 1))
    /\ crossingsAt seriesA seriesB index = None.
Proof.
  intros HA HB Hlt H2. unfold allPresent in *. rewrite Forall_forall in HA, HB.
  exists (Nat.max 1 (List.length (values seriesB))). split; [apply in_seq; lia|].
  unfold crossingsAt.
  destruct (nth_error (values seriesA) (Nat.max 1 (List.length (values seriesB)) - 1))
    as [prevA|] eqn:EA0.
  2:{ apply nth_error_None in EA0. lia. }
  destruct (nth_error (values seriesA) (Nat.max 1 (List.length (values seriesB))))
    as [currA|] eqn:EA1.
  2:{ apply nth_error_None in EA1. lia. }
  pose proof (HA _ (nth_error_In _ _ EA0)) as P0.
  pose proof (HA _ (nth_error_In _ _ EA1)) as P1.
  destruct (value prevA); [|contradiction]. destruct (value currA); [|contradiction].
  destruct (nth_error (values seriesB) (Nat.max 1 (List.length (values seriesB)) - 1))
    as [prevB|] eqn:EB0; [|reflexivity].
  pose proof (HB _ (nth_error_In _ _ EB0)) as Q0.
  destruct (value prevB); [|contradiction].
  destruct (nth_error (values seriesB) (Nat.max 1 (List.length (values seriesB))))
    as [currB|] eqn:EB1; [|reflexivity].
  assert (L : (Nat.max 1 (List.length (values seriesB)) < List.length (values seriesB))%nat)
    by (apply nth_error_Some; congruence).
  lia.
Qed.

End DetectorFacts.

(** X7.  On time-aligned series the detector reports nothing when, at
    every consecutive sample pair with four present values, the earlier
    difference is not zero and the two differences do not have opposite
    signs: series that stay apart, or touch only at a later sample, have no
    crossover. *)
Theorem X7_no_crossover_when_apart :
  forall series : list PerCapita.SeriesData,
    CrossoverSpec.aligned series ->
    (forall seriesA seriesB index t0 t1 a0 a1 b0 b1,
        CrossoverSpec.pairOf series seriesA seriesB ->
        CrossoverSpec.samplesAt seriesA seriesB index t0 t1 a0 a1 b0 b1 ->
        ~ a0 - b0 == 0 /\ 0 <= (a0 - b0) * (a1 - b1)) ->
    PerCapita.findCrossovers series = Some [].
Proof.
  intros series [n Hn] Hap. unfold PerCapita.findCrossovers.
  apply (DetectorFacts.scanAll_apart n series Hn). exact Hap.
Qed.

(** X8.  The detector walks the samples of the first series of a pair: it
    returns when the second series is at least as long, and when the
    second series is shorter and no value is absent it stops with a
    TypeError, reading past its end. *)
Theorem X8_shorter_second_series_throws :
  forall seriesA seriesB : PerCapita.SeriesData,
    ((List.length (PerCapita.values seriesA) <= List.length (PerCapita.values seriesB))%nat ->
     exists found, PerCapita.findCrossovers [seriesA; seriesB] = Some found)
    /\ (PresenceSpec.allPresent seriesA -> PresenceSpec.allPresent seriesB ->
        (List.length (PerCapita.values seriesB) < List.length (PerCapita.values seriesA))%nat ->
        (2 <= List.length (PerCapita.values seriesA))%nat ->
        PerCapita.findCrossovers [seriesA; seriesB] = None).
Proof.
  intros seriesA seriesB. unfold PerCapita.findCrossovers. cbn [PerCapita.scanAll PerCapita.forEachPush].
  split.
  - intros Hlen. destruct (CrossoverFacts.scanPair_total seriesA seriesB Hlen) as (found & E & _).
    rewrite E. eexists. reflexivity.
  - intros HA HB Hlt H2.
    destruct (DetectorFacts.crossingsAt_beyond seriesA seriesB HA HB Hlt H2) as (index & Hin & E).
    unfold PerCapita.scanPair.
    rewrite (DetectorFacts.forEachPush_throws _ _ index Hin E). reflexivity.
Qed.


(** [3,4] against [1,1] at the times 0 and 1 stay apart. *)
Lemma X7_witness :
  PerCapita.findCrossovers
    [CrossoverSpec.sampled "A" [(0%Z, 3); (1%Z, 4)];
     CrossoverSpec.sampled "B" [(0%Z, 1); (1%Z, 1)]]
  = Some [].
Proof.
  apply X7_no_crossover_when_apart.
  - apply (CrossoverExamples.aligned_pair 2); reflexivity.
  - intros seriesA seriesB index t0 t1 a0 a1 b0 b1 (i & j & Hij & Hi & Hj)
      (H1 & Ha0 & Ha1 & (d0 & Hb0) & (d1 & Hb1)).
    destruct i as [|[|i]]; [| destruct j as [|[|j]]; [lia | lia | destruct j; discriminate]
                           | destruct i; discriminate].
    destruct j as [|[|j]]; [lia | | destruct j; discriminate].
    injection Hi as <-. injection Hj as <-.
    destruct index as [|[|index]]; [lia | | destruct index; discriminate].
    injection Ha0 as _ <-. injection Ha1 as _ <-.
    injection Hb0 as _ <-. injection Hb1 as _ <-.
    split; [intros H; discriminate H | unfold Qle; simpl; lia].
Defined.

(** [1,2] against itself returns; against the single sample [1] the
    detector reads past the end of the second series. *)
Lemma X8_witness :
  (exists found,
     PerCapita.findCrossovers
       [CrossoverSpec.sampled "A" [(0%Z, 1); (1%Z, 2)];
        CrossoverSpec.sampled "B" [(0%Z, 1); (1%Z, 2)]] = Some found)
  /\ PerCapita.findCrossovers
       [CrossoverSpec.sampled "A" [(0%Z, 1); (1%Z, 2)]; CrossoverSpec.sampled "B" [(0%Z, 1)]]
     = None.
Proof.
  split.
  - apply (proj1 (X8_shorter_second_series_throws _ _)). simpl. lia.
  - apply (proj2 (X8_shorter_second_series_throws _ _)).
    + repeat constructor; discriminate.
    + repeat constructor; discriminate.
    + simpl. lia.
    + simpl. lia.
Defined.
(** ** More on smoothing *)

Module RangeFacts.
Import Js SmoothingSpec SmoothingFacts.








End RangeFacts.



(** ** Maps filled one record at a time *)

Module KeyedFacts.
Import Js.

Section Keyed.
Context {V R : Type}.
(** The key a stored value carries, the key a record is filed under,
    which records are filed at all, the value a new key starts with and
    what a record changes in the value of its key. *)
Variable keyOfValue : V -> string.
Variable keyOf : R -> string.
Variable counts : R -> bool.
Variable init : R -> V.
Variable change : R -> V -> V.
Variable step : list (string * V) -> R -> list (string * V).

Hypothesis step_counts : forall m r,
  counts r = true ->
  step m r = mapUpdate String.eqb (keyOf r) (change r) (ModelFacts.ensure (keyOf r) (init r) m).
Hypothesis step_skips : forall m r, counts r = false -> step m r = m.
Hypothesis init_key : forall r, keyOfValue (init r) = keyOf r.
Hypothesis change_key : forall r v, keyOfValue (change r v) = keyOfValue v.

(** Every value is stored under the key it carries. *)
Definition filedBy (m : list (string * V)) : Prop :=
  Forall (fun entry => keyOfValue (snd entry) = fst entry) m.

Lemma update_filedBy k r m : filedBy m -> filedBy (mapUpdate String.eqb k (change r) m).
Proof.
  unfold filedBy. induction 1 as [|[k' p] rest Hp Hr IH]; simpl; [constructor|].
  destruct (String.eqb k' k); constructor; simpl in *; try assumption.
  now rewrite change_key.
Qed.

Lemma ensure_filedBy r m : filedBy m -> filedBy (ModelFacts.ensure (keyOf r) (init r) m).
Proof.
  intros H. unfold ModelFacts.ensure.
  destruct (mapHas String.eqb (keyOf r) m) eqn:E; [exact H|].
  rewrite (ModelFacts.set_fresh_entries _ _ m E). unfold filedBy.
  apply Forall_app. split; [exact H|]. constructor; [apply init_key | constructor].
Qed.

Lemma ensure_keys_In k (v : V) m x :
  In x (mapKeys (ModelFacts.ensure k v m)) <-> In x (mapKeys m) \/ x = k.
Proof.
  unfold ModelFacts.ensure. destruct (mapHas String.eqb k m) eqn:E.
  - split; [now left|]. intros [H | ->]; [exact H | now apply ModelFacts.has_iff_key].
  - rewrite (ModelFacts.set_fresh_keys k v m E), in_app_iff. simpl.
    split.
    + intros [H | [<- | []]]; [now left | now right].
    + intros [H | ->]; [now left | right; now left].
Qed.

Lemma grouped records : forall m,
  NoDup (mapKeys m) -> filedBy m ->
  NoDup (mapKeys (fold_left step records m))
  /\ filedBy (fold_left step records m)
  /\ forall k, In k (mapKeys (fold_left step records m))
               <-> In k (mapKeys m)
                   \/ exists r, In r records /\ counts r = true /\ keyOf r = k.
Proof.
  induction records as [|record rest IH]; intros m Hnd Hf; cbn [fold_left].
  - split; [exact Hnd|]. split; [exact Hf|]. intros k. split; [now left|].
    intros [H | (r & [] & _)]. exact H.
  - destruct (counts record) eqn:Ec.
    + rewrite (step_counts m record Ec).
      destruct (IH (mapUpdate String.eqb (keyOf record) (change record)
                      (ModelFacts.ensure (keyOf record) (init record) m))) as (N & F & M).
      * rewrite ModelFacts.update_keys. now apply ModelFacts.ensure_keys_nodup.
      * apply update_filedBy. now apply ensure_filedBy.
      * split; [exact N|]. split; [exact F|]. intros k.
        rewrite M, ModelFacts.update_keys, ensure_keys_In. split.
        -- intros [[H | ->] | (r & Hr & Er & E)].
           ++ now left.
           ++ right. exists record. split; [now left | now split].
           ++ right. exists r. split; [now right | now split].
        -- intros [H | (r & [<- | Hr] & Er & E)].
           ++ left. now left.
           ++ left. right. now symmetry.
           ++ right. now exists r.
    + rewrite (step_skips m record Ec). destruct (IH m Hnd Hf) as (N & F & M).
      split; [exact N|]. split; [exact F|]. intros k. rewrite M. split.
      * intros [H | (r & Hr & Er & E)]; [now left|].
        right. exists r. split; [now right | now split].
      * intros [H | (r & [<- | Hr] & Er & E)]; [now left | congruence |].
        right. now exists r.
Qed.

Lemma keys_of_values m : filedBy m -> map keyOfValue (mapValues m) = mapKeys m.
Proof.
  unfold filedBy, mapValues, mapKeys. induction 1 as [|[k p] r Hp Hr IH]; simpl;
    [reflexivity|]. simpl in Hp. now rewrite Hp, IH.
Qed.

End Keyed.

End KeyedFacts.

(** ** What the views collect *)

Module SelectionFacts.
Import Js SelectionSpec.

Lemma filter_twice {A : Type} (f g : A -> bool) xs :
  filter g (filter f xs) = filter (fun x => f x && g x) xs.
Proof.
  induction xs as [|x r IH]; simpl; [reflexivity|].
  destruct (f x); simpl; [destruct (g x); now rewrite IH | exact IH].
Qed.

Lemma Sorted_map {A B : Type} (R : B -> B -> Prop) (f : A -> B) xs :
  Sorted (fun a b => R (f a) (f b)) xs -> Sorted R (map f xs).
Proof.
  induction 1 as [|x r Hr IH Hx]; simpl; constructor; [exact IH|].
  destruct Hx; simpl; constructor; assumption.
Qed.

(** *** The points of the spirits unit check *)

(** What one record changes in the point of its period. *)
Definition taken (record : Csv.DataRecord) (point : SpiritsCheck.SpiritsPoint)
    : SpiritsCheck.SpiritsPoint :=
  if String.eqb (Csv.units record) "Litres" then
    {| SpiritsCheck.date := SpiritsCheck.date point;
       SpiritsCheck.period := SpiritsCheck.period point;
       SpiritsCheck.litres := Csv.value record;
       SpiritsCheck.proof := SpiritsCheck.proof point;
       SpiritsCheck.ratio := SpiritsCheck.ratio point |}
  else if String.eqb (Csv.units record) "ProofL" then
    {| SpiritsCheck.date := SpiritsCheck.date point;
       SpiritsCheck.period := SpiritsCheck.period point;
       SpiritsCheck.litres := SpiritsCheck.litres point;
       SpiritsCheck.proof := Csv.value record;
       SpiritsCheck.ratio := SpiritsCheck.ratio point |}
  else point.

Definition blank (record : Csv.DataRecord) : SpiritsCheck.SpiritsPoint :=
  {| SpiritsCheck.date := Csv.date record; SpiritsCheck.period := Csv.period record;
     SpiritsCheck.litres := None; SpiritsCheck.proof := None; SpiritsCheck.ratio := None |}.

Lemma addRecord_ensure byPeriod record :
  SpiritsCheck.addRecord byPeriod record
  = mapUpdate String.eqb (Csv.period record) (taken record)
      (ModelFacts.ensure (Csv.period record) (blank record) byPeriod).
Proof. reflexivity. Qed.

Lemma taken_period record point :
  SpiritsCheck.period (taken record point) = SpiritsCheck.period point.
Proof.
  unfold taken. destruct (String.eqb (Csv.units record) "Litres"); [reflexivity|].
  destruct (String.eqb (Csv.units record) "ProofL"); reflexivity.
Qed.

Lemma byPeriod_spec records :
  NoDup (mapKeys (fold_left SpiritsCheck.addRecord records []))
  /\ KeyedFacts.filedBy SpiritsCheck.period (fold_left SpiritsCheck.addRecord records [])
  /\ forall k, In k (mapKeys (fold_left SpiritsCheck.addRecord records []))
               <-> exists record, In record records /\ Csv.period record = k.
Proof.
  destruct (KeyedFacts.grouped SpiritsCheck.period Csv.period (fun _ => true) blank taken
              SpiritsCheck.addRecord) with (records := records)
                                           (m := @nil (string * SpiritsCheck.SpiritsPoint))
    as (N & F & M).
  - intros m r _. apply addRecord_ensure.
  - discriminate.
  - reflexivity.
  - apply taken_period.
  - constructor.
  - constructor.
  - split; [exact N|]. split; [exact F|]. intros k. rewrite M. split.
    + intros [[] | (r & Hr & _ & E)]. now exists r.
    + intros (r & Hr & E). right. now exists r.
Qed.

Lemma preparePoints_periods records :
  Permutation (map SpiritsCheck.period (SpiritsCheck.preparePoints records))
    (mapKeys (fold_left SpiritsCheck.addRecord (filter isSpirits records) [])).
Proof.
  unfold SpiritsCheck.preparePoints. rewrite map_map. cbn [SpiritsCheck.withRatio SpiritsCheck.period].
  destruct (byPeriod_spec (filter isSpirits records)) as (_ & F & _).
  rewrite <- (KeyedFacts.keys_of_values _ _ F).
  apply Permutation_map, SortFacts.sortBy_perm.
Qed.

End SelectionFacts.

(** X10.  On records that all carry a valid date, [collectSeries]
    returns the three per-head series in the order of [SERIES_LABELS], and
    the points of each are those of the records of the group with that
    label, each once, in ascending order of date. *)
Theorem X10_collectSeries_sorted_selection :
  forall records : list Csv.DataRecord,
    Forall (fun record => DateSpec.valid (Csv.date record) = true) records ->
    map PerCapita.label (PerCapita.collectSeries records) = PerCapita.SERIES_LABELS
    /\ Forall (fun series =>
                 PerCapita.key series = PerCapita.keyForLabel (PerCapita.label series)
                 /\ Permutation (PerCapita.values series)
                      (SelectionSpec.perCapitaPoints (PerCapita.label series) records)
                 /\ Sorted (fun a b => (PerCapita.date a <= PerCapita.date b)%Z)
                      (PerCapita.values series))
         (PerCapita.collectSeries records).
Proof.
  intros records _. split.
  - unfold PerCapita.collectSeries. rewrite map_map. cbn [PerCapita.label]. apply map_id.
  - unfold PerCapita.collectSeries. apply Forall_map, Forall_forall. intros label _.
    cbn [PerCapita.key PerCapita.label PerCapita.values]. split; [reflexivity|].
    rewrite SelectionFacts.filter_twice. split.
    + apply SortFacts.sortBy_perm.
    + apply SortFacts.sortBy_byTime_sorted.
Qed.

(** Two records of beer per head, the later one first. *)
Lemma X10_witness :
  map PerCapita.label (PerCapita.collectSeries SelectionSpec.perHeadRecords)
  = PerCapita.SERIES_LABELS
  /\ Forall (fun series =>
               PerCapita.key series = PerCapita.keyForLabel (PerCapita.label series)
               /\ Permutation (PerCapita.values series)
                    (SelectionSpec.perCapitaPoints (PerCapita.label series)
                       SelectionSpec.perHeadRecords)
               /\ Sorted (fun a b => (PerCapita.date a <= PerCapita.date b)%Z)
                    (PerCapita.values series))
       (PerCapita.collectSeries SelectionSpec.perHeadRecords).
Proof.
  apply X10_collectSeries_sorted_selection.
  repeat (apply Forall_cons; [vm_compute; reflexivity|]). apply Forall_nil.
Defined.

(** X11.  On records that all carry a valid date, [preparePoints]
    returns one point for each period that a spirits record of the group
    reports, none for any other period, and the points in ascending order
    of date. *)
Theorem X11_preparePoints_one_point_per_period :
  forall records : list Csv.DataRecord,
    Forall (fun record => DateSpec.valid (Csv.date record) = true) records ->
    NoDup (map SpiritsCheck.period (SpiritsCheck.preparePoints records))
    /\ (forall k,
          In k (map SpiritsCheck.period (SpiritsCheck.preparePoints records))
          <-> exists record,
                In record records /\ SelectionSpec.isSpirits record = true
                /\ Csv.period record = k)
    /\ Sorted (fun a b => (SpiritsCheck.date a <= SpiritsCheck.date b)%Z)
         (SpiritsCheck.preparePoints records).
Proof.
  intros records _.
  pose proof (SelectionFacts.preparePoints_periods records) as P.
  destruct (SelectionFacts.byPeriod_spec (filter SelectionSpec.isSpirits records))
    as (N & _ & M).
  split; [|split].
  - apply (Permutation_NoDup (Permutation_sym P) N).
  - intros k. split.
    + intros H. apply (Permutation_in _ P) in H. apply M in H.
      destruct H as (r & Hr & E). apply filter_In in Hr. now exists r.
    + intros (r & Hr & Hs & E). apply (Permutation_in _ (Permutation_sym P)). apply M.
      exists r. split; [apply filter_In; now split | exact E].
  - unfold SpiritsCheck.preparePoints. apply SelectionFacts.Sorted_map.
    cbn [SpiritsCheck.withRatio SpiritsCheck.date].
    apply (SortFacts.sortBy_byTime_sorted SpiritsCheck.date).
Qed.

(** Two spirits records of different periods, the later one first. *)
Lemma X11_witness :
  NoDup (map SpiritsCheck.period (SpiritsCheck.preparePoints SelectionSpec.spiritsRecords))
  /\ (forall k,
        In k (map SpiritsCheck.period (SpiritsCheck.preparePoints SelectionSpec.spiritsRecords))
        <-> exists record,
              In record SelectionSpec.spiritsRecords /\ SelectionSpec.isSpirits record = true
              /\ Csv.period record = k)
  /\ Sorted (fun a b => (SpiritsCheck.date a <= SpiritsCheck.date b)%Z)
       (SpiritsCheck.preparePoints SelectionSpec.spiritsRecords).
Proof.
  apply X11_preparePoints_one_point_per_period.
  repeat (apply Forall_cons; [vm_compute; reflexivity|]). apply Forall_nil.
Defined.
(** ** The bars of the beer-strength view *)

Module BarFacts.
Import Js ShareSpec BarSpec.

(** A record of the group that adds to a bar. *)
Definition adds (activeKeys : list string) (record : Csv.DataRecord) : bool :=
  match Csv.value record with Some _ => true | None => false end
  && includes (Csv.seriesLabel record) BeerStrength.CATEGORY_LABELS
  && includes (BeerStrength.keyForLabel (Csv.seriesLabel record)) activeKeys.

Definition fresh (host : Host) (byDecade : bool) (record : Csv.DataRecord)
    : BeerStrength.AggregatedBar :=
  {| BeerStrength.key := BeerStrength.barKey host byDecade record;
     BeerStrength.label :=
       BeerStrength.barLabel host byDecade (BeerStrength.barKey host byDecade record);
     BeerStrength.total := 0;
     BeerStrength.values :=
       objFromKeys (map BeerStrength.keyForLabel BeerStrength.CATEGORY_LABELS) 0 |}.

Definition added (record : Csv.DataRecord) (bar : BeerStrength.AggregatedBar)
    : BeerStrength.AggregatedBar :=
  match Csv.value record with
  | Some v =>
      {| BeerStrength.key := BeerStrength.key bar; BeerStrength.label := BeerStrength.label bar;
         BeerStrength.total := BeerStrength.total bar + v;
         BeerStrength.values :=
           objUpdate (BeerStrength.keyForLabel (Csv.seriesLabel record)) (fun sum => sum + v)
             (BeerStrength.values bar) |}
  | None => bar
  end.

Lemma addRecord_adds host byDecade activeKeys bars record :
  adds activeKeys record = true ->
  BeerStrength.addRecord host byDecade activeKeys bars record
  = mapUpdate String.eqb (BeerStrength.barKey host byDecade record) (added record)
      (ModelFacts.ensure (BeerStrength.barKey host byDecade record) (fresh host byDecade record)
         bars).
Proof.
  unfold adds, BeerStrength.addRecord, added, ModelFacts.ensure, fresh.
  destruct (Csv.value record) as [v|]; [|discriminate]. cbn [andb].
  intros H. apply andb_true_iff in H. destruct H as [H1 H2]. now rewrite H1, H2.
Qed.

Lemma addRecord_skips host byDecade activeKeys bars record :
  adds activeKeys record = false ->
  BeerStrength.addRecord host byDecade activeKeys bars record = bars.
Proof.
  unfold adds, BeerStrength.addRecord.
  destruct (Csv.value record) as [v|]; [|reflexivity]. cbn [andb].
  intros H. apply andb_false_iff in H. destruct H as [-> | ->]; [reflexivity|].
  now destruct (negb (includes (Csv.seriesLabel record) BeerStrength.CATEGORY_LABELS)).
Qed.

Lemma added_key record bar : BeerStrength.key (added record bar) = BeerStrength.key bar.
Proof. unfold added. now destruct (Csv.value record). Qed.

Lemma counted_filter activeKeys record :
  counted activeKeys record
  = String.eqb (Csv.groupLabel record) BeerStrength.GROUP_LABEL && adds activeKeys record.
Proof. unfold counted, adds. now rewrite !andb_assoc. Qed.

Lemma bars_spec host byDecade activeKeys records :
  let bars := fold_left (BeerStrength.addRecord host byDecade activeKeys) records [] in
  NoDup (mapKeys bars)
  /\ KeyedFacts.filedBy BeerStrength.key bars
  /\ forall k, In k (mapKeys bars)
               <-> exists record, In record records /\ adds activeKeys record = true
                                  /\ BeerStrength.barKey host byDecade record = k.
Proof.
  destruct (KeyedFacts.grouped BeerStrength.key (BeerStrength.barKey host byDecade)
              (adds activeKeys) (fresh host byDecade) added
              (BeerStrength.addRecord host byDecade activeKeys))
    with (records := records) (m := @nil (string * BeerStrength.AggregatedBar))
    as (N & F & M).
  - intros m r. apply addRecord_adds.
  - intros m r. apply addRecord_skips.
  - reflexivity.
  - apply added_key.
  - constructor.
  - constructor.
  - split; [exact N|]. split; [exact F|]. intros k. rewrite M. split.
    + intros [[] | H]. exact H.
    + intros H. now right.
Qed.

Lemma toShare_key bar : BeerStrength.key (BeerStrength.toShare bar) = BeerStrength.key bar.
Proof. reflexivity. Qed.

Lemma aggregate_keys host records byDecade share activeKeys :
  Permutation
    (map BeerStrength.key (BeerStrength.aggregateRecords host records byDecade share activeKeys))
    (mapKeys (fold_left (BeerStrength.addRecord host byDecade activeKeys)
                (filter (fun record => String.eqb (Csv.groupLabel record) BeerStrength.GROUP_LABEL)
                   records) [])).
Proof.
  set (filtered := filter _ records).
  destruct (bars_spec host byDecade activeKeys filtered) as (_ & F & _).
  rewrite <- (KeyedFacts.keys_of_values _ _ F).
  unfold BeerStrength.aggregateRecords, BeerStrength.orderedBars. fold filtered.
  destruct share.
  - rewrite map_map. rewrite (map_ext _ BeerStrength.key toShare_key).
    apply Permutation_map, SortFacts.sortBy_perm.
  - apply Permutation_map, SortFacts.sortBy_perm.
Qed.

(** *** Category sums *)

(** A bar has the five category keys and its total is the sum of its
    category values. *)
Definition exact (bar : BeerStrength.AggregatedBar) : Prop :=
  map fst (BeerStrength.values bar) = map BeerStrength.keyForLabel BeerStrength.CATEGORY_LABELS
  /\ categorySum bar == BeerStrength.total bar.









End BarFacts.


(** X13.  [aggregateRecords] returns one bar for each year (or decade)
    key of a record it counts and none for any other key: the keys of the
    bars are distinct, with or without the share option. *)
Theorem X13_one_bar_per_counted_key :
  forall (host : Js.Host) (records : list Csv.DataRecord) (byDecade share : bool)
         (activeKeys : list string),
    NoDup (map BeerStrength.key
             (BeerStrength.aggregateRecords host records byDecade share activeKeys))
    /\ forall k,
         In k (map BeerStrength.key
                 (BeerStrength.aggregateRecords host records byDecade share activeKeys))
         <-> exists record,
               In record records /\ BarSpec.counted activeKeys record = true
               /\ BeerStrength.barKey host byDecade record = k.
Proof.
  intros host records byDecade share activeKeys.
  pose proof (BarFacts.aggregate_keys host records byDecade share activeKeys) as P.
  destruct (BarFacts.bars_spec host byDecade activeKeys
              (filter (fun record => String.eqb (Csv.groupLabel record) BeerStrength.GROUP_LABEL)
                 records)) as (N & _ & M).
  split.
  - apply (Permutation_NoDup (Permutation_sym P) N).
  - intros k. split.
    + intros H. apply (Permutation_in _ P) in H. apply M in H.
      destruct H as (r & Hr & Ha & E). apply filter_In in Hr. destruct Hr as [Hr Hg].
      exists r. split; [exact Hr|]. split; [|exact E].
      rewrite BarFacts.counted_filter. now rewrite Hg, Ha.
    + intros (r & Hr & Hc & E). apply (Permutation_in _ (Permutation_sym P)). apply M.
      rewrite BarFacts.counted_filter in Hc. apply andb_true_iff in Hc. destruct Hc as [Hg Ha].
      exists r. split; [apply filter_In; now split | now split].
Qed.
(** ** The cells of the seasonality heatmap *)

Module HeatmapFacts.
Import Js ModelSpec HeatmapSpec.

(** *** Maps with numbers as keys *)

Section NumberKeys.
Context {V : Type}.

Lemma same_key (k k' x : Q) : k == k' -> Qeq_bool x k = Qeq_bool x k'.
Proof.
  intros E. destruct (Qeq_bool x k) eqn:A, (Qeq_bool x k') eqn:B; try reflexivity.
  - apply Qeq_bool_iff in A. assert (T : Qeq_bool x k' = true)
      by (apply Qeq_bool_iff; now rewrite A). congruence.
  - apply Qeq_bool_iff in B. assert (T : Qeq_bool x k = true)
      by (apply Qeq_bool_iff; now rewrite B, E). congruence.
Qed.

Lemma get_same_key (k k' : Q) (m : list (Q * V)) :
  k == k' -> mapGet Qeq_bool k m = mapGet Qeq_bool k' m.
Proof.
  intros E. induction m as [|[x v] r IH]; simpl; [reflexivity|].
  now rewrite (same_key k k' x E), IH.
Qed.

Lemma other_key (k1 k x : Q) :
  Qeq_bool x k1 = true -> Qeq_bool x k = Qeq_bool k1 k.
Proof.
  intros A. apply Qeq_bool_iff in A.
  destruct (Qeq_bool x k) eqn:B, (Qeq_bool k1 k) eqn:C; try reflexivity.
  - apply Qeq_bool_iff in B. assert (T : Qeq_bool k1 k = true)
      by (apply Qeq_bool_iff; now rewrite <- A, B). congruence.
  - apply Qeq_bool_iff in C. assert (T : Qeq_bool x k = true)
      by (apply Qeq_bool_iff; now rewrite A, C). congruence.
Qed.

Lemma both_keys (k1 k x : Q) :
  Qeq_bool x k1 = false -> Qeq_bool x k = true -> Qeq_bool k1 k = false.
Proof.
  intros A B. apply Qeq_bool_iff in B. destruct (Qeq_bool k1 k) eqn:C; [|reflexivity].
  apply Qeq_bool_iff in C. assert (T : Qeq_bool x k1 = true)
    by (apply Qeq_bool_iff; now rewrite B, C). congruence.
Qed.

Lemma get_set (k1 k : Q) (v : V) (m : list (Q * V)) :
  mapGet Qeq_bool k (mapSet Qeq_bool k1 v m)
  = if Qeq_bool k1 k then Some v else mapGet Qeq_bool k m.
Proof.
  induction m as [|[x v'] r IH]; simpl; [reflexivity|].
  destruct (Qeq_bool x k1) eqn:A; simpl.
  - rewrite (other_key k1 k x A). now destruct (Qeq_bool k1 k).
  - rewrite IH. destruct (Qeq_bool x k) eqn:B; [|reflexivity].
    now rewrite (both_keys k1 k x A B).
Qed.

Lemma get_update (k1 k : Q) (f : V -> V) (m : list (Q * V)) :
  mapGet Qeq_bool k (mapUpdate Qeq_bool k1 f m)
  = if Qeq_bool k1 k then option_map f (mapGet Qeq_bool k m) else mapGet Qeq_bool k m.
Proof.
  induction m as [|[x v'] r IH]; simpl; [now destruct (Qeq_bool k1 k)|].
  destruct (Qeq_bool x k1) eqn:A; simpl.
  - rewrite (other_key k1 k x A). now destruct (Qeq_bool k1 k).
  - rewrite IH. destruct (Qeq_bool x k) eqn:B; [|reflexivity].
    now rewrite (both_keys k1 k x A B).
Qed.

Lemma update_number_keys (k : Q) (f : V -> V) (m : list (Q * V)) :
  mapKeys (mapUpdate Qeq_bool k f m) = mapKeys m.
Proof.
  unfold mapKeys. induction m as [|[x v] r IH]; simpl; [reflexivity|].
  destruct (Qeq_bool x k); simpl; [reflexivity | now rewrite IH].
Qed.

Lemma has_occurs (k : Q) (m : list (Q * V)) :
  mapHas Qeq_bool k m = true <-> occurs k (mapKeys m).
Proof.
  unfold mapHas, mapKeys, occurs. induction m as [|[x v] r IH]; simpl.
  - split; [discriminate | intros (y & [] & _)].
  - destruct (Qeq_bool x k) eqn:A.
    + split; [|reflexivity]. intros _. exists x. split; [now left | now apply Qeq_bool_iff].
    + rewrite IH. split.
      * intros (y & Hy & E). exists y. split; [now right | exact E].
      * intros (y & [<- | Hy] & E); [|now exists y].
        apply Qeq_bool_iff in E. congruence.
Qed.

Lemma set_fresh (k : Q) (v : V) (m : list (Q * V)) :
  mapHas Qeq_bool k m = false -> mapSet Qeq_bool k v m = (m ++ [(k, v)])%list.
Proof.
  unfold mapHas. induction m as [|[x v'] r IH]; simpl; [reflexivity|].
  destruct (Qeq_bool x k); [discriminate|]. intros H. now rewrite IH.
Qed.

End NumberKeys.

(** *** One record *)

(** The months of year [y] and their sums, as [prepareCells] reads them. *)
Definition innerOf (y : Q) (byYear : list (Q * Seasonality.MonthSums)) : Seasonality.MonthSums :=
  match mapGet Qeq_bool y byYear with Some m => m | None => [] end.

(** What a record with the value [v] changes in the months of its year. *)
Definition summed (record : Csv.DataRecord) (v : Q) (inner : Seasonality.MonthSums)
    : Seasonality.MonthSums :=
  mapSet Qeq_bool (Csv.month record)
    (match mapGet Qeq_bool (Csv.month record) inner with Some sum => sum | None => 0 end + v)
    inner.

Definition ensured (y : Q) (byYear : list (Q * Seasonality.MonthSums))
    : list (Q * Seasonality.MonthSums) :=
  if mapHas Qeq_bool y byYear then byYear else mapSet Qeq_bool y [] byYear.

Lemma addRecord_valued byYear record v :
  Csv.value record = Some v ->
  Seasonality.addRecord byYear record
  = mapUpdate Qeq_bool (Csv.year record) (summed record v) (ensured (Csv.year record) byYear).
Proof. intros E. unfold Seasonality.addRecord. now rewrite E. Qed.

Lemma addRecord_absent byYear record :
  Csv.value record = None -> Seasonality.addRecord byYear record = byYear.
Proof. intros E. unfold Seasonality.addRecord. now rewrite E. Qed.

Lemma get_ensured y k byYear :
  mapGet Qeq_bool k (ensured y byYear)
  = if Qeq_bool y k then Some (innerOf k byYear) else mapGet Qeq_bool k byYear.
Proof.
  unfold ensured, innerOf, mapHas. destruct (mapGet Qeq_bool y byYear) as [inner|] eqn:E.
  - destruct (Qeq_bool y k) eqn:A; [|reflexivity]. apply Qeq_bool_iff in A.
    now rewrite <- (get_same_key y k byYear A), E.
  - rewrite get_set. destruct (Qeq_bool y k) eqn:A; [|reflexivity]. apply Qeq_bool_iff in A.
    now rewrite <- (get_same_key y k byYear A), E.
Qed.

Lemma inner_added byYear record v y :
  Csv.value record = Some v ->
  innerOf y (Seasonality.addRecord byYear record)
  = if Qeq_bool (Csv.year record) y then summed record v (innerOf y byYear)
    else innerOf y byYear.
Proof.
  intros E. rewrite (addRecord_valued byYear record v E). unfold innerOf at 1.
  rewrite get_update, get_ensured. destruct (Qeq_bool (Csv.year record) y); reflexivity.
Qed.

Lemma get_summed record v inner m :
  mapGet Qeq_bool m (summed record v inner)
  = if Qeq_bool (Csv.month record) m
    then Some (match mapGet Qeq_bool m inner with Some sum => sum | None => 0 end + v)
    else mapGet Qeq_bool m inner.
Proof.
  unfold summed. rewrite get_set. destruct (Qeq_bool (Csv.month record) m) eqn:A; [|reflexivity].
  apply Qeq_bool_iff in A. now rewrite (get_same_key _ _ inner A).
Qed.

Lemma totalOf_sum (inner : Seasonality.MonthSums) :
  Seasonality.totalOf inner == fold_right Qplus 0 (mapValues inner).
Proof.
  unfold Seasonality.totalOf. now rewrite SmoothingFacts.fold_left_sum, Qplus_0_l.
Qed.

Lemma summed_total record v inner :
  Seasonality.totalOf (summed record v inner) == Seasonality.totalOf inner + v.
Proof.
  rewrite !totalOf_sum. unfold summed, mapValues.
  induction inner as [|[k x] r IH]; simpl; [ring|].
  destruct (Qeq_bool k (Csv.month record)); simpl; [ring|].
  rewrite IH. ring.
Qed.

(** *** All records *)

Lemma amounts_app xs ys : amounts (xs ++ ys) = (amounts xs ++ amounts ys)%list.
Proof. unfold amounts. apply flat_map_app. Qed.

Lemma total_snoc values v : total (values ++ [v]) = total values + v.
Proof. unfold total. now rewrite fold_left_app. Qed.

Lemma sumOrNull_snoc values v :
  sumOrNull (values ++ [v])
  = Some (match sumOrNull values with Some sum => sum | None => 0 end + v).
Proof.
  unfold sumOrNull. destruct values as [|x r]; [reflexivity|].
  change ((x :: r) ++ [v])%list with (x :: (r ++ [v]))%list.
  cbv iota. now rewrite <- total_snoc.
Qed.

(** The values of year [y], and of month [m] of year [y], among records
    of one series. *)
Definition yearly (y : Q) (records : list Csv.DataRecord) : list Q :=
  amounts (filter (fun record => Qeq_bool (Csv.year record) y) records).

Definition quarterly (y m : Q) (records : list Csv.DataRecord) : list Q :=
  amounts (filter (fun record => Qeq_bool (Csv.year record) y && Qeq_bool (Csv.month record) m)
             records).

Lemma filter_snoc {A : Type} (f : A -> bool) xs x :
  filter f (xs ++ [x]) = (filter f xs ++ (if f x then [x] else []))%list.
Proof. rewrite filter_app. reflexivity. Qed.

Lemma amounts_valued record v : Csv.value record = Some v -> amounts [record] = [v].
Proof. intros E. unfold amounts. cbn [flat_map]. now rewrite E. Qed.

Lemma amounts_absent record : Csv.value record = None -> amounts [record] = [].
Proof. intros E. unfold amounts. cbn [flat_map]. now rewrite E. Qed.

Lemma amounts_kept (f : Csv.DataRecord -> bool) rest record :
  Csv.value record = None ->
  amounts (filter f (rest ++ [record])) = amounts (filter f rest).
Proof.
  intros E. rewrite filter_snoc, amounts_app.
  destruct (f record); [rewrite (amounts_absent _ E) | ]; apply app_nil_r.
Qed.

Lemma amounts_added (f : Csv.DataRecord -> bool) rest record v :
  Csv.value record = Some v ->
  amounts (filter f (rest ++ [record]))
  = if f record then (amounts (filter f rest) ++ [v])%list else amounts (filter f rest).
Proof.
  intros E. rewrite filter_snoc, amounts_app.
  destruct (f record); [now rewrite (amounts_valued _ _ E) | apply app_nil_r].
Qed.

Lemma sums records :
  let byYear := fold_left Seasonality.addRecord records [] in
  (forall y m, mapGet Qeq_bool m (innerOf y byYear) = sumOrNull (quarterly y m records))
  /\ (forall y, Seasonality.totalOf (innerOf y byYear) == total (yearly y records)).
Proof.
  cbv zeta. induction records as [|record rest [IHq IHy]] using rev_ind.
  - split; intros; reflexivity.
  - rewrite fold_left_app. cbn [fold_left]. unfold quarterly, yearly in *.
    destruct (Csv.value record) as [v|] eqn:E.
    + split.
      * intros y m. rewrite (inner_added _ _ v y E), (amounts_added _ _ _ v E).
        destruct (Qeq_bool (Csv.year record) y); cbn [andb]; [|apply IHq].
        rewrite get_summed, IHq.
        destruct (Qeq_bool (Csv.month record) m); [|reflexivity].
        apply eq_sym, sumOrNull_snoc.
      * intros y. rewrite (inner_added _ _ v y E), (amounts_added _ _ _ v E).
        destruct (Qeq_bool (Csv.year record) y); [|apply IHy].
        now rewrite summed_total, IHy, total_snoc.
    + rewrite (addRecord_absent _ _ E). split.
      * intros y m. rewrite (amounts_kept _ _ _ E). apply IHq.
      * intros y. rewrite (amounts_kept _ _ _ E). apply IHy.
Qed.

Lemma ensured_keys y (byYear : list (Q * Seasonality.MonthSums)) :
  DomainFacts.distinct (mapKeys byYear) ->
  DomainFacts.distinct (mapKeys (ensured y byYear))
  /\ forall k, occurs k (mapKeys (ensured y byYear)) <-> occurs k (mapKeys byYear) \/ y == k.
Proof.
  intros D. unfold ensured. destruct (mapHas Qeq_bool y byYear) eqn:E.
  - split; [exact D|]. intros k. split; [now left|]. intros [H | H]; [exact H|].
    apply has_occurs in E. destruct E as (z & Hz & Ez). exists z. split; [exact Hz|].
    now rewrite Ez.
  - rewrite (set_fresh y [] byYear E). unfold mapKeys. rewrite map_app. cbn [map fst]. split.
    + apply DomainFacts.distinct_snoc; [exact D|]. intros z Hz Ez.
      assert (T : mapHas Qeq_bool y byYear = true)
        by (apply has_occurs; exists z; split; [exact Hz | exact Ez]).
      congruence.
    + intros k. unfold occurs. split.
      * intros (z & Hz & Ez). apply in_app_or in Hz.
        destruct Hz as [Hz | [<- | []]]; [left; now exists z | now right].
      * intros [(z & Hz & Ez) | H].
        -- exists z. split; [apply in_or_app; now left | exact Ez].
        -- exists y. split; [apply in_or_app; right; now left | exact H].
Qed.

Lemma years_spec records :
  let byYear := fold_left Seasonality.addRecord records [] in
  DomainFacts.distinct (mapKeys byYear)
  /\ forall y, occurs y (mapKeys byYear)
               <-> exists record v,
                     In record records /\ Csv.value record = Some v /\ Csv.year record == y.
Proof.
  cbv zeta. induction records as [|record rest [D M]] using rev_ind.
  - split; [exact I|]. intros y. split; [intros (z & [] & _) | intros (r & v & [] & _)].
  - rewrite fold_left_app. cbn [fold_left]. destruct (Csv.value record) as [v|] eqn:E.
    + rewrite (addRecord_valued _ _ v E), update_number_keys.
      destruct (ensured_keys (Csv.year record) _ D) as [D' M']. split; [exact D'|].
      intros y. rewrite M', M. split.
      * intros [(r & w & Hr & Ew & Ey) | H].
        -- exists r, w. split; [apply in_or_app; now left | now split].
        -- exists record, v. split; [apply in_or_app; right; now left | now split].
      * intros (r & w & Hr & Ew & Ey). apply in_app_or in Hr.
        destruct Hr as [Hr | [<- | []]]; [left; now exists r, w | now right].
    + rewrite (addRecord_absent _ _ E). split; [exact D|]. intros y. rewrite M. split.
      * intros (r & w & Hr & Ew & Ey). exists r, w. split; [apply in_or_app; now left | now split].
      * intros (r & w & Hr & Ew & Ey). apply in_app_or in Hr.
        destruct Hr as [Hr | [<- | []]]; [now exists r, w | congruence].
Qed.

(** *** The cells *)

Lemma quarterly_selected g s y m records :
  quarterly y m (filter (Seasonality.selected g s) records)
  = amounts (ofQuarter g s y m records).
Proof. unfold quarterly, ofQuarter. now rewrite SelectionFacts.filter_twice. Qed.


Lemma Forall_flat_map {A B : Type} (P : B -> Prop) (f : A -> list B) xs :
  (forall x, In x xs -> Forall P (f x)) -> Forall P (flat_map f xs).
Proof.
  induction xs as [|x r IH]; simpl; intros H; [constructor|].
  apply Forall_app. split; [apply H; now left | apply IH; intros y Hy; apply H; now right].
Qed.

Lemma cells_layout byYear normalize years :
  map (fun cell => (Seasonality.year cell, Seasonality.month cell))
    (flat_map (Seasonality.cellsOfYear byYear normalize) years)
  = flat_map (fun y => map (pair y) Seasonality.months) years.
Proof.
  induction years as [|y r IH]; cbn [flat_map]; [reflexivity|].
  rewrite map_app, IH. f_equal.
  unfold Seasonality.cellsOfYear. cbv zeta. rewrite map_map.
  apply map_ext. intros m. now destruct normalize.
Qed.

Lemma raw_cells byYear years :
  Forall (fun cell =>
            Seasonality.value cell
            = mapGet Qeq_bool (Seasonality.month cell) (innerOf (Seasonality.year cell) byYear))
    (flat_map (Seasonality.cellsOfYear byYear false) years).
Proof.
  apply Forall_flat_map. intros y _. unfold Seasonality.cellsOfYear. cbv zeta.
  apply Forall_map, Forall_forall. intros m _. reflexivity.
Qed.


End HeatmapFacts.

(** X14.  The cells of [prepareCells] form a grid: the years that report
    a value for the selected series, each once and in strictly ascending
    order, and for each year four cells, for the months 3, 6, 9 and 12 in
    that order. *)
Theorem X14_heatmap_grid :
  forall (records : list Csv.DataRecord) (groupLabel seriesLabel : string) (normalize : bool),
    exists years : list Q,
      Sorted Qlt years
      /\ (forall y, ModelSpec.occurs y years
                    <-> HeatmapSpec.reported groupLabel seriesLabel y records)
      /\ map (fun cell => (Seasonality.year cell, Seasonality.month cell))
           (Seasonality.prepareCells records groupLabel seriesLabel normalize)
         = flat_map (fun y => [(y, 3); (y, 6); (y, 9); (y, 12)]) years.
Proof.
  intros records g s normalize.
  destruct (HeatmapFacts.years_spec (filter (Seasonality.selected g s) records)) as [D M].
  exists (Js.sortBy (fun a b => a - b)
            (Js.mapKeys (Seasonality.sumsByYear records g s))).
  split; [|split].
  - apply DomainFacts.sort_distinct. exact D.
  - intros y. unfold HeatmapSpec.reported.
    transitivity (ModelSpec.occurs y (Js.mapKeys (Seasonality.sumsByYear records g s))).
    + unfold ModelSpec.occurs. split; intros (z & Hz & Ez); exists z; (split; [|exact Ez]).
      * now apply MapFacts.sortBy_In in Hz.
      * now apply MapFacts.sortBy_In.
    + unfold Seasonality.sumsByYear. rewrite M. split.
      * intros (r & v & Hr & Ev & Ey). apply filter_In in Hr. destruct Hr as [Hr Hs].
        exists r, v. repeat split; assumption.
      * intros (r & v & Hr & Hs & Ev & Ey). exists r, v.
        split; [apply filter_In; now split | now split].
  - unfold Seasonality.prepareCells. cbv zeta. apply HeatmapFacts.cells_layout.
Qed.

(** X15.  Without normalisation the value of every cell of
    [prepareCells] is the sum of the values that the records of the
    selected series report for the month and the year of the cell, added
    in the order of the records; the value is absent when they report
    none. *)
Theorem X15_heatmap_cells_are_quarter_sums :
  forall (records : list Csv.DataRecord) (groupLabel seriesLabel : string),
    Forall (fun cell =>
              Seasonality.value cell
              = HeatmapSpec.sumOrNull
                  (HeatmapSpec.amounts
                     (HeatmapSpec.ofQuarter groupLabel seriesLabel
                        (Seasonality.year cell) (Seasonality.month cell) records)))
      (Seasonality.prepareCells records groupLabel seriesLabel false).
Proof.
  intros records g s.
  destruct (HeatmapFacts.sums (filter (Seasonality.selected g s) records)) as [Hq _].
  unfold Seasonality.prepareCells. cbv zeta.
  eapply Forall_impl; [|apply HeatmapFacts.raw_cells].
  intros cell E. cbv beta in E. rewrite E. unfold Seasonality.sumsByYear.
  rewrite Hq. now rewrite HeatmapFacts.quarterly_selected.
Qed.

(** ** The points of the long-run view *)

Module LongRunFacts.
Import Js LongRunSpec.

(** A point has the three share keys, in the order of the labels. *)
Definition wellKeyed (point : LongRun.PointShare) : Prop :=
  map fst (LongRun.shares point) = map LongRun.keyForLabel LongRun.SERIES_LABELS.

Lemma objSet_keys k v (o : NumObject) :
  In k (map fst o) -> map fst (objSet k v o) = map fst o.
Proof.
  unfold objSet. induction o as [|[k' x] r IH]; simpl; [intros []|].
  intros H. destruct (String.eqb k' k) eqn:E; simpl; [reflexivity|].
  destruct H as [H | H]; [apply String.eqb_neq in E; contradiction|].
  now rewrite IH.
Qed.

Lemma fresh_keyed d :
  wellKeyed {| LongRun.date := d; LongRun.total := 0;
               LongRun.shares :=
                 objFromKeys (map LongRun.keyForLabel LongRun.SERIES_LABELS) 0 |}.
Proof. unfold wellKeyed. cbn [LongRun.shares]. vm_compute. reflexivity. Qed.

Lemma addRecord_keyed host points record :
  In (Csv.seriesLabel record) LongRun.SERIES_LABELS ->
  Forall wellKeyed (mapValues points) ->
  Forall wellKeyed (mapValues (LongRun.addRecord host LongRun.SERIES_LABELS points record)).
Proof.
  intros Hl H. unfold LongRun.addRecord. cbv zeta.
  assert (E : Forall wellKeyed
                (mapValues
                   (if mapHas String.eqb (LongRun.pointKey host record) points then points
                    else mapSet String.eqb (LongRun.pointKey host record)
                           {| LongRun.date := Csv.date record; LongRun.total := 0;
                              LongRun.shares :=
                                objFromKeys (map LongRun.keyForLabel LongRun.SERIES_LABELS) 0 |}
                           points))).
  { destruct (mapHas String.eqb _ points); [exact H|].
    apply ShareFacts.mapSet_Forall; [apply fresh_keyed | exact H]. }
  destruct (Csv.value record) as [v|]; [|exact E].
  apply ShareFacts.mapUpdate_Forall; [|exact E].
  intros point Hp. unfold wellKeyed in *. cbn [LongRun.shares].
  rewrite objSet_keys; [exact Hp|]. rewrite Hp. now apply in_map.
Qed.

Lemma records_keyed host label records : forall points,
  In label LongRun.SERIES_LABELS ->
  Forall wellKeyed (mapValues points) ->
  Forall wellKeyed
    (mapValues
       (fold_left (LongRun.addRecord host LongRun.SERIES_LABELS)
          (filter (fun record => String.eqb (Csv.seriesLabel record) label) records) points)).
Proof.
  intros points Hl. revert points.
  induction records as [|record rest IH]; intros points H; cbn [filter]; [exact H|].
  destruct (String.eqb (Csv.seriesLabel record) label) eqn:E; [|now apply IH].
  cbn [fold_left]. apply IH. apply addRecord_keyed; [|exact H].
  apply String.eqb_eq in E. now rewrite E.
Qed.

Lemma labels_keyed host records labels : forall points,
  incl labels LongRun.SERIES_LABELS ->
  Forall wellKeyed (mapValues points) ->
  Forall wellKeyed
    (mapValues
       (fold_left
          (fun points label =>
             fold_left (LongRun.addRecord host LongRun.SERIES_LABELS)
               (filter (fun record => String.eqb (Csv.seriesLabel record) label) records) points)
          labels points)).
Proof.
  induction labels as [|label rest IH]; intros points Hl H; cbn [fold_left]; [exact H|].
  apply IH; [intros l Hin; apply Hl; now right|].
  apply records_keyed; [apply Hl; now left | exact H].
Qed.

Lemma collectPoints_keyed host records :
  Forall wellKeyed (mapValues (LongRun.collectPoints host records LongRun.SERIES_LABELS)).
Proof. apply labels_keyed; [apply incl_refl | constructor]. Qed.

Lemma divided_keys total keys : forall o : NumObject,
  map fst (fold_left (LongRun.divideShare total) keys o) = map fst o.
Proof.
  induction keys as [|k r IH]; intros o; cbn [fold_left]; [reflexivity|].
  rewrite IH. apply ShareFacts.objUpdate_keys.
Qed.

Lemma zeroed_keys labels : forall o : NumObject,
  incl (map LongRun.keyForLabel labels) (map fst o) ->
  map fst (fold_left (fun o label => objSet (LongRun.keyForLabel label) 0 o) labels o)
  = map fst o.
Proof.
  induction labels as [|l r IH]; intros o H; cbn [fold_left]; [reflexivity|].
  assert (E : map fst (objSet (LongRun.keyForLabel l) 0 o) = map fst o)
    by (apply objSet_keys, H; now left).
  rewrite IH; [exact E|]. rewrite E. intros k Hk. apply H. now right.
Qed.

Lemma toShares_keyed point : wellKeyed point -> wellKeyed (LongRun.toShares point).
Proof.
  unfold wellKeyed, LongRun.toShares. intros H.
  destruct (isZero (LongRun.total point)); cbn [LongRun.shares].
  - rewrite zeroed_keys; [exact H|]. rewrite H. apply incl_refl.
  - now rewrite divided_keys.
Qed.

Lemma buildPoints_keyed host records : Forall wellKeyed (LongRun.buildPoints host records).
Proof.
  unfold LongRun.buildPoints. apply Forall_map, Forall_forall. intros point Hp.
  apply toShares_keyed. apply MapFacts.sortBy_In in Hp. revert point Hp.
  apply Forall_forall, collectPoints_keyed.
Qed.

Lemma toShares_date point : LongRun.date (LongRun.toShares point) = LongRun.date point.
Proof. unfold LongRun.toShares. now destruct (isZero (LongRun.total point)). Qed.

Lemma buildPoints_sorted host records :
  Sorted (fun a b => (LongRun.date a <= LongRun.date b)%Z) (LongRun.buildPoints host records).
Proof.
  unfold LongRun.buildPoints. apply SelectionFacts.Sorted_map.
  apply SortFacts.Sorted_weaken
    with (R := fun a b => (LongRun.date a <= LongRun.date b)%Z).
  - intros x y. now rewrite !toShares_date.
  - apply SortFacts.sortBy_byTime_sorted.
Qed.

(** *** Totals *)











End LongRunFacts.

(** X17.  On records that all carry a valid date, [buildSeries] returns
    the three series in the order of [SERIES_LABELS], aligned with the
    points: every series has one value for each point, at the date of the
    point, the points are in ascending order of date, and a value is absent
    exactly when the total of its point is 0. *)
Theorem X17_longrun_series_are_aligned :
  forall (host : Js.Host) (records : list Csv.DataRecord),
    Forall (fun record => DateSpec.valid (Csv.date record) = true) records ->
    map LongRun.label (LongRun.buildSeries host records) = LongRun.SERIES_LABELS
    /\ Sorted (fun a b => (LongRun.date a <= LongRun.date b)%Z)
         (LongRun.buildPoints host records)
    /\ Forall (fun series =>
                 LongRun.key series = LongRun.keyForLabel (LongRun.label series)
                 /\ Forall2 (fun point value =>
                               LongRun.pointDate value = LongRun.date point
                               /\ (LongRun.value value = None <-> LongRun.total point == 0))
                      (LongRun.buildPoints host records) (LongRun.values series))
         (LongRun.buildSeries host records).
Proof.
  intros host records _. split; [|split].
  - unfold LongRun.buildSeries. cbv zeta. rewrite map_map. cbn [LongRun.label]. apply map_id.
  - apply LongRunFacts.buildPoints_sorted.
  - unfold LongRun.buildSeries. cbv zeta. apply Forall_map, Forall_forall. intros label Hl.
    cbn [LongRun.key LongRun.label LongRun.values]. split; [reflexivity|].
    pose proof (LongRunFacts.buildPoints_keyed host records) as K.
    induction K as [|point rest Hp _ IH]; cbn [map]; constructor; [|exact IH].
    cbn [LongRun.pointDate LongRun.value]. split; [reflexivity|].
    destruct (Js.isZero (LongRun.total point)) eqn:E.
    + split; [intros _; now apply ShareFacts.isZero_iff | reflexivity].
    + destruct (ShareFacts.objGet_present (LongRun.keyForLabel label) (LongRun.shares point))
        as [share Es].
      { unfold LongRunFacts.wellKeyed in Hp. rewrite Hp. now apply in_map. }
      rewrite Es. split; [discriminate|]. intros Z. apply ShareFacts.isZero_iff in Z. congruence.
Qed.

(** Two records of different series and periods, the later one first. *)
Lemma X17_witness :
  map LongRun.label (LongRun.buildSeries UtcHost.host SelectionSpec.longRunRecords)
  = LongRun.SERIES_LABELS
  /\ Sorted (fun a b => (LongRun.date a <= LongRun.date b)%Z)
       (LongRun.buildPoints UtcHost.host SelectionSpec.longRunRecords)
  /\ Forall (fun series =>
               LongRun.key series = LongRun.keyForLabel (LongRun.label series)
               /\ Forall2 (fun point value =>
                             LongRun.pointDate value = LongRun.date point
                             /\ (LongRun.value value = None <-> LongRun.total point == 0))
                    (LongRun.buildPoints UtcHost.host SelectionSpec.longRunRecords)
                    (LongRun.values series))
       (LongRun.buildSeries UtcHost.host SelectionSpec.longRunRecords).
Proof.
  apply X17_longrun_series_are_aligned.
  repeat (apply Forall_cons; [vm_compute; reflexivity|]). apply Forall_nil.
Defined.

(** ** The series of each group *)

Module LookupFacts.
Import Js.

Section StringKeys.
Context {V : Type}.

Lemma set_present_keys (k : string) (v : V) m :
  mapHas String.eqb k m = true -> mapKeys (mapSet String.eqb k v m) = mapKeys m.
Proof.
  unfold mapHas, mapKeys. induction m as [|[k' v'] r IH]; simpl; [discriminate|].
  destruct (String.eqb k' k); simpl; [reflexivity|]. intros H. now rewrite IH.
Qed.

Lemma set_keys_nodup (k : string) (v : V) m :
  NoDup (mapKeys m) -> NoDup (mapKeys (mapSet String.eqb k v m)).
Proof.
  intros H. destruct (mapHas String.eqb k m) eqn:E.
  - now rewrite (set_present_keys k v m E).
  - pose proof (ModelFacts.ensure_keys_nodup k v m H) as N.
    unfold ModelFacts.ensure in N. now rewrite E in N.
Qed.

Lemma set_keys_In (k : string) (v : V) m x :
  In x (mapKeys (mapSet String.eqb k v m)) <-> In x (mapKeys m) \/ x = k.
Proof.
  destruct (mapHas String.eqb k m) eqn:E.
  - rewrite (set_present_keys k v m E). split; [now left|].
    intros [H | ->]; [exact H | now apply ModelFacts.has_iff_key].
  - pose proof (KeyedFacts.ensure_keys_In k v m x) as M.
    unfold ModelFacts.ensure in M. now rewrite E in M.
Qed.

Lemma In_get (k : string) (v : V) m :
  NoDup (mapKeys m) -> In (k, v) m -> mapGet String.eqb k m = Some v.
Proof.
  unfold mapKeys. induction m as [|[k' v'] r IH]; simpl; [intros _ []|].
  intros N H. inversion N as [|? ? Hk Hr]; subst.
  destruct H as [H | H].
  - injection H as -> ->. now rewrite String.eqb_refl.
  - destruct (String.eqb k' k) eqn:E; [|now apply IH].
    apply String.eqb_eq in E. subst k'. exfalso. apply Hk.
    apply in_map_iff. now exists (k, v).
Qed.

Lemma get_In (k : string) (v : V) m : mapGet String.eqb k m = Some v -> In (k, v) m.
Proof.
  induction m as [|[k' v'] r IH]; simpl; [discriminate|].
  destruct (String.eqb k' k) eqn:E.
  - apply String.eqb_eq in E. subst k'. intros H. injection H as ->. now left.
  - intros H. right. now apply IH.
Qed.

End StringKeys.

Lemma fold_set_map {V W : Type} (f : V -> W) (m : list (string * V)) : forall acc,
  NoDup (mapKeys acc ++ mapKeys m) ->
  fold_left (fun result entry => mapSet String.eqb (fst entry) (f (snd entry)) result) m acc
  = (acc ++ map (fun entry => (fst entry, f (snd entry))) m)%list.
Proof.
  induction m as [|[k v] r IH]; intros acc N; cbn [fold_left map fst snd].
  - now rewrite app_nil_r.
  - assert (Hk : mapHas String.eqb k acc = false).
    { destruct (mapHas String.eqb k acc) eqn:E; [|reflexivity].
      apply ModelFacts.has_iff_key in E. apply NoDup_remove_2 in N.
      exfalso. apply N. apply in_or_app. now left. }
    rewrite (ModelFacts.set_fresh_entries k (f v) acc Hk), IH.
    + now rewrite <- app_assoc.
    + unfold mapKeys in *. rewrite map_app, <- app_assoc. exact N.
Qed.

(** *** The first loop *)

Definition labelled (record : Csv.DataRecord) : bool :=
  (0 <? String.length (trim (Csv.seriesLabel record)))%nat.

Definition noted (record : Csv.DataRecord) (inner : list (string * string))
    : list (string * string) :=
  if labelled record
  then mapSet String.eqb (Csv.seriesLabel record)
         (SeriesLookup.keyForLabel (Csv.seriesLabel record)) inner
  else inner.

Lemma addRecord_noted lookup record :
  SeriesLookup.addRecord lookup record
  = mapUpdate String.eqb (Csv.groupLabel record) (noted record)
      (ModelFacts.ensure (Csv.groupLabel record) [] lookup).
Proof.
  unfold SeriesLookup.addRecord, noted, labelled, ModelFacts.ensure. cbv zeta.
  destruct (0 <? String.length (trim (Csv.seriesLabel record)))%nat; [reflexivity|].
  generalize (if mapHas String.eqb (Csv.groupLabel record) lookup then lookup
              else mapSet String.eqb (Csv.groupLabel record) [] lookup).
  intros m. induction m as [|[k v] r IH]; simpl; [reflexivity|].
  destruct (String.eqb k (Csv.groupLabel record)); [reflexivity | now rewrite <- IH].
Qed.

Lemma labelled_iff record : labelled record = true <-> trim (Csv.seriesLabel record) <> "".
Proof.
  unfold labelled. rewrite LoaderFacts.nonempty_length, negb_true_iff. apply String.eqb_neq.
Qed.

Lemma noted_spec record inner :
  NoDup (mapKeys inner) ->
  NoDup (mapKeys (noted record inner))
  /\ forall l, In l (mapKeys (noted record inner))
               <-> In l (mapKeys inner) \/ (l = Csv.seriesLabel record /\ labelled record = true).
Proof.
  intros N. unfold noted. destruct (labelled record) eqn:E.
  - split; [now apply set_keys_nodup|].
    intros l. rewrite set_keys_In. split.
    + intros [H | H]; [now left | right; now split].
    + intros [H | [H _]]; [now left | now right].
  - split; [exact N|]. intros l. split; [now left|]. intros [H | [_ H]]; [exact H | discriminate].
Qed.

(** *** A map from keys to collections, filled one record at a time *)

Section Collected.
Context {R V : Type}.
(** The key of a record, the item it contributes, whether it contributes
    one, the empty collection, the items of a collection, and what a record
    changes in the collection of its key. *)
Variable keyOf : R -> string.
Variable item : R -> string.
Variable adds : R -> bool.
Variable empty : V.
Variable members : V -> list string.
Variable change : R -> V -> V.
Variable step : list (string * V) -> R -> list (string * V).

Hypothesis step_spec : forall m r,
  step m r = mapUpdate String.eqb (keyOf r) (change r) (ModelFacts.ensure (keyOf r) empty m).
Hypothesis empty_spec : members empty = [].
Hypothesis change_spec : forall r v,
  NoDup (members v) ->
  NoDup (members (change r v))
  /\ forall l, In l (members (change r v)) <-> In l (members v) \/ (l = item r /\ adds r = true).

Definition itemsOf (g : string) (records : list R) (l : string) : Prop :=
  exists r, In r records /\ keyOf r = g /\ item r = l /\ adds r = true.

Lemma get_step m r g :
  mapGet String.eqb g (step m r)
  = if String.eqb (keyOf r) g
    then Some (change r (match mapGet String.eqb g m with Some v => v | None => empty end))
    else mapGet String.eqb g m.
Proof.
  rewrite step_spec. destruct (String.eqb (keyOf r) g) eqn:E.
  - apply String.eqb_eq in E. subst g.
    now rewrite ModelFacts.get_update_same, ModelFacts.get_ensure_same.
  - apply String.eqb_neq in E.
    now rewrite (ModelFacts.get_update_other _ _ _ _ E), (ModelFacts.get_ensure_other _ _ _ _ E).
Qed.

Lemma collected records :
  NoDup (mapKeys (fold_left step records []))
  /\ (forall g, In g (mapKeys (fold_left step records []))
                <-> exists r, In r records /\ keyOf r = g)
  /\ forall g v, mapGet String.eqb g (fold_left step records []) = Some v ->
       NoDup (members v) /\ forall l, In l (members v) <-> itemsOf g records l.
Proof.
  induction records as [|record rest (N & G & I)] using rev_ind.
  - split; [constructor|]. split; [|discriminate].
    intros g. split; [intros [] | intros (r & [] & _)].
  - rewrite fold_left_app. cbn [fold_left]. split; [|split].
    + rewrite step_spec, ModelFacts.update_keys. now apply ModelFacts.ensure_keys_nodup.
    + intros g. rewrite step_spec, ModelFacts.update_keys, KeyedFacts.ensure_keys_In, G.
      split.
      * intros [(r & Hr & E) | ->].
        -- exists r. split; [apply in_or_app; now left | exact E].
        -- exists record. split; [apply in_or_app; right; now left | reflexivity].
      * intros (r & Hr & E). apply in_app_or in Hr.
        destruct Hr as [Hr | [<- | []]]; [left; now exists r | now right].
    + intros g v. rewrite get_step.
      destruct (String.eqb (keyOf record) g) eqn:E.
      * apply String.eqb_eq in E. intros H. injection H as <-.
        assert (Old : NoDup (members (match mapGet String.eqb g (fold_left step rest []) with
                                      | Some v => v | None => empty end))
                      /\ forall l, In l (members (match mapGet String.eqb g
                                                          (fold_left step rest []) with
                                                  | Some v => v | None => empty end))
                                   <-> itemsOf g rest l).
        { destruct (mapGet String.eqb g (fold_left step rest [])) as [old|] eqn:Eo.
          - now apply I.
          - rewrite empty_spec. split; [constructor|]. intros l. split; [intros []|].
            intros (r & Hr & Eg & _). exfalso.
            assert (K : In g (mapKeys (fold_left step rest []))) by (apply G; now exists r).
            apply ModelFacts.has_iff_key in K. unfold mapHas in K. now rewrite Eo in K. }
        destruct Old as [No Io]. destruct (change_spec record _ No) as [N' I'].
        split; [exact N'|]. intros l. rewrite I', Io. unfold itemsOf. split.
        -- intros [(r & Hr & Hg & Hl & Ht) | [-> Ht]].
           ++ exists r. split; [apply in_or_app; now left | now repeat split].
           ++ exists record. split; [apply in_or_app; right; now left | now repeat split].
        -- intros (r & Hr & Hg & Hl & Ht). apply in_app_or in Hr.
           destruct Hr as [Hr | [<- | []]]; [left; now exists r | right; now split].
      * intros H. destruct (I g v H) as [Ni Ii]. split; [exact Ni|].
        intros l. rewrite Ii. unfold itemsOf. split.
        -- intros (r & Hr & Hg & Hl & Ht). exists r.
           split; [apply in_or_app; now left | now repeat split].
        -- intros (r & Hr & Hg & Hl & Ht). apply in_app_or in Hr.
           destruct Hr as [Hr | [<- | []]]; [now exists r|].
           apply String.eqb_neq in E. contradiction.
Qed.

End Collected.

Lemma lookup_spec records :
  NoDup (mapKeys (fold_left SeriesLookup.addRecord records []))
  /\ (forall g, In g (mapKeys (fold_left SeriesLookup.addRecord records []))
                <-> exists record, In record records /\ Csv.groupLabel record = g)
  /\ forall g inner, mapGet String.eqb g (fold_left SeriesLookup.addRecord records []) = Some inner ->
       NoDup (mapKeys inner)
       /\ forall l, In l (mapKeys inner)
                    <-> itemsOf Csv.groupLabel Csv.seriesLabel labelled g records l.
Proof.
  apply (collected Csv.groupLabel Csv.seriesLabel labelled [] mapKeys noted
           SeriesLookup.addRecord).
  - apply addRecord_noted.
  - reflexivity.
  - apply noted_spec.
Qed.

Lemma buildSeriesLookup_map host records :
  SeriesLookup.buildSeriesLookup host records
  = map (fun entry => (fst entry, SeriesLookup.optionsOf host (snd entry)))
      (fold_left SeriesLookup.addRecord records []).
Proof.
  unfold SeriesLookup.buildSeriesLookup. destruct (lookup_spec records) as (N & _).
  now rewrite fold_set_map.
Qed.

Lemma optionsOf_labels host inner :
  Permutation (map SeriesLookup.label (SeriesLookup.optionsOf host inner)) (mapKeys inner).
Proof.
  unfold SeriesLookup.optionsOf. rewrite map_map. cbn [SeriesLookup.label]. rewrite map_id.
  apply SortFacts.sortBy_perm.
Qed.

End LookupFacts.

(** X19.  [buildSeriesLookup] has one entry for each group label of the
    records, also for a group whose records all have a blank series label.
    The options of a group are the series labels of its records that are
    not blank, each once, and the key of every option is the key of its
    label. *)
Theorem X19_series_lookup_lists_each_label_once :
  forall (host : Js.Host) (records : list Csv.DataRecord),
    NoDup (Js.mapKeys (SeriesLookup.buildSeriesLookup host records))
    /\ (forall g, In g (Js.mapKeys (SeriesLookup.buildSeriesLookup host records))
                  <-> exists record, In record records /\ Csv.groupLabel record = g)
    /\ Forall (fun entry =>
                 NoDup (map SeriesLookup.label (snd entry))
                 /\ Forall (fun option =>
                              SeriesLookup.key option
                              = SeriesLookup.keyForLabel (SeriesLookup.label option))
                      (snd entry)
                 /\ forall l, In l (map SeriesLookup.label (snd entry))
                              <-> exists record,
                                    In record records /\ Csv.groupLabel record = fst entry
                                    /\ Csv.seriesLabel record = l
                                    /\ Js.trim (Csv.seriesLabel record) <> "")
         (SeriesLookup.buildSeriesLookup host records).
Proof.
  intros host records. rewrite LookupFacts.buildSeriesLookup_map.
  destruct (LookupFacts.lookup_spec records) as (N & G & I).
  assert (K : Js.mapKeys
                (map (fun entry => (fst entry, SeriesLookup.optionsOf host (snd entry)))
                   (fold_left SeriesLookup.addRecord records []))
              = Js.mapKeys (fold_left SeriesLookup.addRecord records [])).
  { unfold Js.mapKeys. rewrite map_map. reflexivity. }
  rewrite K. split; [exact N|]. split; [exact G|].
  apply Forall_map, Forall_forall. intros [g inner] Hin. cbn [fst snd].
  destruct (I g inner (LookupFacts.In_get g inner _ N Hin)) as [Ni Ii].
  pose proof (LookupFacts.optionsOf_labels host inner) as P.
  split; [|split].
  - apply (Permutation_NoDup (Permutation_sym P) Ni).
  - unfold SeriesLookup.optionsOf. apply Forall_map, Forall_forall. intros l _. reflexivity.
  - intros l. transitivity (In l (Js.mapKeys inner)).
    + split; intros H; [apply (Permutation_in _ P H) | apply (Permutation_in _ (Permutation_sym P) H)].
    + rewrite (Ii l). unfold LookupFacts.itemsOf. split.
      * intros (r & Hr & Hg & Hl & Ht). apply LookupFacts.labelled_iff in Ht. now exists r.
      * intros (r & Hr & Hg & Hl & Ht). apply LookupFacts.labelled_iff in Ht. now exists r.
Qed.
(** ** The groups and the series of the model *)

Module MetaFacts.
Import Js.

Lemma update_same {V : Type} (k : string) (m : list (string * V)) :
  mapUpdate String.eqb k (fun v => v) m = m.
Proof.
  induction m as [|[k' v] r IH]; simpl; [reflexivity|].
  destruct (String.eqb k' k); [reflexivity | now rewrite IH].
Qed.

(** *** Series *)

Definition metaOf (record : Csv.DataRecord) : CsvModel.SeriesMeta :=
  {| CsvModel.seriesKey := Csv.seriesKey record; CsvModel.seriesLabel := Csv.seriesLabel record;
     CsvModel.groupKey := Csv.groupKey record; CsvModel.groupLabel := Csv.groupLabel record;
     CsvModel.seriesUnits := Csv.units record |}.

Lemma addSeries_ensure m record :
  CsvModel.addSeries m record = ModelFacts.ensure (Csv.seriesKey record) (metaOf record) m.
Proof. reflexivity. Qed.

Lemma seriesMeta_keys records :
  NoDup (mapKeys (CsvModel.seriesMeta records))
  /\ KeyedFacts.filedBy CsvModel.seriesKey (CsvModel.seriesMeta records)
  /\ forall k, In k (mapKeys (CsvModel.seriesMeta records))
               <-> exists record, In record records /\ Csv.seriesKey record = k.
Proof.
  destruct (KeyedFacts.grouped CsvModel.seriesKey Csv.seriesKey (fun _ => true) metaOf
              (fun _ meta => meta) CsvModel.addSeries)
    with (records := records) (m := @nil (string * CsvModel.SeriesMeta)) as (N & F & M).
  - intros m r _. now rewrite update_same.
  - discriminate.
  - reflexivity.
  - reflexivity.
  - constructor.
  - constructor.
  - split; [exact N|]. split; [exact F|]. intros k. unfold CsvModel.seriesMeta. rewrite M. split.
    + intros [[] | (r & Hr & _ & E)]. now exists r.
    + intros (r & Hr & E). right. now exists r.
Qed.

Lemma get_seriesMeta k records : forall m,
  mapGet String.eqb k (fold_left CsvModel.addSeries records m)
  = match mapGet String.eqb k m with
    | Some old => Some old
    | None => option_map metaOf (find (fun r => String.eqb (Csv.seriesKey r) k) records)
    end.
Proof.
  induction records as [|record rest IH]; intros m; cbn [fold_left find].
  - now destruct (mapGet String.eqb k m).
  - rewrite IH, addSeries_ensure. destruct (String.eqb (Csv.seriesKey record) k) eqn:E.
    + apply String.eqb_eq in E. subst k. rewrite ModelFacts.get_ensure_same.
      now destruct (mapGet String.eqb (Csv.seriesKey record) m).
    + apply String.eqb_neq in E. now rewrite (ModelFacts.get_ensure_other _ _ _ _ E).
Qed.

Lemma In_values {V : Type} (v : V) (m : list (string * V)) :
  In v (mapValues m) -> exists k, In (k, v) m.
Proof.
  unfold mapValues. intros H. apply in_map_iff in H. destruct H as ([k v'] & E & H).
  simpl in E. subst v'. now exists k.
Qed.

(** *** Groups *)

Lemma setAdd_strings x s :
  NoDup s ->
  NoDup (CsvModel.setAdd String.eqb x s)
  /\ forall l, In l (CsvModel.setAdd String.eqb x s) <-> In l s \/ (l = x /\ true = true).
Proof.
  intros N. unfold CsvModel.setAdd. destruct (existsb (String.eqb x) s) eqn:E.
  - split; [exact N|]. intros l. split; [now left|]. intros [H | [-> _]]; [exact H|].
    apply existsb_exists in E. destruct E as (y & Hy & Ey). apply String.eqb_eq in Ey.
    now subst y.
  - assert (Hx : ~ In x s).
    { intros H. assert (T : existsb (String.eqb x) s = true)
        by (apply existsb_exists; exists x; split; [exact H | apply String.eqb_refl]).
      congruence. }
    split.
    + apply NoDup_app; [exact N | repeat constructor; intros [] |].
      intros y Hy [<- | []]. contradiction.
    + intros l. rewrite in_app_iff. simpl. split.
      * intros [H | [<- | []]]; [now left | right; now split].
      * intros [H | [-> _]]; [now left | right; now left].
Qed.

Lemma addUnits_ensure m record :
  CsvModel.addUnits m record
  = mapUpdate String.eqb (Csv.groupKey record) (CsvModel.setAdd String.eqb (Csv.units record))
      (ModelFacts.ensure (Csv.groupKey record) [] m).
Proof. reflexivity. Qed.

Lemma groupUnits_spec records :
  NoDup (mapKeys (CsvModel.groupUnits records))
  /\ (forall g, In g (mapKeys (CsvModel.groupUnits records))
                <-> exists record, In record records /\ Csv.groupKey record = g)
  /\ forall g units, mapGet String.eqb g (CsvModel.groupUnits records) = Some units ->
       NoDup units
       /\ forall u, In u units
                    <-> LookupFacts.itemsOf Csv.groupKey Csv.units (fun _ => true) g records u.
Proof.
  apply (LookupFacts.collected Csv.groupKey Csv.units (fun _ => true) [] (fun units => units)
           (fun record => CsvModel.setAdd String.eqb (Csv.units record)) CsvModel.addUnits).
  - apply addUnits_ensure.
  - reflexivity.
  - intros r v. apply setAdd_strings.
Qed.

(** Sorting distinct strings by code unit puts them in strictly ascending
    order. *)
Lemma compare_flip a b : String.compare a b = Gt -> String.compare b a = Lt.
Proof. intros H. rewrite String.compare_antisym, H. reflexivity. Qed.

Lemma insert_ascending x xs :
  Sorted (fun a b => String.compare a b = Lt) xs -> ~ In x xs ->
  Sorted (fun a b => String.compare a b = Lt) (insertBy CsvModel.compareCodeUnits x xs).
Proof.
  induction 1 as [|y r Hr IH Hy]; intros Hx; simpl; [repeat constructor|].
  assert (Hne : x <> y) by (intros ->; apply Hx; now left).
  unfold CsvModel.compareCodeUnits at 1.
  destruct (String.compare x y) eqn:E.
  - apply String.compare_eq_iff in E. contradiction.
  - cbn. constructor; [now constructor | now constructor].
  - cbn. apply compare_flip in E.
    constructor; [apply IH; intros H; apply Hx; now right|].
    destruct r as [|z r']; simpl; [now constructor|].
    destruct (Qle_bool (CsvModel.compareCodeUnits x z) 0); constructor;
      [exact E | now inversion Hy].
Qed.

Lemma sort_ascending xs :
  NoDup xs ->
  Sorted (fun a b => String.compare a b = Lt) (sortBy CsvModel.compareCodeUnits xs).
Proof.
  induction 1 as [|x r Hx Hr IH]; simpl; [constructor|].
  apply insert_ascending; [exact IH|]. intros H. apply Hx. now apply MapFacts.sortBy_In in H.
Qed.

Lemma find_first {A : Type} (f : A -> bool) xs x :
  In x xs -> f x = true -> exists y, find f xs = Some y.
Proof.
  induction xs as [|z r IH]; simpl; [intros []|]. intros [-> | H] Hf.
  - rewrite Hf. now exists x.
  - destruct (f z); [now exists z | now apply IH].
Qed.

Definition groupOf (records : list Csv.DataRecord) (entry : string * list string)
    : CsvModel.GroupMeta :=
  {| CsvModel.key := fst entry;
     CsvModel.label :=
       match find (fun record => String.eqb (Csv.groupKey record) (fst entry)) records with
       | Some record => Csv.groupLabel record
       | None => fst entry
       end;
     CsvModel.units := sortBy CsvModel.compareCodeUnits (snd entry) |}.

Lemma groups_In host records meta :
  In meta (CsvModel.groups host records)
  <-> exists entry, In entry (CsvModel.groupUnits records) /\ meta = groupOf records entry.
Proof.
  unfold CsvModel.groups. rewrite MapFacts.sortBy_In, in_map_iff. split.
  - intros (entry & E & H). exists entry. split; [exact H | now symmetry].
  - intros (entry & H & E). exists entry. split; [now symmetry | exact H].
Qed.

Lemma groups_keys host records :
  Permutation (map CsvModel.key (CsvModel.groups host records))
    (mapKeys (CsvModel.groupUnits records)).
Proof.
  unfold CsvModel.groups.
  apply perm_trans
    with (map CsvModel.key (map (groupOf records) (CsvModel.groupUnits records))).
  - apply Permutation_map, SortFacts.sortBy_perm.
  - rewrite map_map. apply Permutation_refl.
Qed.

End MetaFacts.

(** X20.  The [series] of the model has one entry for each series key of
    the records, and every entry describes the first record that has its
    key: the label, the group and the units of later records with the same
    key are not looked at. *)
Theorem X20_series_meta_describes_first_record :
  forall (host : Js.Host) (records : list Csv.DataRecord),
    NoDup (map CsvModel.seriesKey (CsvModel.series host records))
    /\ (forall k, In k (map CsvModel.seriesKey (CsvModel.series host records))
                  <-> exists record, In record records /\ Csv.seriesKey record = k)
    /\ Forall (fun meta =>
                 exists record,
                   find (fun r => String.eqb (Csv.seriesKey r) (CsvModel.seriesKey meta)) records
                   = Some record
                   /\ CsvModel.seriesLabel meta = Csv.seriesLabel record
                   /\ CsvModel.groupKey meta = Csv.groupKey record
                   /\ CsvModel.groupLabel meta = Csv.groupLabel record
                   /\ CsvModel.seriesUnits meta = Csv.units record)
         (CsvModel.series host records).
Proof.
  intros host records. destruct (MetaFacts.seriesMeta_keys records) as (N & F & M).
  assert (P : Permutation (map CsvModel.seriesKey (CsvModel.series host records))
                (Js.mapKeys (CsvModel.seriesMeta records))).
  { rewrite <- (KeyedFacts.keys_of_values _ _ F). unfold CsvModel.series.
    apply Permutation_map, SortFacts.sortBy_perm. }
  split; [|split].
  - apply (Permutation_NoDup (Permutation_sym P) N).
  - intros k. rewrite <- M. split; intros H;
      [apply (Permutation_in _ P H) | apply (Permutation_in _ (Permutation_sym P) H)].
  - apply Forall_forall. intros meta Hm. unfold CsvModel.series in Hm.
    apply MapFacts.sortBy_In in Hm. apply MetaFacts.In_values in Hm. destruct Hm as [k Hk].
    pose proof (LookupFacts.In_get k meta _ N Hk) as G.
    unfold CsvModel.seriesMeta in G. rewrite MetaFacts.get_seriesMeta in G. cbn [Js.mapGet] in G.
    destruct (find (fun r => String.eqb (Csv.seriesKey r) k) records) as [record|] eqn:E;
      [|discriminate].
    injection G as <-. pose proof (find_some _ _ E) as [Hr Ek].
    apply String.eqb_eq in Ek. exists record.
    cbn [MetaFacts.metaOf CsvModel.seriesKey CsvModel.seriesLabel CsvModel.groupKey
         CsvModel.groupLabel CsvModel.seriesUnits].
    rewrite Ek. split; [exact E | now repeat split].
Qed.

(** X21.  The [groups] of the model has one entry for each group key of
    the records.  Its label is the group label of the first record of the
    group, and its units are the units of the records of the group, each
    once, in strictly ascending order of code units. *)
Theorem X21_groups_list_first_label_and_sorted_units :
  forall (host : Js.Host) (records : list Csv.DataRecord),
    NoDup (map CsvModel.key (CsvModel.groups host records))
    /\ (forall k, In k (map CsvModel.key (CsvModel.groups host records))
                  <-> exists record, In record records /\ Csv.groupKey record = k)
    /\ Forall (fun meta =>
                 (exists record,
                    find (fun r => String.eqb (Csv.groupKey r) (CsvModel.key meta)) records
                    = Some record
                    /\ CsvModel.label meta = Csv.groupLabel record)
                 /\ Sorted (fun a b => String.compare a b = Lt) (CsvModel.units meta)
                 /\ forall u, In u (CsvModel.units meta)
                              <-> exists record,
                                    In record records
                                    /\ Csv.groupKey record = CsvModel.key meta
                                    /\ Csv.units record = u)
         (CsvModel.groups host records).
Proof.
  intros host records. destruct (MetaFacts.groupUnits_spec records) as (N & G & I).
  pose proof (MetaFacts.groups_keys host records) as P.
  split; [|split].
  - apply (Permutation_NoDup (Permutation_sym P) N).
  - intros k. rewrite <- G. split; intros H;
      [apply (Permutation_in _ P H) | apply (Permutation_in _ (Permutation_sym P) H)].
  - apply Forall_forall. intros meta Hm. apply MetaFacts.groups_In in Hm.
    destruct Hm as ([k units] & Hin & ->).
    cbn [MetaFacts.groupOf CsvModel.key CsvModel.label CsvModel.units fst snd].
    destruct (I k units (LookupFacts.In_get k units _ N Hin)) as [Nu Iu].
    split; [|split].
    + assert (K : In k (Js.mapKeys (CsvModel.groupUnits records))).
      { unfold Js.mapKeys. apply in_map_iff. now exists (k, units). }
      apply G in K. destruct K as (r & Hr & Ek).
      destruct (MetaFacts.find_first (fun r => String.eqb (Csv.groupKey r) k) records r Hr)
        as [first Ef]; [apply String.eqb_eq, Ek|].
      exists first. rewrite Ef. now split.
    + now apply MetaFacts.sort_ascending.
    + intros u. rewrite MapFacts.sortBy_In, (Iu u). unfold LookupFacts.itemsOf. split.
      * intros (r & Hr & Hg & Hu & _). now exists r.
      * intros (r & Hr & Hg & Hu). now exists r.
Qed.
